(** * Novacal signal-processing core: a shallow embedding and its properties

    The Go back end of Novacal (packages [timeseries], [fir] and [fft]) is
    embedded function by function.  Conventions of the embedding:

    - Go's [float64] is Rocq's primitive binary64 [float]; arithmetic is
      IEEE-754 round-to-nearest-even without fused multiply-add (the amd64
      code generator), so a division by zero yields an infinity or NaN and
      never stops the program.
    - Go's [int] is [Z].  An integer that is an index into, or a length
      of, an allocated slice (or a byte count of one file) stays far below
      2^63.  The integers that come from a request or a configuration
      instead have their wrap-around written out: the sum over the files in
      [GetTotalFileLength], the length of the window in [ReadAndDownsample],
      the multiples of the cycle length in [stackAndResample] and
      [ProcessFIR], the byte count of [readPartialBinaryFile], the argument
      of [nextPowerOfTwo].
    - A slice is a [list]; indexing outside the slice is the runtime panic
      [IndexOutOfRange].  A Go function returns [result]: [Ok] with its
      value, or [Fail] with the panic or the [error] value it stopped on.
    - In-place updates of a slice thread the updated list explicitly. *)

From Stdlib Require Import ZArith Lia Bool String Floats Uint63.
From Stdlib Require Import Strings.Byte.
From Stdlib Require Import Sorting.Sorted.
From stdpp Require Import base list list_numbers.

Local Open Scope Z_scope.

(** ** The Go runtime as far as the three packages use it *)

Module Go.

Inductive fault : Type :=
| IndexOutOfRange
| SliceBoundsOutOfRange
| NegativeLen
| OutOfFuel
| Error (msg : string).

Inductive result (A : Type) : Type :=
| Ok (a : A)
| Fail (f : fault).

Arguments Ok {A} a.
Arguments Fail {A} f.

#[global] Instance result_ret : MRet result := @Ok.

#[global] Instance result_bind : MBind result :=
  fun A B (k : A -> result B) (m : result A) =>
    match m with
    | Ok a => k a
    | Fail f => Fail f
    end.

(** [failed r]: the call did not produce a value. *)
Definition failed {A} (r : result A) : Prop :=
  match r with
  | Ok _ => False
  | Fail _ => True
  end.

(** [len(l)]. *)
Definition len {A} (l : list A) : Z := Z.of_nat (length l).

(** [l[i]] as an expression. *)
Definition index {A} (l : list A) (i : Z) : result A :=
  if i <? 0 then Fail IndexOutOfRange
  else match l !! Z.to_nat i with
       | Some x => Ok x
       | None => Fail IndexOutOfRange
       end.

(** [l[i] = x] as a statement. *)
Definition store {A} (l : list A) (i : Z) (x : A) : result (list A) :=
  if (i <? 0) || (len l <=? i) then Fail IndexOutOfRange
  else Ok (<[Z.to_nat i := x]> l).

(** [make([]T, n)], every cell holding the zero value of [T]. *)
Definition make {A} (zero : A) (n : Z) : result (list A) :=
  if n <? 0 then Fail NegativeLen else Ok (replicate (Z.to_nat n) zero).

(** [l[lo:hi]] on a slice whose capacity is its length. *)
Definition slice {A} (l : list A) (lo hi : Z) : result (list A) :=
  if (lo <? 0) || (hi <? lo) || (len l <? hi) then Fail SliceBoundsOutOfRange
  else Ok (take (Z.to_nat (hi - lo)) (drop (Z.to_nat lo) l)).

(** [for i := lo; i < hi; i++ { s = body i s }], when the body assigns
    neither [i] nor [hi]. *)
Fixpoint forN {St} (n : nat) (i : Z) (body : Z -> St -> result St) (s : St)
  : result St :=
  match n with
  | O => Ok s
  | S n' => s' ← body i s; forN n' (i + 1) body s'
  end.

Definition forRange {St} (lo hi : Z) (body : Z -> St -> result St) (s : St)
  : result St :=
  forN (Z.to_nat (hi - lo)) lo body s.

(** [for i := hi - 1; i >= lo; i-- { s = body i s }]. *)
Fixpoint forDownN {St} (n : nat) (i : Z) (body : Z -> St -> result St) (s : St)
  : result St :=
  match n with
  | O => Ok s
  | S n' => s' ← body i s; forDownN n' (i - 1) body s'
  end.

Definition forDown {St} (hi lo : Z) (body : Z -> St -> result St) (s : St)
  : result St :=
  forDownN (Z.to_nat (hi - lo)) (hi - 1) body s.

(** [for _, x := range l { s = body x s }]. *)
Fixpoint forEach {A St} (l : list A) (body : A -> St -> result St) (s : St)
  : result St :=
  match l with
  | [] => Ok s
  | x :: l' => s' ← body x s; forEach l' body s'
  end.

(** [float64(z)] for an [int] [z] with [|z| < 2^63]. *)
Definition float64_of_int (z : Z) : float :=
  if z <? 0 then PrimFloat.opp (PrimFloat.of_uint63 (Uint63.of_Z (- z)))
  else PrimFloat.of_uint63 (Uint63.of_Z z).

(** [int(x)] for a [float64] [x]: truncation toward zero.  Outside the
    range of [int] the language leaves the result to the implementation;
    amd64 yields the least [int]. *)
Definition int_of_float64 (x : float) : Z :=
  match Prim2SF x with
  | S754_zero _ => 0
  | S754_finite s m e =>
      let mag := if 0 <=? e then Z.shiftl (Zpos m) e
                 else Z.shiftr (Zpos m) (- e) in
      if (2 ^ 63 <=? mag) then - 2 ^ 63
      else if s then - mag else mag
  | S754_infinity _ | S754_nan => - 2 ^ 63
  end.

(** [x > y] on [float64]. *)
Definition gtb (x y : float) : bool := PrimFloat.ltb y x.

(** The value of the bit fields (sign, biased exponent, fraction) of an
    IEEE-754 number whose fraction has [fbits] bits and whose exponent bias
    is [bias]; [emaxb] is the all-ones exponent. *)
Definition ieee_value (fbits bias emaxb : Z) (s : bool) (e f : Z) : float :=
  let signed (x : float) := if s then PrimFloat.opp x else x in
  if e =? emaxb then
    if f =? 0 then signed infinity else nan
  else if e =? 0 then
    match f with
    | Zpos m => SF2Prim (S754_finite s m (1 - bias - fbits)%Z)
    | _ => signed zero
    end
  else
    match (f + 2 ^ fbits)%Z with
    | Zpos m => SF2Prim (S754_finite s m (e - bias - fbits)%Z)
    | _ => nan
    end.

(** [float64(math.Float32frombits(b))]: every binary32 number is a
    binary64 number, so the widening is exact. *)
Definition Float32frombits (b : Z) : float :=
  ieee_value 23 127 255 (Z.testbit b 31)
    (Z.land (Z.shiftr b 23) 255) (Z.land b (2 ^ 23 - 1)).

(** [math.Float64frombits(b)]. *)
Definition Float64frombits (b : Z) : float :=
  ieee_value 52 1023 2047 (Z.testbit b 63)
    (Z.land (Z.shiftr b 52) 2047) (Z.land b (2 ^ 52 - 1)).

Definition byte_val (b : Byte.byte) : Z := Z.of_N (Byte.to_N b).

(** [binary.LittleEndian.Uint32(bs)] and [Uint64(bs)]: the first bytes of
    [bs], least significant first; a shorter [bs] panics. *)
Fixpoint le_uint (n : nat) (bs : list Byte.byte) : result Z :=
  match n with
  | O => Ok 0
  | S n' =>
      match bs with
      | [] => Fail IndexOutOfRange
      | b :: bs' => hi ← le_uint n' bs'; Ok (Z.lor (byte_val b) (Z.shiftl hi 8))
      end
  end.

Definition Uint32 (bs : list Byte.byte) : result Z := le_uint 4 bs.
Definition Uint64 (bs : list Byte.byte) : result Z := le_uint 8 bs.

(** [sort.Ints(l)]: the ascending rearrangement of [l]. *)
Fixpoint insertInt (x : Z) (l : list Z) : list Z :=
  match l with
  | [] => [x]
  | y :: l' => if x <=? y then x :: l else y :: insertInt x l'
  end.

Definition sortInts (l : list Z) : list Z := foldr insertInt [] l.

(** A file system: the bytes of the regular file at a path, if any. *)
Definition filesystem : Type := string -> option (list Byte.byte).

(** [os.Stat(path)] followed by [Size()]. *)
Definition statSize (fs : filesystem) (path : string) (msg : string)
  : result Z :=
  match fs path with
  | Some content => Ok (len content)
  | None => Fail (Error msg)
  end.

(** [f.Read(buf)] on a regular file positioned at byte [pos]: the bytes
    that remain, at most [len(buf)] of them, overwrite the front of [buf];
    the count is returned with the buffer. *)
Definition fileRead (content : list Byte.byte) (pos : Z) (buf : list Byte.byte)
  : Z * list Byte.byte :=
  let got := take (length buf) (drop (Z.to_nat pos) content) in
  (len got, got ++ drop (length got) buf).

(** [int64] wrap-around. *)
Definition wrap64 (z : Z) : Z := (z + 2 ^ 63) mod 2 ^ 64 - 2 ^ 63.

(** [copy(dst, src)]: the first [min(len(dst), len(src))] cells of [dst]
    are overwritten. *)
Definition copy {A} (dst src : list A) : list A :=
  let moved := take (length dst) src in
  moved ++ drop (length moved) dst.

(** [math.Ceil(x)]: the least integral value not below [x]; zeros,
    infinities and NaN are returned as they are, and a negative [x] above
    -1 gives the negative zero.  A binary64 number whose exponent is not
    negative is integral. *)
Definition Ceil (x : float) : float :=
  match Prim2SF x with
  | S754_finite s m e =>
      if 0 <=? e then x
      else
        let d := Z.shiftr (Zpos m) (- e) in
        let fract := negb (Zpos m =? Z.shiftl d (- e)) in
        if s then PrimFloat.opp (float64_of_int d)
        else float64_of_int (if fract then d + 1 else d)
  | _ => x
  end.

End Go.

(** ** Package [timeseries] (src/backend/timeseries/timeseries.go) *)

Module timeseries.
Import Go.

(** [GetTotalFileLength]: the sample count of the files, four bytes a
    sample. *)
Definition GetTotalFileLength (fs : filesystem) (filePaths : list string)
  : result Z :=
  forEach filePaths
    (fun filePath totalLength =>
       size ← statSize fs filePath "error getting file info";
       Ok (wrap64 (totalLength + Z.quot size 4)))
    0.

(** The sample at position [i] of a buffer of little-endian binary32
    numbers, widened: [float64(math.Float32frombits(
    binary.LittleEndian.Uint32(data[i*4 : (i+1)*4])))]. *)
Definition decodeFloat32 (data : list Byte.byte) (i : Z) : result float :=
  bs ← slice data (i * 4) ((i + 1) * 4);
  bits ← Uint32 bs;
  Ok (Float32frombits bits).

(** [readBinaryFile]: the samples [startIndex, endIndex) of a recording,
    with their sample numbers as times. *)
Definition readBinaryFile (fs : filesystem) (filePath : string)
  (startIndex endIndex : Z) : result (list float * list float) :=
  match fs filePath with
  | None => Fail (Error "open")
  | Some content =>
      let size := len content in
      let totalPoints := Z.quot size 4 in
      let startIndex := if startIndex <? 0 then 0 else startIndex in
      let endIndex :=
        if (endIndex <=? 0) || (totalPoints <? endIndex) then totalPoints
        else endIndex in
      if endIndex <=? startIndex then Fail (Error "invalid index range")
      else
        let pointsToRead := endIndex - startIndex in
        times ← make 0%float pointsToRead;
        values ← make 0%float pointsToRead;
        let seekPos := startIndex * 4 in
        if size <=? seekPos then Fail (Error "seek position beyond file size")
        else
          data ← make Byte.x00 (pointsToRead * 4);
          let '(n, data) := fileRead content seekPos data in
          let actualPoints := Z.quot n 4 in
          '(pointsToRead, times, values) ←
            (if actualPoints <? pointsToRead then
               times' ← slice times 0 actualPoints;
               values' ← slice values 0 actualPoints;
               Ok (actualPoints, times', values')
             else Ok (pointsToRead, times, values));
          forRange 0 pointsToRead
            (fun i '(times, values) =>
               value ← decodeFloat32 data i;
               times ← store times i (float64_of_int (startIndex + i));
               values ← store values i value;
               Ok (times, values))
            (times, values)
  end.

(** The running state of the scan of one bin. *)
Record binScan : Type := mkScan {
  minVal : float;
  maxVal : float;
  minIdx : Z;
  maxIdx : Z;
  sum : float;
  count : Z
}.

(** One turn of [for j := start + 1; j < end; j++]. *)
Definition scanStep (values : list float) (j : Z) (st : binScan)
  : result binScan :=
  val ← index values j;
  let sum' := (sum st + val)%float in
  let count' := count st + 1 in
  let '(minVal', minIdx') :=
    if PrimFloat.ltb val (minVal st) then (val, j) else (minVal st, minIdx st) in
  let '(maxVal', maxIdx') :=
    if gtb val (maxVal st) then (val, j) else (maxVal st, maxIdx st) in
  Ok (mkScan minVal' maxVal' minIdx' maxIdx' sum' count').

(** "Find extrema in the bin": the scan of [values[start:end]]. *)
Definition scanBin (values : list float) (start end_ : Z) : result binScan :=
  v0 ← index values start;
  forRange (start + 1) end_ (scanStep values) (mkScan v0 v0 start start v0 1).

(** The indices a bin keeps, before they are sorted: its first point, its
    minimum, its maximum, each under its condition. *)
Definition binIndices (start : Z) (st : binScan) (avg : float) : list Z :=
  let indices := [] in
  let indices :=
    if negb (minIdx st =? start) && negb (maxIdx st =? start)
    then indices ++ [start] else indices in
  let threshold :=
    (0x1.999999999999ap-5 * PrimFloat.abs (maxVal st - minVal st))%float in
  let indices :=
    if negb (minIdx st =? start)
       && gtb (PrimFloat.abs (minVal st - avg)) threshold
    then indices ++ [minIdx st] else indices in
  let indices :=
    if negb (maxIdx st =? start) && negb (maxIdx st =? minIdx st)
       && gtb (PrimFloat.abs (maxVal st - avg)) threshold
    then indices ++ [maxIdx st] else indices in
  indices.

(** The body of the loop over bins, for the bin [start, end_) with
    [start < end_]: the points it appends to the two output slices. *)
Definition processBin (times values : list float) (start end_ : Z)
  : result (list float * list float) :=
  st ← scanBin values start end_;
  let avg := (sum st / float64_of_int (count st))%float in
  t0 ← index times start;
  t1 ← index times (end_ - 1);
  let avgTime := ((t0 + t1) / 2)%float in
  let indices := sortInts (binIndices start st avg) in
  '(outT, outV) ←
    forEach indices
      (fun idx '(outT, outV) =>
         t ← index times idx;
         v ← index values idx;
         Ok (outT ++ [t], outV ++ [v]))
      ([], []);
  if 0 <? len indices then
    tl ← (i ← index indices (len indices - 1); index times i);
    if gtb avgTime tl then Ok (outT ++ [avgTime], outV ++ [avg])
    else Ok (outT, outV)
  else Ok (outT, outV).

(** [for start := 0; start < length; start += binSize], at most [fuel]
    turns; [out] holds the two output slices. *)
Fixpoint binLoop (fuel : nat) (times values : list float)
  (binSize length start : Z) (out : list float * list float)
  : result (list float * list float) :=
  if start <? length then
    match fuel with
    | O => Fail OutOfFuel
    | S fuel' =>
        let end_ := start + binSize in
        let end_ := if length <? end_ then length else end_ in
        if start =? end_ then
          binLoop fuel' times values binSize length (start + binSize) out
        else
          pts ← processBin times values start end_;
          binLoop fuel' times values binSize length (start + binSize)
            (out.1 ++ pts.1, out.2 ++ pts.2)
    end
  else Ok out.

(** [dynamicDownsample].  Past the guard [binSize] is at least 2, so the
    loop takes fewer than [length] turns. *)
Definition dynamicDownsample (times values : list float) (binSize : Z)
  : result (list float * list float) :=
  let length := len times in
  if (length <=? 2) || (binSize <=? 1) then Ok (times, values)
  else binLoop (Z.to_nat length) times values binSize length 0 ([], []).

(** [ReadBinaryFile]: the whole file through [binary.Read] into a
    [[]float64] of [size/8] cells. *)
Definition ReadBinaryFile (fs : filesystem) (path : string)
  : result (list float) :=
  match fs path with
  | None => Fail (Error "error opening file")
  | Some content =>
      let size := len content in
      data ← make 0%float (Z.quot size 8);
      buf ← make Byte.x00 (8 * len data);
      let '(n, buf) := fileRead content 0 buf in
      if n <? len buf then Fail (Error "error reading file")
      else
        forRange 0 (len data)
          (fun i data =>
             bs ← slice buf (i * 8) ((i + 1) * 8);
             bits ← Uint64 bs;
             store data i (Float64frombits bits))
          data
  end.

(** [nextPowerOfTwo]: the bit-smearing round-up, on a 64-bit [int] with
    shifts up to 16 only.  No function of the package calls it. *)
Definition nextPowerOfTwo (v : Z) : Z :=
  let v := wrap64 (v - 1) in
  let v := Z.lor v (Z.shiftr v 1) in
  let v := Z.lor v (Z.shiftr v 2) in
  let v := Z.lor v (Z.shiftr v 4) in
  let v := Z.lor v (Z.shiftr v 8) in
  let v := Z.lor v (Z.shiftr v 16) in
  wrap64 (v + 1).

Record FileData : Type := mkFileData {
  Times : list float;
  Values : list float
}.

(** The bin size [ReadAndDownsample] derives from the window: the window's
    length over the target resolution of 2000 points, rounded up, and at
    least 1. *)
Definition viewBinSize (startIndex endIndex : Z) : Z :=
  let pointsInView := wrap64 (endIndex - startIndex) in
  let targetResolution := 2000 in
  let binSize :=
    int_of_float64
      (Ceil (float64_of_int pointsInView / float64_of_int targetResolution)) in
  if binSize <? 1 then 1 else binSize.

(** [ReadAndDownsample]: the window [startIndex, endIndex) of every file,
    decimated when the bin size exceeds 1.  [decimationFactor] is not
    read. *)
Definition ReadAndDownsample (fs : filesystem) (filePaths : list string)
  (startIndex endIndex decimationFactor : Z) : result (list FileData) :=
  result ← make (mkFileData [] []) (len filePaths);
  let binSize := viewBinSize startIndex endIndex in
  '(_, result) ←
    forEach filePaths
      (fun filePath '(i, result) =>
         '(times, values) ← readBinaryFile fs filePath startIndex endIndex;
         '(times, values) ←
           (if 1 <? binSize then dynamicDownsample times values binSize
            else Ok (times, values));
         result ← store result i (mkFileData times values);
         Ok (i + 1, result))
      (0, result);
  Ok result.

End timeseries.

(** ** Package [fir] (src/unnamed/part_000) *)

Module fir.
Import Go.

(** [readPartialBinaryFile]: the first [numSamples] binary32 samples of a
    recording, or as many as the file holds.  The byte count
    [numSamples * 4] is an [int] product of a caller's number and wraps. *)
Definition readPartialBinaryFile (fs : filesystem) (filePath : string)
  (numSamples : Z) : result (list float) :=
  match fs filePath with
  | None => Fail (Error "open")
  | Some content =>
      let bytesToRead := wrap64 (numSamples * 4) in
      buffer ← make Byte.x00 bytesToRead;
      let '(n, buffer) := fileRead content 0 buffer in
      let samples := Z.quot n 4 in
      data ← make 0%float samples;
      forRange 0 samples
        (fun i data =>
           bs ← slice buffer (i * 4) ((i + 1) * 4);
           bits ← Uint32 bs;
           store data i (Float32frombits bits))
        data
  end.

(** [calculateMean]; on an empty slice this is 0/0. *)
Definition calculateMean (data : list float) : float :=
  let sum := fold_left (fun sum v => (sum + v)%float) data 0%float in
  (sum / float64_of_int (len data))%float.

(** [min] on [int]. *)
Definition min (a b : Z) : Z := if a <? b then a else b.

(** [findZeroCrossings]. *)
Definition findZeroCrossings (data : list float) (mean : float)
  : result (list Z) :=
  forRange 0 (len data - 1)
    (fun i crossings =>
       a ← index data i;
       b ← index data (i + 1);
       if PrimFloat.ltb ((a - mean) * (b - mean))%float 0%float
       then Ok (crossings ++ [i]) else Ok crossings)
    [].

(** [resample]: linear interpolation of [data] onto [newLen] points. *)
Definition resample (data : list float) (newLen : Z) : result (list float) :=
  result ← make 0%float newLen;
  let ratio :=
    (float64_of_int (len data - 1) / float64_of_int (newLen - 1))%float in
  forRange 0 newLen
    (fun i result =>
       let pos := (float64_of_int i * ratio)%float in
       let idx := int_of_float64 pos in
       let frac := (pos - float64_of_int idx)%float in
       if idx + 1 <? len data then
         a ← index data idx;
         b ← index data (idx + 1);
         store result i (a * (1 - frac) + b * frac)%float
       else
         a ← index data idx;
         store result i a)
    result.

(** [roll]: [result[i] = data[(i+shift)%n]]; Go's [%] truncates.  A shift
    below [n] is, like [i], an index of [data] or negative, and the sum
    [i + shift] cannot leave the range of [int]; with any other shift the
    sum has its wrap-around written out. *)
Definition roll (data : list float) (shift : Z) : result (list float) :=
  let n := len data in
  result ← make 0%float n;
  forRange 0 n
    (fun i result =>
       let j := if shift <? n then i + shift else wrap64 (i + shift) in
       v ← index data (Z.rem j n);
       store result i v)
    result.

(** [dotProduct]: the sum runs over the indices of [a]. *)
Definition dotProduct (a b : list float) : result float :=
  forRange 0 (len a)
    (fun i sum =>
       ai ← index a i;
       bi ← index b i;
       Ok (sum + ai * bi)%float)
    0%float.

(** [transposeMatrix]. *)
Definition transposeMatrix (m : list (list float))
  : result (list (list float)) :=
  let rows := len m in
  m0 ← index m 0;
  let cols := len m0 in
  result ← make [] cols;
  result ← forRange 0 (len result)
    (fun i result => row ← make 0%float rows; store result i row) result;
  forRange 0 rows
    (fun i result =>
       forRange 0 cols
         (fun j result =>
            mi ← index m i;
            v ← index mi j;
            rj ← index result j;
            rj ← store rj i v;
            store result j rj)
         result)
    result.

(** [matrixMultiply]. *)
Definition matrixMultiply (a b : list (list float))
  : result (list (list float)) :=
  let rows := len a in
  b0 ← index b 0;
  let cols := len b0 in
  result ← make [] rows;
  forRange 0 (len result)
    (fun i result =>
       row ← make 0%float cols;
       row ← forRange 0 cols
         (fun j row =>
            sum ← forRange 0 (len b)
              (fun k sum =>
                 ai ← index a i;
                 aik ← index ai k;
                 bk ← index b k;
                 bkj ← index bk j;
                 Ok (sum + aik * bkj)%float)
              0%float;
            store row j sum)
         row;
       store result i row)
    result.

(** [matrixVectorMultiply]. *)
Definition matrixVectorMultiply (m : list (list float)) (v : list float)
  : result (list float) :=
  result ← make 0%float (len m);
  forRange 0 (len m)
    (fun i result =>
       mi ← index m i;
       sum ← forRange 0 (len mi)
         (fun j sum =>
            mij ← index mi j;
            vj ← index v j;
            Ok (sum + mij * vj)%float)
         0%float;
       store result i sum)
    result.

(** [A[i][j] = f(A[i][j])]. *)
Definition updateCell (A : list (list float)) (i j : Z) (f : float -> float)
  : result (list (list float)) :=
  Ai ← index A i;
  Aij ← index Ai j;
  Ai ← store Ai j (f Aij);
  store A i Ai.

(** One turn of the forward elimination of [solveLinearSystem]: the row
    [i] is divided by its own diagonal entry, whatever that is, and
    subtracted from the rows below.  Rows never change places. *)
Definition eliminateStep (n i : Z) (Ab : list (list float) * list float)
  : result (list (list float) * list float) :=
  let '(A, b) := Ab in
  Ai ← index A i;
  pivot ← index Ai i;
  A ← forRange i n
    (fun j A => updateCell A i j (fun x => x / pivot)%float) A;
  bi ← index b i;
  b ← store b i (bi / pivot)%float;
  forRange (i + 1) n
    (fun k '(A, b) =>
       Ak ← index A k;
       factor ← index Ak i;
       A ← forRange i n
         (fun j A =>
            Ai ← index A i;
            Aij ← index Ai j;
            updateCell A k j (fun x => x - factor * Aij)%float)
         A;
       bk ← index b k;
       bi ← index b i;
       b ← store b k (bk - factor * bi)%float;
       Ok (A, b))
    (A, b).

(** One turn of the back substitution. *)
Definition substituteStep (n : Z) (A : list (list float)) (b : list float)
  (i : Z) (x : list float) : result (list float) :=
  bi ← index b i;
  x ← store x i bi;
  forRange (i + 1) n
    (fun j x =>
       Ai ← index A i;
       Aij ← index Ai j;
       xj ← index x j;
       xi ← index x i;
       store x i (xi - Aij * xj)%float)
    x.

(** [solveLinearSystem]: Gaussian elimination without row exchange. *)
Definition solveLinearSystem (A : list (list float)) (b : list float)
  : result (list float) :=
  let n := len A in
  x ← make 0%float n;
  '(A, b) ← forRange 0 n (eliminateStep n) (A, b);
  forDown n 0 (substituteStep n A b) x.

(** The diagonal entries [solveLinearSystem] divides by, in order. *)
Definition pivots (A : list (list float)) (b : list float)
  : result (list float) :=
  let n := len A in
  '(_, ps) ← forRange 0 n
    (fun i '(Ab, ps) =>
       Ai ← index Ab.1 i;
       pivot ← index Ai i;
       Ab ← eliminateStep n i Ab;
       Ok (Ab, ps ++ [pivot]))
    ((A, b), []);
  Ok ps.

(** The regularized normal equations [ATA], [ATb] that
    [regularizedLeastSquares] hands to [solveLinearSystem]. *)
Definition normalEquations (imperfect perfect : list float) (regParam : float)
  : result (list (list float) * list float) :=
  let n := len imperfect in
  A ← make [] n;
  A ← forRange 0 (len A)
    (fun i A => row ← roll imperfect i; store A i row) A;
  At ← transposeMatrix A;
  ATA ← matrixMultiply At A;
  At ← transposeMatrix A;
  ATb ← matrixVectorMultiply At perfect;
  diagMean ← forRange 0 n
    (fun i diagMean =>
       row ← index ATA i;
       d ← index row i;
       Ok (diagMean + d)%float)
    0%float;
  let diagMean := (diagMean / float64_of_int n)%float in
  ATA ← forRange 0 n
    (fun i ATA => updateCell ATA i i (fun x => x + diagMean * regParam)%float)
    ATA;
  Ok (ATA, ATb).

(** [regularizedLeastSquares]. *)
Definition regularizedLeastSquares (imperfect perfect : list float)
  (regParam : float) : result (list float) :=
  '(ATA, ATb) ← normalEquations imperfect perfect regParam;
  solveLinearSystem ATA ATb.

(** [applyFIRFilter]. *)
Definition applyFIRFilter (signal coeffs : list float) : result (list float) :=
  let N := len signal in
  filtered ← make 0%float N;
  forRange 0 N
    (fun i filtered =>
       rolled ← roll signal i;
       d ← dotProduct coeffs rolled;
       store filtered i d)
    filtered.

(** The loop of [generatePerfectSquareWave] that splits the samples around
    the mean: the sums and the counts of the samples above it and of the
    others. *)
Definition partitionStep (mean : float) (v : float)
  (acc : float * Z * float * Z) : float * Z * float * Z :=
  let '(highValue, highCount, lowValue, lowCount) := acc in
  if gtb v mean then ((highValue + v)%float, highCount + 1, lowValue, lowCount)
  else (highValue, highCount, (lowValue + v)%float, lowCount + 1).

Definition partitionLevels (signal : list float) (mean : float)
  : float * Z * float * Z :=
  fold_left (fun acc v => partitionStep mean v acc) signal
    (0%float, 0, 0%float, 0).

(** [generatePerfectSquareWave]. *)
Definition generatePerfectSquareWave (signal : list float)
  : result (list float) :=
  let n := len signal in
  let mean := calculateMean signal in
  firstHalf ← slice signal 0 (Z.quot n 2);
  let firstHalfMean := calculateMean firstHalf in
  let isFirstHalfHigh := gtb firstHalfMean mean in
  let '(highValue, highCount, lowValue, lowCount) :=
    partitionLevels signal mean in
  let highValue := (highValue / float64_of_int highCount)%float in
  let lowValue := (lowValue / float64_of_int lowCount)%float in
  result ← make 0%float n;
  let fill (lo hi : Z) (x : float) (result : list float) :=
    forRange lo hi (fun i result => store result i x) result in
  if isFirstHalfHigh then
    result ← fill 0 (Z.quot n 2) highValue result;
    fill (Z.quot n 2) n lowValue result
  else
    result ← fill 0 (Z.quot n 2) lowValue result;
    fill (Z.quot n 2) n highValue result.

(** The stacking loop of [stackAndResample]:
    [for i := 0; i < len(zeroCrossings)-1 && len(stackedCycles) < maxCycles;
    i += 2].  Every turn that does not leave the loop appends a cycle, so
    the loop takes at most [maxCycles] turns; [fuel] counts them. *)
Fixpoint stackLoop (fuel : nat) (data : list float) (samplesPerCycle : Z)
  (zeroCrossings : list Z) (maxCycles i : Z) (stackedCycles : list (list float))
  : result (list (list float)) :=
  if (i <? len zeroCrossings - 1) && (len stackedCycles <? maxCycles) then
    match fuel with
    | O => Fail OutOfFuel
    | S fuel' =>
        start ← index zeroCrossings i;
        let end_ := wrap64 (start + samplesPerCycle) in
        if len data <? end_ then Ok stackedCycles
        else
          cycle ← make 0%float samplesPerCycle;
          segment ← slice data start end_;
          let cycle := copy cycle segment in
          stackLoop fuel' data samplesPerCycle zeroCrossings maxCycles (i + 2)
            (stackedCycles ++ [cycle])
    end
  else Ok stackedCycles.

(** [data = data[:samplesPerCycle]] under [len(data) > samplesPerCycle]. *)
Definition firstCycle (data : list float) (samplesPerCycle : Z)
  : result (list float) :=
  if samplesPerCycle <? len data then slice data 0 samplesPerCycle
  else Ok data.

(** [stackAndResample]: up to five cycles, cut at every other crossing of
    the mean, averaged and resampled to [nSamples] points; the raw buffer
    or its first cycle is resampled when no cycle can be cut. *)
Definition stackAndResample (data : list float)
  (sampleRate waveFrequency : float) (nSamples : Z) : result (list float) :=
  let samplesPerCycle := int_of_float64 (sampleRate / waveFrequency) in
  if len data <? wrap64 (samplesPerCycle * 2) then resample data nSamples
  else
    let mean := calculateMean data in
    let searchLength := min (len data) (wrap64 (samplesPerCycle * 4)) in
    searched ← slice data 0 searchLength;
    zeroCrossings ← findZeroCrossings searched mean;
    if len zeroCrossings <? 2 then
      data ← firstCycle data samplesPerCycle;
      resample data nSamples
    else
      let maxCycles := 5 in
      stackedCycles ←
        stackLoop (Z.to_nat maxCycles) data samplesPerCycle zeroCrossings
          maxCycles 0 [];
      if len stackedCycles =? 0 then
        data ← firstCycle data samplesPerCycle;
        resample data nSamples
      else
        avgCycle ← make 0%float samplesPerCycle;
        avgCycle ← forRange 0 samplesPerCycle
          (fun i avgCycle =>
             sum ← forRange 0 (len stackedCycles)
               (fun j sum =>
                  cycle ← index stackedCycles j;
                  v ← index cycle i;
                  Ok (sum + v)%float)
               0%float;
             store avgCycle i (sum / float64_of_int (len stackedCycles))%float)
          avgCycle;
        resample avgCycle nSamples.

Record FIRConfig : Type := mkFIRConfig {
  FilePath : string;
  CoilName : string;
  SampleRate : float;
  BaseFrequency : float;
  Stabilization : float
}.

Record ProcessFIRResult : Type := mkProcessFIRResult {
  FIRCoefficients : list float;
  FilteredSignal : list float;
  StackedWaveform : list float;
  PerfectSquare : list float
}.

Section ProcessFIR.

(** The host, as far as [ProcessFIR] asks it: the directory
    [filepath.Join(filepath.Dir(path), "fir_results")] of a path, and
    whether [os.MkdirAll] can create a directory. *)
Variable resultsDir : string -> string.
Variable MkdirAll : string -> bool.

(** [ProcessFIR].  The calls of [progressCallback] are the first
    component of the outcome: the percentages reported, in order, up to the
    point where the function returned or stopped. *)
Definition ProcessFIR (fs : filesystem) (config : FIRConfig)
  : list Z * result ProcessFIRResult :=
  let samplesPerCycle :=
    int_of_float64 (SampleRate config / BaseFrequency config) in
  let samplesToRead := wrap64 (samplesPerCycle * 10) in
  match readPartialBinaryFile fs (FilePath config) samplesToRead with
  | Fail f => ([], Fail f)
  | Ok data =>
  let progress := [20] in
  let nSamples := 2048 in
  match stackAndResample data (SampleRate config) (BaseFrequency config)
          nSamples with
  | Fail f => (progress, Fail f)
  | Ok stackedCoil =>
  let progress := progress ++ [40] in
  match generatePerfectSquareWave stackedCoil with
  | Fail f => (progress, Fail f)
  | Ok perfectSquare =>
  let progress := progress ++ [60] in
  match regularizedLeastSquares stackedCoil perfectSquare
          (Stabilization config) with
  | Fail f => (progress, Fail f)
  | Ok firCoefficients =>
  let progress := progress ++ [80] in
  match applyFIRFilter stackedCoil firCoefficients with
  | Fail f => (progress, Fail f)
  | Ok filteredSignal =>
  let progress := progress ++ [100] in
  if MkdirAll (resultsDir (FilePath config)) then
    (progress,
     Ok (mkProcessFIRResult firCoefficients filteredSignal stackedCoil
           perfectSquare))
  else (progress, Fail (Error "error creating results directory"))
  end end end end end.

End ProcessFIR.

End fir.

(** ** Package [fft] (src/unnamed/part_001) *)

Module fft.
Import Go.

#[local] Set Warnings "-inexact-float".

Definition MinMagnitude : float := (-120)%float.

Record FFTResult : Type := mkFFTResult {
  Frequencies : list float;
  Magnitudes : list float;
  Harmonics : list (list float);
  SampleRate : float
}.

(** Modelled from the spec: the transform library's [FFT.Freq], which is
    not part of the repository.  For a transform of size [n] the relative
    frequency of coefficient [i] is i/n, computed as a step [1/n] times
    [i]; an index outside [0, n) panics. *)
Definition Freq (n i : Z) : result float :=
  if (i <? 0) || (n <=? i) then Fail (Error "fourier: index out of range")
  else
    let step := (1 / float64_of_int n)%float in
    Ok (step * float64_of_int i)%float.

Section ComputeFFT.

(** The numerical routines of Go's [math] and [math/cmplx] and of the
    transform library that the analysis calls: [math.Cos], [math.Log10],
    [cmplx.Abs], and coefficient [i] (for [0 <= i <= n/2]) of
    [FFT.Coefficients] on an input of the transform's size. *)
Variable Cos : float -> float.
Variable Log10 : float -> float.
Variable cmplxAbs : float * float -> float.
Variable Coefficients : list float -> Z -> float * float.

Definition fftSize : Z := 65536.

(** The first loop of [ComputeFFT]: the sum and the largest magnitude of
    the samples. *)
Definition meanAndMaxAbs (data : list float) : float * float :=
  fold_left
    (fun '(mean, maxAbs) v =>
       let mean := (mean + v)%float in
       let abs := PrimFloat.abs v in
       (mean, if gtb abs maxAbs then abs else maxAbs))
    data (0%float, 0%float).

(** The Blackman window at position [i]. *)
Definition blackman (i : Z) : float :=
  let a0 := 0.42%float in
  let a1 := 0.5%float in
  let a2 := 0.08%float in
  let t := (float64_of_int i / float64_of_int (fftSize - 1))%float in
  (a0 - a1 * Cos (0x1.921fb54442d18p+2 * t)
   + a2 * Cos (0x1.921fb54442d18p+3 * t))%float.

(** One turn of the loop over the bins up to [numFreqs]. *)
Definition binStep (sampleRate windowCorrection scale : float)
  (coeffs : Z -> float * float) (numFreqs i : Z)
  (fm : list float * list float) : result (list float * list float) :=
  let '(frequencies, magnitudes) := fm in
  f ← Freq fftSize i;
  frequencies ← store frequencies i (f * (sampleRate / 2))%float;
  let magnitude := cmplxAbs (coeffs i) in
  let magnitude :=
    (magnitude * (windowCorrection / float64_of_int fftSize))%float in
  let magnitude :=
    if (0 <? i) && (i <? numFreqs - 1) then (magnitude * 2)%float
    else magnitude in
  let power := (magnitude * scale)%float in
  magnitudes ←
    (if gtb power 0%float then store magnitudes i (20 * Log10 power)%float
     else store magnitudes i MinMagnitude);
  Ok (frequencies, magnitudes).

(** [ComputeFFT]. *)
Definition ComputeFFT (data : list float) (sampleRate : float)
  : result FFTResult :=
  if len data =? 0 then Fail (Error "empty input data")
  else
    let '(mean, maxAbs) := meanAndMaxAbs data in
    let mean := (mean / float64_of_int (len data))%float in
    let scale := maxAbs in
    input ← make 0%float fftSize;
    input ← forRange 0 (fir.min fftSize (len data))
      (fun i input =>
         d ← index data i;
         store input i (d - mean)%float)
      input;
    '(input, windowSum) ← forRange 0 (len input)
      (fun i '(input, windowSum) =>
         let window := blackman i in
         x ← index input i;
         input ← store input i (x * window)%float;
         Ok (input, (windowSum + window)%float))
      (input, 0%float);
    let coeffs := Coefficients input in
    let numFreqs := Z.quot fftSize 2 + 1 in
    frequencies ← make 0%float numFreqs;
    magnitudes ← make 0%float numFreqs;
    let windowCorrection := (float64_of_int fftSize / windowSum)%float in
    '(frequencies, magnitudes) ←
      forRange 0 numFreqs
        (binStep sampleRate windowCorrection scale coeffs numFreqs)
        (frequencies, magnitudes);
    Ok (mkFFTResult frequencies magnitudes [] sampleRate).

End ComputeFFT.

(** The order [sort.Slice] is given in [findPeaksWithFundamental]: larger
    magnitude first. *)
Definition peakBefore (p q : list float) : result bool :=
  a ← index p 1;
  b ← index q 1;
  Ok (gtb a b).

Fixpoint insertPeak (p : list float) (l : list (list float))
  : result (list (list float)) :=
  match l with
  | [] => Ok [p]
  | q :: l' =>
      before ← peakBefore p q;
      if (before : bool) then Ok (p :: l)
      else r ← insertPeak p l'; Ok (q :: r)
  end.

(** [sort.Slice] with [peakBefore].  Up to twelve peaks the library sorts
    by insertion, as below; beyond that it promises no order among peaks of
    equal magnitude, and the insertion below, which keeps them in the order
    they were found, gives one of the orders it may return. *)
Definition sortPeaks (l : list (list float)) : result (list (list float)) :=
  forEach l (fun p sorted => insertPeak p sorted) [].

(** [findPeaksWithFundamental]: the local maxima above the threshold
    within (500 Hz, 25000 Hz), the ten largest at most.  No function of
    the package calls it. *)
Definition findPeaksWithFundamental (frequencies magnitudes : list float)
  : result (list (list float)) :=
  let maxMag :=
    fold_left (fun maxMag mag => if gtb mag maxMag then mag else maxMag)
      magnitudes MinMagnitude in
  let threshold := (maxMag - 60)%float in
  peaks ← forRange 2 (len magnitudes - 2)
    (fun i peaks =>
       fi ← index frequencies i;
       if PrimFloat.ltb fi 50%float then Ok peaks
       else
         m ← index magnitudes i;
         m2 ← index magnitudes (i - 2);
         m1 ← index magnitudes (i - 1);
         p1 ← index magnitudes (i + 1);
         p2 ← index magnitudes (i + 2);
         if gtb m threshold && gtb m m2 && gtb m m1 && gtb m p1 && gtb m p2
         then
           freq ← index frequencies i;
           if gtb freq 500%float && PrimFloat.ltb freq 25000%float
           then Ok (peaks ++ [[freq; m]]) else Ok peaks
         else Ok peaks)
    [];
  peaks ← sortPeaks peaks;
  if 10 <? len peaks then slice peaks 0 10 else Ok peaks.

(** [bessel0]: twenty terms of the power series of the modified Bessel
    function of order zero.  No function of the package calls it. *)
Definition bessel0 (x : float) : float :=
  let '(sum, term) :=
    fold_left
      (fun '(sum, term) i =>
         let term :=
           (term * (x * x / (4 * float64_of_int i * float64_of_int i)))%float in
         ((sum + term)%float, term))
      (seqZ 1 20) (1%float, 1%float) in
  sum.

End fft.

(** ** Vocabulary of the statements *)

Module Spec.
Import Go timeseries.

(** [l[i]] for an index known to be in range. *)
Definition elem (l : list float) (i : Z) : float :=
  default 0%float (l !! Z.to_nat i).

(** A sort key of the binary64 numbers that are not NaN: the order of
    binary64 is the lexicographic order of the keys. *)
Definition sf_key (f : spec_float) : option (Z * Z * Z) :=
  match f with
  | S754_nan => None
  | S754_infinity true => Some (-2, 0, 0)
  | S754_infinity false => Some (2, 0, 0)
  | S754_zero _ => Some (0, 0, 0)
  | S754_finite true m e => Some (-1, - e, - Zpos m)
  | S754_finite false m e => Some (1, e, Zpos m)
  end.

Definition key_lt (a b : Z * Z * Z) : Prop :=
  a.1.1 < b.1.1
  \/ (a.1.1 = b.1.1 /\ (a.1.2 < b.1.2 \/ (a.1.2 = b.1.2 /\ a.2 < b.2))).

(** The numbers that are not finite: NaN and the two infinities. *)
Definition sf_nonfinite (f : spec_float) : Prop :=
  f = S754_nan \/ exists s, f = S754_infinity s.

(** What the scan of a bin has established when it reaches index [j]. *)
Definition scanInv (values : list float) (start j : Z) (st : binScan) : Prop :=
  start <= minIdx st < j /\ start <= maxIdx st < j
  /\ values !! Z.to_nat (minIdx st) = Some (minVal st)
  /\ values !! Z.to_nat (maxIdx st) = Some (maxVal st)
  /\ count st = j - start
  /\ forall k v, start <= k < j -> values !! Z.to_nat k = Some v ->
       PrimFloat.ltb v (minVal st) = false
       /\ PrimFloat.ltb (maxVal st) v = false.


(** The bins of a series of [length] points: bin [k] starts at
    [k * binSize] and ends before the next bin or at the end of the
    series. *)
Definition bins (length binSize : Z) : list (Z * Z) :=
  (fun k => (k * binSize, Z.min (k * binSize + binSize) length))
    <$> seqZ 0 ((length + binSize - 1) `div` binSize).

(** A matrix of [rows] rows of [cols] cells each. *)
Definition shaped (rows cols : Z) (m : list (list float)) : Prop :=
  len m = rows /\ Forall (fun r => len r = cols) m.

(** The cell [(i, j)] of a matrix, for indices known to be in range. *)
Definition cell (m : list (list float)) (i j : Z) : float :=
  elem (default [] (m !! Z.to_nat i)) j.

(** The relative frequency the transform library assigns to bin [i]. *)
Definition relFreq (i : Z) : float :=
  (1 / float64_of_int fft.fftSize * float64_of_int i)%float.

(** A recording of one hundred binary32 samples, each 1.0 (bytes
    00 00 80 3f), stored at the path "rec.bin". *)
Definition recording400 : list Byte.byte :=
  concat (replicate 100 [Byte.x00; Byte.x00; Byte.x80; Byte.x3f]).

Definition oneRecording : filesystem :=
  fun path => if String.eqb path "rec.bin" then Some recording400 else None.

(** Sample [k] of a recording: the binary32 number in the bytes
    [4k .. 4k+3], least significant byte first, widened to binary64. *)
Definition sampleAt (content : list Byte.byte) (k : Z) : float :=
  match Uint32 (drop (Z.to_nat (4 * k)) content) with
  | Ok bits => Float32frombits bits
  | Fail _ => 0%float
  end.

(** [l[i]] for a list of indices. *)
Definition elemZ (l : list Z) (i : Z) : Z := default 0 (l !! Z.to_nat i).

(** The cycle cut at the crossing of rank [2k]: [samplesPerCycle]
    consecutive samples from that crossing on. *)
Definition cycleAt (data : list float) (samplesPerCycle : Z)
  (crossings : list Z) (k : Z) : list float :=
  take (Z.to_nat samplesPerCycle)
    (drop (Z.to_nat (elemZ crossings (2 * k))) data).

(** Point [i] of the point-wise average of some cycles, summed in their
    order. *)
Definition average (cycles : list (list float)) (i : Z) : float :=
  (fold_left (fun sum c => (sum + elem c i)%float) cycles 0%float
   / float64_of_int (len cycles))%float.

(** The sum of a series, added up from 0 in the order of the series, and
    its mean. *)
Definition sumOf (l : list float) : float :=
  fold_left (fun sum v => (sum + v)%float) l 0%float.

Definition meanOf (l : list float) : float :=
  (sumOf l / float64_of_int (len l))%float.

(** The samples the files hold together, four bytes a sample. *)
Definition totalSamples (contents : list (list Byte.byte)) : Z :=
  foldr (fun content total => Z.quot (len content) 4 + total) 0 contents.

End Spec.

#[local] Set Warnings "-inexact-float".

(** * Properties *)

(** ** The runtime model *)

Section GoFacts.
Import Go.

Lemma bind_Ok {A B} (m : result A) (k : A -> result B) (b : B) :
  m ≫= k = Ok b <-> exists a, m = Ok a /\ k a = Ok b.
Proof.
  destruct m as [a|f]; simpl.
  - split; [eauto | intros (a' & [= <-] & H); exact H].
  - split; [discriminate | intros (a' & [=] & _)].
Qed.

Lemma len_nonneg {A} (l : list A) : 0 <= len l.
Proof. unfold len. lia. Qed.

Lemma index_Ok {A} (l : list A) (i : Z) (x : A) :
  index l i = Ok x <-> 0 <= i /\ l !! Z.to_nat i = Some x.
Proof.
  unfold index. destruct (Z.ltb_spec i 0).
  - split; [discriminate | lia].
  - destruct (l !! Z.to_nat i) eqn:E; split;
      first [ intros [= <-]; auto | intros [_ [= <-]]; auto
            | discriminate | intros [_ [=]] ].
Qed.

Lemma index_in_range {A} (l : list A) (i : Z) :
  0 <= i < len l -> exists x, index l i = Ok x /\ l !! Z.to_nat i = Some x.
Proof.
  intros Hi. destruct (lookup_lt_is_Some_2 l (Z.to_nat i)) as [x Hx].
  { unfold len in Hi. lia. }
  exists x. split; [apply index_Ok; split; [lia | exact Hx] | exact Hx].
Qed.

Lemma index_range {A} (l : list A) (i : Z) (x : A) :
  index l i = Ok x -> 0 <= i < len l.
Proof.
  intros [Hi Hx]%index_Ok. apply lookup_lt_Some in Hx. unfold len. lia.
Qed.

Lemma index_nil {A} (i : Z) : @index A [] i = Fail IndexOutOfRange.
Proof. unfold index. destruct (i <? 0); reflexivity. Qed.

Lemma store_Ok {A} (l : list A) (i : Z) (x : A) :
  0 <= i < len l -> store l i x = Ok (<[Z.to_nat i := x]> l).
Proof.
  intros Hi. unfold store.
  destruct (Z.ltb_spec i 0); [lia|]. destruct (Z.leb_spec (len l) i); [lia|].
  reflexivity.
Qed.

Lemma store_inv {A} (l l' : list A) (i : Z) (x : A) :
  store l i x = Ok l' -> 0 <= i < len l /\ l' = <[Z.to_nat i := x]> l.
Proof.
  unfold store.
  destruct (Z.ltb_spec i 0); [discriminate|].
  destruct (Z.leb_spec (len l) i); [discriminate|].
  intros [= <-]. split; [lia | reflexivity].
Qed.

Lemma len_insert {A} (l : list A) (i : nat) (x : A) :
  len (<[i := x]> l) = len l.
Proof. unfold len. rewrite length_insert. reflexivity. Qed.

Lemma make_Ok {A} (zero : A) (n : Z) :
  0 <= n -> make zero n = Ok (replicate (Z.to_nat n) zero).
Proof. intros Hn. unfold make. destruct (Z.ltb_spec n 0); [lia | reflexivity]. Qed.

Lemma len_replicate {A} (n : Z) (x : A) :
  0 <= n -> len (replicate (Z.to_nat n) x) = n.
Proof. intros Hn. unfold len. rewrite length_replicate. lia. Qed.

Lemma len_app {A} (l1 l2 : list A) : len (l1 ++ l2) = len l1 + len l2.
Proof. unfold len. rewrite length_app. lia. Qed.

(** The invariant rule of the counted loop: a property that holds on
    entry and that every turn within bounds re-establishes (while
    returning) holds on exit, and the loop returns. *)
Lemma forN_inv {St} (P : Z -> St -> Prop) (body : Z -> St -> result St) :
  forall (n : nat) (i : Z) (s : St),
    P i s ->
    (forall j t, i <= j < i + Z.of_nat n -> P j t ->
                 exists t', body j t = Ok t' /\ P (j + 1) t') ->
    exists s', forN n i body s = Ok s' /\ P (i + Z.of_nat n) s'.
Proof.
  induction n as [|n IH]; intros i s Hs Hbody; simpl.
  - exists s. split; [reflexivity|]. replace (i + Z.of_nat 0) with i by lia. exact Hs.
  - destruct (Hbody i s) as (t & Ht & HPt); [lia | exact Hs |].
    rewrite Ht. simpl.
    destruct (IH (i + 1) t HPt) as (s' & Hs' & HP').
    { intros j u Hj Hu. apply Hbody; [lia | exact Hu]. }
    exists s'. split; [exact Hs'|].
    replace (i + Z.of_nat (S n)) with (i + 1 + Z.of_nat n) by lia. exact HP'.
Qed.

Lemma forRange_inv {St} (P : Z -> St -> Prop) (body : Z -> St -> result St)
  (lo hi : Z) (s : St) :
  lo <= hi ->
  P lo s ->
  (forall j t, lo <= j < hi -> P j t ->
               exists t', body j t = Ok t' /\ P (j + 1) t') ->
  exists s', forRange lo hi body s = Ok s' /\ P hi s'.
Proof.
  intros Hle Hs Hbody. unfold forRange.
  destruct (forN_inv P body (Z.to_nat (hi - lo)) lo s Hs) as (s' & Hs' & HP).
  { intros j t Hj. apply Hbody. lia. }
  exists s'. split; [exact Hs'|].
  replace hi with (lo + Z.of_nat (Z.to_nat (hi - lo))) by lia. exact HP.
Qed.

Lemma forRange_empty {St} (body : Z -> St -> result St) (lo hi : Z) (s : St) :
  hi <= lo -> forRange lo hi body s = Ok s.
Proof.
  intros H. unfold forRange. replace (Z.to_nat (hi - lo)) with O by lia.
  reflexivity.
Qed.

Lemma forDown_inv {St} (P : Z -> St -> Prop) (body : Z -> St -> result St)
  (hi lo : Z) (s : St) :
  lo <= hi ->
  P hi s ->
  (forall j t, lo <= j < hi -> P (j + 1) t ->
               exists t', body j t = Ok t' /\ P j t') ->
  exists s', forDown hi lo body s = Ok s' /\ P lo s'.
Proof.
  intros Hle Hs Hbody. unfold forDown.
  assert (G : forall (n : nat) (i : Z) (t : St),
             lo <= i + 1 - Z.of_nat n -> i < hi -> P (i + 1) t ->
             exists s', forDownN n i body t = Ok s'
                        /\ P (i + 1 - Z.of_nat n) s').
  { induction n as [|n IH]; intros i t Hlo Hhi Ht; simpl.
    - exists t. split; [reflexivity|].
      replace (i + 1 - Z.of_nat 0) with (i + 1) by lia. exact Ht.
    - destruct (Hbody i t) as (u & Hu & HPu); [lia | exact Ht |].
      rewrite Hu. simpl.
      destruct (IH (i - 1) u) as (s' & Hs' & HP'); [lia | lia | |].
      { replace (i - 1 + 1) with i by lia. exact HPu. }
      exists s'. split; [exact Hs'|].
      replace (i + 1 - Z.of_nat (S n)) with (i - 1 + 1 - Z.of_nat n) by lia. exact HP'. }
  destruct (G (Z.to_nat (hi - lo)) (hi - 1) s) as (s' & Hs' & HP);
    [lia | lia | replace (hi - 1 + 1) with hi by lia; exact Hs |].
  exists s'. split; [exact Hs'|].
  replace lo with (hi - 1 + 1 - Z.of_nat (Z.to_nat (hi - lo))) by lia. exact HP.
Qed.

(** A loop whose turns keep a property of the state keeps it. *)
Lemma forRange_pres {St} (P : St -> Prop) (body : Z -> St -> result St)
  (lo hi : Z) (s : St) :
  P s ->
  (forall j t, lo <= j < hi -> P t -> exists t', body j t = Ok t' /\ P t') ->
  exists s', forRange lo hi body s = Ok s' /\ P s'.
Proof.
  intros Hs Hbody. destruct (Z.le_gt_cases lo hi) as [Hle|Hgt].
  - apply (forRange_inv (fun _ => P)); assumption.
  - exists s. split; [apply forRange_empty; lia | exact Hs].
Qed.

End GoFacts.

(** The first loop of a sequence, under an invariant of its state. *)
Tactic Notation "loop_pres" constr(P) "as" ident(s) ident(H) :=
  match goal with
  | |- context [mbind _ (Go.forRange ?lo ?hi ?body ?init)] =>
      destruct (forRange_pres P body lo hi init) as (s & -> & H);
      [ | | cbn [mbind Go.result_bind] ]
  end.

(** ** Order of binary64 *)

Section FloatOrder.
Import Spec.

Lemma SFltb_key (a b : spec_float) :
  SFltb a b = true <->
  exists ka kb, sf_key a = Some ka /\ sf_key b = Some kb /\ key_lt ka kb.
Proof.
  unfold SFltb, key_lt.
  destruct a as [[]|[]| |[] m1 e1], b as [[]|[]| |[] m2 e2]; simpl;
    try (split; [discriminate | intros (ka & kb & [=] & _)]; fail);
    try (split; [discriminate | intros (ka & kb & _ & [=] & _)]; fail);
    try (split; [discriminate | intros (ka & kb & [= <-] & [= <-] & H); simpl in H; lia]; fail);
    try (split; [intros _; eexists _, _; split; [reflexivity|]; split; [reflexivity|]; simpl; lia | reflexivity]; fail).
  - change (Pos.compare_cont Eq m1 m2) with (Pos.compare m1 m2).
    destruct (Z.compare_spec e1 e2) as [->|He|He];
      [destruct (Pos.compare_spec m1 m2) as [->|Hm|Hm]|..]; simpl;
      (split; [first [discriminate | intros _; eexists _, _;
               split; [reflexivity|]; split; [reflexivity|]; simpl; lia]
              | first [reflexivity |
                intros (ka & kb & [= <-] & [= <-] & H); simpl in H; lia]]).
  - change (Pos.compare_cont Eq m1 m2) with (Pos.compare m1 m2).
    destruct (Z.compare_spec e1 e2) as [->|He|He];
      [destruct (Pos.compare_spec m1 m2) as [->|Hm|Hm]|..]; simpl;
      (split; [first [discriminate | intros _; eexists _, _;
               split; [reflexivity|]; split; [reflexivity|]; simpl; lia]
              | first [reflexivity |
                intros (ka & kb & [= <-] & [= <-] & H); simpl in H; lia]]).
Qed.


Lemma ltb_irrefl (x : float) : PrimFloat.ltb x x = false.
Proof.
  destruct (PrimFloat.ltb x x) eqn:E; [|reflexivity].
  rewrite FloatAxioms.ltb_spec in E. apply SFltb_key in E as (ka & kb & Ha & Hb & Hlt).
  rewrite Ha in Hb. injection Hb as <-. unfold key_lt in Hlt. lia.
Qed.

Lemma ltb_trans (x y z : float) :
  PrimFloat.ltb x y = true -> PrimFloat.ltb y z = true ->
  PrimFloat.ltb x z = true.
Proof.
  rewrite !FloatAxioms.ltb_spec.
  intros (ka & kb & Ha & Hb & Hab)%SFltb_key (kb' & kc & Hb' & Hc & Hbc)%SFltb_key.
  rewrite Hb in Hb'. injection Hb' as <-.
  apply SFltb_key. exists ka, kc. repeat split; try assumption.
  unfold key_lt in *. lia.
Qed.





End FloatOrder.

(** ** Zeros, infinities and NaN *)

Section FloatClasses.
Import Spec.

Lemma SFcompare_refl (f : spec_float) :
  f <> S754_nan -> SFcompare f f = Some Eq.
Proof.
  destruct f as [[]|[]| |[] m e]; simpl; intros H;
    try reflexivity; try congruence;
    rewrite Z.compare_refl;
    change (Pos.compare_cont Eq m m) with (Pos.compare m m);
    rewrite Pos.compare_refl; reflexivity.
Qed.

Lemma is_finite_false (x : float) :
  PrimFloat.is_finite x = false <-> sf_nonfinite (Prim2SF x).
Proof.
  unfold PrimFloat.is_finite, PrimFloat.is_nan, PrimFloat.is_infinity,
    sf_nonfinite.
  rewrite !FloatAxioms.eqb_spec, FloatAxioms.abs_spec.
  change (Prim2SF infinity) with (S754_infinity false).
  unfold SFeqb.
  destruct (Prim2SF x) as [s|s| |s m e] eqn:E.
  - simpl. split; [discriminate | intros [H|[s' H]]; discriminate].
  - simpl. split; [eauto | destruct s; reflexivity].
  - simpl. split; [eauto | reflexivity].
  - rewrite SFcompare_refl by discriminate. simpl.
    split; [discriminate | intros [H|[s' H]]; discriminate].
Qed.

Lemma is_zero_true (x : float) :
  PrimFloat.is_zero x = true -> exists s, Prim2SF x = S754_zero s.
Proof.
  unfold PrimFloat.is_zero. rewrite FloatAxioms.eqb_spec.
  change (Prim2SF zero) with (S754_zero false). unfold SFeqb.
  destruct (Prim2SF x) as [s|[]| |[] m e]; simpl; intros H;
    first [discriminate | eauto].
Qed.

(** Whatever is divided by a zero is an infinity or NaN. *)
Lemma div_zero_not_finite (x p : float) :
  PrimFloat.is_zero p = true -> PrimFloat.is_finite (x / p) = false.
Proof.
  intros [s Hp]%is_zero_true. apply is_finite_false.
  rewrite FloatAxioms.div_spec, Hp. unfold sf_nonfinite, SF64div.
  destruct (Prim2SF x) as [sx|sx| |sx m e]; simpl; eauto.
Qed.

(** What is not finite stays so when something is subtracted from it. *)
Lemma sub_not_finite (x y : float) :
  PrimFloat.is_finite x = false -> PrimFloat.is_finite (x - y) = false.
Proof.
  rewrite !is_finite_false, FloatAxioms.sub_spec. unfold sf_nonfinite, SF64sub.
  intros [->|[s ->]]; [left; reflexivity|].
  destruct (Prim2SF y) as [sy|sy| |sy m e]; simpl; eauto.
  destruct s, sy; eauto.
Qed.

End FloatClasses.

(** ** [timeseries]: the extrema-preserving downsampling *)

Section Downsample.
Import Go timeseries Spec.

Lemma insertInt_perm (x : Z) (l : list Z) : insertInt x l ≡ₚ x :: l.
Proof.
  induction l as [|y l IH]; simpl; [reflexivity|].
  destruct (x <=? y); [reflexivity|].
  rewrite IH. apply Permutation_swap.
Qed.

Lemma sortInts_perm (l : list Z) : sortInts l ≡ₚ l.
Proof.
  induction l as [|x l IH]; simpl; [reflexivity|].
  unfold sortInts in *. simpl. rewrite insertInt_perm, IH. reflexivity.
Qed.

Lemma scanStep_inv (values : list float) (start j : Z) (st : binScan) :
  0 <= start -> start < j < len values ->
  scanInv values start j st ->
  exists st', scanStep values j st = Ok st' /\ scanInv values start (j + 1) st'.
Proof.
  intros Hs Hj (Hmin & Hmax & Hvmin & Hvmax & Hcount & Hall).
  unfold scanStep.
  destruct (index_in_range values j) as (val & Hidx & Hval); [lia|].
  rewrite Hidx. simpl.
  assert (Hself : PrimFloat.ltb val val = false) by apply ltb_irrefl.
  destruct (PrimFloat.ltb val (minVal st)) eqn:Elt;
    unfold gtb; destruct (PrimFloat.ltb (maxVal st) val) eqn:Egt;
    eexists; (split; [reflexivity|]); unfold scanInv; simpl;
    (split_and!; try lia; try assumption);
    intros k v Hk Hv; split;
    (destruct (Z.eq_dec k j) as [->|Hne];
     [ rewrite Hval in Hv; injection Hv as <-
     | destruct (Hall k v) as [H1 H2]; [lia | assumption |] ]);
    try assumption;
    try (destruct (PrimFloat.ltb v val) eqn:E; [|reflexivity];
         rewrite <- H1; symmetry; eapply ltb_trans; eassumption);
    try (destruct (PrimFloat.ltb val v) eqn:E; [|reflexivity];
         rewrite <- H2; symmetry; eapply ltb_trans; eassumption).
Qed.

Lemma scanBin_inv (values : list float) (start end_ : Z) :
  0 <= start < end_ -> end_ <= len values ->
  exists st, scanBin values start end_ = Ok st
             /\ scanInv values start end_ st.
Proof.
  intros Hse Hend. unfold scanBin.
  destruct (index_in_range values start) as (v0 & Hidx & Hv0); [lia|].
  rewrite Hidx. simpl.
  apply (forRange_inv (scanInv values start)); [lia | |].
  - unfold scanInv. simpl. split_and!; try lia; try assumption.
    intros k v Hk Hkv. assert (k = start) as -> by lia.
    rewrite Hv0 in Hkv. injection Hkv as <-. split; apply ltb_irrefl.
  - intros j t Hj Ht. apply scanStep_inv; [lia | lia | exact Ht].
Qed.

Lemma binIndices_members (start : Z) (st : binScan) (avg : float) :
  Forall (fun i => i = start \/ i = minIdx st \/ i = maxIdx st)
    (binIndices start st avg)
  /\ (length (binIndices start st avg) <= 3)%nat.
Proof.
  unfold binIndices. cbv zeta.
  repeat match goal with
         | |- context [if ?c then _ else _] => destruct c
         end;
    simpl;
    (split; [repeat (constructor; [tauto|]); constructor | lia]).
Qed.

Lemma forEach_emit (times values : list float) (indices : list Z) :
  forall outT outV,
    Forall (fun i => 0 <= i < len times /\ i < len values) indices ->
    forEach indices
      (fun idx '(outT, outV) =>
         t ← index times idx;
         v ← index values idx;
         Ok (outT ++ [t], outV ++ [v]))
      (outT, outV)
    = Ok (outT ++ (elem times <$> indices), outV ++ (elem values <$> indices)).
Proof.
  induction indices as [|i l IH]; intros outT outV Hall; simpl.
  - rewrite !app_nil_r. reflexivity.
  - apply Forall_cons in Hall as [[Hi1 Hi2] Hall].
    destruct (index_in_range times i) as (t & Ht & Ht'); [lia|].
    destruct (index_in_range values i) as (v & Hv & Hv'); [lia|].
    rewrite Ht. simpl. rewrite Hv. simpl.
    rewrite IH by exact Hall.
    unfold elem. rewrite Ht', Hv'. simpl.
    rewrite <- !app_assoc. reflexivity.
Qed.

(** A bin within the series is processed without a panic; it emits the
    input points at its kept indices, in ascending order, and then at most
    the one synthetic average point. *)
Lemma processBin_shape (times values : list float) (start end_ : Z) :
  0 <= start < end_ -> end_ <= len values -> end_ <= len times ->
  exists st, scanBin values start end_ = Ok st
    /\ scanInv values start end_ st
    /\ let avg := (sum st / float64_of_int (count st))%float in
       let kept := sortInts (binIndices start st avg) in
       exists tailT tailV,
         processBin times values start end_
         = Ok ((elem times <$> kept) ++ tailT, (elem values <$> kept) ++ tailV)
         /\ (length tailT <= 1)%nat /\ length tailV = length tailT
         /\ (kept = [] -> tailT = []).
Proof.
  intros Hse Hv Ht.
  destruct (scanBin_inv values start end_ Hse Hv) as (st & Hscan & Hinv).
  exists st. split; [exact Hscan|]. split; [exact Hinv|].
  intros avg kept. unfold processBin. rewrite Hscan. simpl.
  destruct (index_in_range times start) as (t0 & Ht0 & _); [lia|].
  destruct (index_in_range times (end_ - 1)) as (t1 & Ht1 & _); [lia|].
  rewrite Ht0. simpl. rewrite Ht1. simpl.
  fold avg. fold kept.
  assert (Hkept : Forall (fun i => 0 <= i < len times /\ i < len values) kept).
  { unfold kept. rewrite sortInts_perm.
    destruct (binIndices_members start st avg) as [Hm _].
    destruct Hinv as (Hmin & Hmax & _).
    eapply Forall_impl; [exact Hm|]. simpl. intros i Hi. lia. }
  rewrite (forEach_emit times values kept [] [] Hkept). simpl.
  destruct (Z.ltb_spec 0 (len kept)) as [Hpos|Hzero].
  - destruct (index_in_range kept (len kept - 1)) as (i & Hi & Hi'); [lia|].
    rewrite Hi. simpl.
    assert (Hirange : 0 <= i < len times).
    { rewrite Forall_forall in Hkept. apply Hkept.
      eapply list_elem_of_lookup_2. exact Hi'. }
    destruct (index_in_range times i) as (tl & Htl & _); [exact Hirange|].
    rewrite Htl. simpl.
    destruct (gtb _ tl).
    + exists [((t0 + t1) / 2)%float], [avg]. repeat split; simpl; try lia.
      intros ->. unfold len in Hpos. simpl in Hpos. lia.
    + exists [], []. rewrite !app_nil_r. repeat split; simpl; lia.
  - exists [], []. rewrite !app_nil_r. repeat split; simpl; lia.
Qed.

End Downsample.

Section DownsampleClaims.
Import Go timeseries Spec.

Lemma bin_count_spec (length binSize k : Z) :
  0 < binSize -> 0 <= k ->
  (k * binSize < length <-> k < (length + binSize - 1) `div` binSize).
Proof.
  intros Hb Hk. split; intros H.
  - assert (k + 1 <= (length + binSize - 1) `div` binSize); [|lia].
    apply Z.div_le_lower_bound; [lia | nia].
  - destruct (Z.lt_ge_cases (k * binSize) length) as [|Hge]; [assumption|].
    assert ((length + binSize - 1) `div` binSize < k + 1); [|lia].
    apply Z.div_lt_upper_bound; [lia | nia].
Qed.

Lemma processBin_bound (times values : list float) (start end_ : Z) :
  0 <= start < end_ -> end_ <= len values -> end_ <= len times ->
  exists c, processBin times values start end_ = Ok c
            /\ (length c.1 <= 4)%nat /\ length c.2 = length c.1.
Proof.
  intros Hse Hv Ht.
  destruct (processBin_shape times values start end_ Hse Hv Ht)
    as (st & _ & _ & tailT & tailV & Hp & HlT & HlV & _).
  eexists. split; [exact Hp|]. simpl.
  rewrite !length_app, !length_fmap, HlV.
  pose proof (Permutation_length (sortInts_perm
    (binIndices start st (sum st / float64_of_int (count st))%float))) as Hlen.
  destruct (binIndices_members start st
    (sum st / float64_of_int (count st))%float) as [_ H3].
  lia.
Qed.

(** The loop over the bins appends, bin after bin, what [processBin]
    returns for it, and does not run out of turns. *)
Lemma binLoop_bins (times values : list float) (binSize : Z) :
  0 < binSize -> len times <= len values ->
  forall (fuel : nat) (k : Z) (out : list float * list float),
    0 <= k ->
    (len times + binSize - 1) `div` binSize - k <= Z.of_nat fuel ->
    exists contribs,
      Forall2
        (fun b c => processBin times values b.1 b.2 = Ok c
                    /\ (length c.1 <= 4)%nat /\ length c.2 = length c.1)
        ((fun j => (j * binSize, Z.min (j * binSize + binSize) (len times)))
           <$> seqZ k ((len times + binSize - 1) `div` binSize - k))
        contribs
      /\ binLoop fuel times values binSize (len times) (k * binSize) out
         = Ok (out.1 ++ concat (fst <$> contribs),
               out.2 ++ concat (snd <$> contribs)).
Proof.
  intros Hb Hlen. set (nb := (len times + binSize - 1) `div` binSize).
  induction fuel as [|fuel IH]; intros k out Hk Hfuel.
  - exists []. rewrite seqZ_nil by lia. split; [constructor|].
    assert (~ k * binSize < len times) as Hge.
    { rewrite bin_count_spec by lia. fold nb. lia. }
    simpl. destruct (Z.ltb_spec (k * binSize) (len times)); [lia|].
    simpl. rewrite !app_nil_r. destruct out; reflexivity.
  - destruct (Z.lt_ge_cases k nb) as [Hlt|Hge].
    + assert (k * binSize < len times) as Hstart.
      { rewrite bin_count_spec by lia. exact Hlt. }
      rewrite seqZ_cons by lia. simpl.
      destruct (Z.ltb_spec (k * binSize) (len times)); [|lia].
      set (end_ := Z.min (k * binSize + binSize) (len times)).
      replace (if len times <? k * binSize + binSize then len times
               else k * binSize + binSize) with end_.
      2:{ unfold end_. destruct (Z.ltb_spec (len times) (k * binSize + binSize)); lia. }
      destruct (Z.eqb_spec (k * binSize) end_) as [Heq|_]; [unfold end_ in Heq; lia|].
      destruct (processBin_bound times values (k * binSize) end_)
        as (c & Hc & Hc4 & Hc2); [unfold end_; nia | unfold end_; lia
                                  | unfold end_; lia |].
      rewrite Hc. simpl.
      destruct (IH (k + 1) (out.1 ++ c.1, out.2 ++ c.2)) as (cs & Hcs & Hloop);
        [lia | lia |].
      replace ((k + 1) * binSize) with (k * binSize + binSize) in Hloop by lia.
      exists (c :: cs). split.
      * constructor; [simpl; auto|].
        replace (Z.succ k) with (k + 1) by lia.
        replace (Z.pred (nb - k)) with (nb - (k + 1)) by lia. exact Hcs.
      * rewrite Hloop. simpl. rewrite <- !app_assoc. reflexivity.
    + exists []. rewrite seqZ_nil by lia. split; [constructor|].
      assert (~ k * binSize < len times) as Hnlt.
      { rewrite bin_count_spec by lia. fold nb. lia. }
      simpl. destruct (Z.ltb_spec (k * binSize) (len times)); [lia|].
      simpl. rewrite !app_nil_r. destruct out; reflexivity.
Qed.

(** C2, as the code has it: the series comes back unchanged exactly under
    the guard of [dynamicDownsample], that is when it has at most two
    points or when [binSize] is at most 1. *)
Theorem downsample_unchanged_under_guard
  (times values : list float) (binSize : Z) :
  len times <= 2 \/ binSize <= 1 ->
  dynamicDownsample times values binSize = Ok (times, values).
Proof.
  intros H. unfold dynamicDownsample.
  destruct (Z.leb_spec (len times) 2), (Z.leb_spec binSize 1);
    simpl; first [reflexivity | lia].
Qed.

(** [downsample_unchanged_under_guard] at a concrete input. *)
Lemma downsample_unchanged_under_guard_witness :
  (len [0; 1]%float <= 2 \/ 5 <= 1)
  /\ dynamicDownsample [0; 1]%float [3; 4]%float 5
     = Ok ([0; 1]%float, [3; 4]%float).
Proof.
  assert (H : len [0; 1]%float <= 2 \/ 5 <= 1) by (left; vm_compute; discriminate).
  split; [exact H|].
  exact (downsample_unchanged_under_guard [0; 1]%float [3; 4]%float 5 H).
Defined.

(** C2 fails as stated: the five points of the spec's own Example 3 with
    [binSize = 5 >= len] come back as two points. *)
Lemma downsample_whole_series_bin_changes :
  let times := [0; 1; 2; 3; 4]%float in
  let values := [1; 5; 1; 1; 1]%float in
  len times <= 5
  /\ dynamicDownsample times values 5 = Ok ([1; 2]%float, [5; 1.8]%float)
  /\ dynamicDownsample times values 5 <> Ok (times, values).
Proof.
  cbv zeta. split; [vm_compute; discriminate|].
  split; [vm_compute; reflexivity|].
  vm_compute. discriminate.
Qed.

(** C3, as the code has it: for a series of more than two points and
    [binSize > 1] the output is, bin after bin, what each bin contributes,
    and a bin contributes at most four points (as many values as times);
    it may contribute none. *)
Theorem downsample_bin_contributions
  (times values : list float) (binSize : Z) :
  len times = len values -> 2 < len times -> 1 < binSize ->
  exists contribs : list (list float * list float),
    Forall2
      (fun b c => processBin times values b.1 b.2 = Ok c
                  /\ (length c.1 <= 4)%nat /\ length c.2 = length c.1)
      (bins (len times) binSize) contribs
    /\ dynamicDownsample times values binSize
       = Ok (concat (fst <$> contribs), concat (snd <$> contribs)).
Proof.
  intros Hlen H2 Hb. unfold dynamicDownsample.
  destruct (Z.leb_spec (len times) 2); [lia|].
  destruct (Z.leb_spec binSize 1); [lia|]. simpl.
  destruct (binLoop_bins times values binSize ltac:(lia) ltac:(lia)
              (Z.to_nat (len times)) 0 ([], [])) as (cs & Hcs & Hloop).
  - lia.
  - assert ((len times + binSize - 1) `div` binSize <= len times); [|lia].
    apply Z.lt_succ_r. apply Z.div_lt_upper_bound; nia.
  - exists cs. split.
    + unfold bins. rewrite Z.sub_0_r in Hcs. exact Hcs.
    + exact Hloop.
Qed.

(** [downsample_bin_contributions] at a concrete input. *)
Lemma downsample_bin_contributions_witness :
  let times := [0; 1; 2; 3; 4; 5; 6; 7]%float in
  let values := [3; 1; 5; 3; 3; 3; 3; 3.5]%float in
  exists contribs : list (list float * list float),
    Forall2
      (fun b c => processBin times values b.1 b.2 = Ok c
                  /\ (length c.1 <= 4)%nat /\ length c.2 = length c.1)
      (bins (len times) 4) contribs
    /\ dynamicDownsample times values 4
       = Ok (concat (fst <$> contribs), concat (snd <$> contribs)).
Proof.
  cbv zeta.
  apply (downsample_bin_contributions
           [0; 1; 2; 3; 4; 5; 6; 7]%float [3; 1; 5; 3; 3; 3; 3; 3.5]%float 4).
  - reflexivity.
  - vm_compute. reflexivity.
  - lia.
Defined.

(** C3 fails as stated at its lower bound: a flat series of three points
    with [binSize = 3] is one non-empty bin, and that bin contributes no
    point at all. *)
Lemma downsample_flat_bin_contributes_nothing :
  let times := [0; 1; 2]%float in
  let values := [1; 1; 1]%float in
  2 < len times
  /\ bins (len times) 3 = [(0, 3)]
  /\ processBin times values 0 3 = Ok ([], [])
  /\ dynamicDownsample times values 3 = Ok ([], []).
Proof.
  cbv zeta. split; [vm_compute; reflexivity|].
  repeat split; vm_compute; reflexivity.
Qed.

End DownsampleClaims.

(** ** Loops that fill a slice or fold a sum *)

Section LoopFacts.
Import Go Spec.

Lemma seqZ_snoc (lo n : Z) : 0 <= n -> seqZ lo (n + 1) = seqZ lo n ++ [lo + n].
Proof.
  intros Hn. rewrite (seqZ_app lo n 1) by lia.
  rewrite (seqZ_cons (lo + n) 1) by lia. rewrite (seqZ_nil _ (Z.pred 1)) by lia. reflexivity.
Qed.

Lemma elem_lookup {l : list float} {i : Z} {x : float} :
  l !! Z.to_nat i = Some x -> elem l i = x.
Proof. intros H. unfold elem. rewrite H. reflexivity. Qed.

Lemma elem_tabulate (h : Z -> float) (n i : Z) :
  0 <= i < n -> elem (h <$> seqZ 0 n) i = h i.
Proof.
  intros Hi. apply elem_lookup. rewrite list_lookup_fmap.
  rewrite lookup_seqZ_lt by lia.
  replace (0 + Z.of_nat (Z.to_nat i)) with i by lia. reflexivity.
Qed.

Lemma len_tabulate {A} (h : Z -> A) (n : Z) : 0 <= n -> len (h <$> seqZ 0 n) = n.
Proof. intros Hn. unfold len. rewrite length_fmap, length_seqZ. lia. Qed.

(** A loop whose turn [i] stores [h i] into cell [i] of a slice of [n]
    cells leaves the slice holding [h 0 .. h (n-1)]. *)
Lemma forRange_tabulate {A} (n : Z) (body : Z -> list A -> result (list A))
  (h : Z -> A) (r0 : list A) :
  len r0 = n ->
  (forall i r, 0 <= i < n -> len r = n ->
               body i r = Ok (<[Z.to_nat i := h i]> r)) ->
  forRange 0 n body r0 = Ok (h <$> seqZ 0 n).
Proof.
  intros Hlen Hbody.
  assert (Hn : 0 <= n) by (rewrite <- Hlen; apply len_nonneg).
  destruct (forRange_inv
    (fun j r => r = (h <$> seqZ 0 j) ++ drop (Z.to_nat j) r0)
    body 0 n r0 Hn) as (r & Hr & Hfinal).
  - cbv beta. rewrite seqZ_nil by lia. reflexivity.
  - intros j t Hj ->.
    assert (Hpre : length (h <$> seqZ 0 j) = Z.to_nat j).
    { rewrite length_fmap, length_seqZ. reflexivity. }
    destruct (lookup_lt_is_Some_2 r0 (Z.to_nat j)) as [x Hx].
    { unfold len in Hlen. lia. }
    eexists. split.
    + apply Hbody; [lia|]. unfold len. rewrite length_app, Hpre, length_drop.
      unfold len in Hlen. lia.
    + rewrite insert_app_r_alt by lia. rewrite Hpre, Nat.sub_diag.
      rewrite (drop_S _ _ _ Hx). simpl.
      rewrite seqZ_snoc by lia. rewrite fmap_app. simpl.
      rewrite <- app_assoc. simpl.
      replace (Z.to_nat (j + 1)) with (S (Z.to_nat j)) by lia. reflexivity.
  - rewrite Hr. f_equal. rewrite Hfinal.
    rewrite drop_ge by (unfold len in Hlen; lia). apply app_nil_r.
Qed.

(** A loop whose turn [i] replaces the state [acc] by [f acc i] folds [f]
    over the indices. *)
Lemma forN_fold {St} (body : Z -> St -> result St) (f : St -> Z -> St) :
  forall (n : nat) (lo : Z) (s : St),
    (forall i acc, lo <= i < lo + Z.of_nat n -> body i acc = Ok (f acc i)) ->
    forN n lo body s = Ok (fold_left f (seqZ lo (Z.of_nat n)) s).
Proof.
  induction n as [|n IH]; intros lo s Hbody.
  - reflexivity.
  - rewrite seqZ_cons by lia.
    replace (Z.succ lo) with (lo + 1) by lia.
    replace (Z.pred (Z.of_nat (S n))) with (Z.of_nat n) by lia.
    cbn [forN fold_left]. rewrite Hbody by lia. simpl.
    apply IH. intros. apply Hbody. lia.
Qed.

Lemma forRange_fold {St} (body : Z -> St -> result St) (f : St -> Z -> St)
  (lo hi : Z) (s : St) :
  lo <= hi ->
  (forall i acc, lo <= i < hi -> body i acc = Ok (f acc i)) ->
  forRange lo hi body s = Ok (fold_left f (seqZ lo (hi - lo)) s).
Proof.
  intros Hle Hbody. unfold forRange.
  rewrite (forN_fold body f) by (intros; apply Hbody; lia).
  rewrite Z2Nat.id by lia. reflexivity.
Qed.

Lemma fold_left_ext_in {A B} (f g : A -> B -> A) (l : list B) :
  (forall a b, b ∈ l -> f a b = g a b) ->
  forall s, fold_left f l s = fold_left g l s.
Proof.
  induction l as [|b l IH]; intros Hfg s; simpl; [reflexivity|].
  rewrite Hfg by constructor. apply IH. intros a b' Hb'. apply Hfg.
  constructor. exact Hb'.
Qed.

End LoopFacts.

(** ** [fir]: the circular filter *)

Section CircularFilter.
Import Go fir Spec.

Lemma roll_spec (data : list float) (shift : Z) :
  0 <= shift -> shift < len data \/ shift + len data <= 2 ^ 63 ->
  roll data shift
  = Ok ((fun i => elem data ((i + shift) `mod` len data))
          <$> seqZ 0 (len data)).
Proof.
  intros Hs Hfit. unfold roll.
  pose proof (len_nonneg data) as Hn.
  rewrite make_Ok by lia. simpl.
  apply forRange_tabulate; [apply len_replicate; lia|].
  intros i r Hi Hr.
  replace (if shift <? len data then i + shift else Go.wrap64 (i + shift))
    with (i + shift).
  2:{ destruct (Z.ltb_spec shift (len data)); [reflexivity|].
      unfold Go.wrap64. rewrite Z.mod_small by lia. lia. }
  rewrite Z.rem_mod_nonneg by lia.
  destruct (index_in_range data ((i + shift) `mod` len data)) as (v & Hv & Hv').
  { apply Z.mod_pos_bound. lia. }
  rewrite Hv. simpl. rewrite store_Ok by lia.
  rewrite (elem_lookup Hv'). reflexivity.
Qed.

Lemma dotProduct_spec (a b : list float) :
  len a <= len b ->
  dotProduct a b
  = Ok (fold_left (fun sum j => (sum + elem a j * elem b j)%float)
          (seqZ 0 (len a)) 0%float).
Proof.
  intros Hab. unfold dotProduct.
  pose proof (len_nonneg a) as Hn.
  rewrite (forRange_fold _ (fun sum j => (sum + elem a j * elem b j)%float))
    by first [ lia
             | intros i acc Hi;
               destruct (index_in_range a i) as (ai & -> & Ha); [lia|];
               destruct (index_in_range b i) as (bi & -> & Hb); [lia|];
               simpl; rewrite (elem_lookup Ha), (elem_lookup Hb); reflexivity ].
  rewrite Z.sub_0_r. reflexivity.
Qed.

(** C6: for equal lengths N >= 1, [applyFIRFilter] returns N values, and
    the value at [i] is the sum over j = 0 .. N-1, accumulated in this order
    from 0, of [coeffs[j] * signal[(j+i) mod N]]. *)
Theorem applyFIRFilter_circular (signal coeffs : list float) :
  len signal = len coeffs -> 1 <= len signal ->
  exists out,
    applyFIRFilter signal coeffs = Ok out
    /\ len out = len signal
    /\ forall i, 0 <= i < len signal ->
         elem out i
         = fold_left
             (fun sum j =>
                (sum + elem coeffs j * elem signal ((j + i) `mod` len signal))%float)
             (seqZ 0 (len signal)) 0%float.
Proof.
  intros Hlen HN. set (N := len signal) in *.
  set (h := fun i : Z =>
    fold_left
      (fun sum j => (sum + elem coeffs j * elem signal ((j + i) `mod` N))%float)
      (seqZ 0 N) 0%float).
  exists (h <$> seqZ 0 N). split_and!.
  - unfold applyFIRFilter. fold N. rewrite make_Ok by lia. simpl.
    apply forRange_tabulate; [apply len_replicate; lia|].
    intros i r Hi Hr. rewrite roll_spec by lia. fold N. simpl.
    rewrite dotProduct_spec by (rewrite len_tabulate; lia).
    simpl. rewrite store_Ok by lia. do 2 f_equal.
    unfold h. rewrite <- Hlen. apply fold_left_ext_in.
    intros acc j Hj. apply list_elem_of_lookup in Hj as [k Hk].
    apply lookup_seqZ in Hk as [-> Hk].
    rewrite elem_tabulate by lia. reflexivity.
  - apply len_tabulate. lia.
  - intros i Hi. apply elem_tabulate. exact Hi.
Qed.

(** [applyFIRFilter_circular] at a concrete input. *)
Lemma applyFIRFilter_circular_witness :
  let signal := [1; 2; 3]%float in
  let coeffs := [0; 1; 0]%float in
  exists out,
    applyFIRFilter signal coeffs = Ok out
    /\ len out = len signal
    /\ forall i, 0 <= i < len signal ->
         elem out i
         = fold_left
             (fun sum j =>
                (sum + elem coeffs j * elem signal ((j + i) `mod` len signal))%float)
             (seqZ 0 (len signal)) 0%float.
Proof.
  cbv zeta. apply (applyFIRFilter_circular [1; 2; 3]%float [0; 1; 0]%float).
  - reflexivity.
  - vm_compute. discriminate.
Defined.

End CircularFilter.

(** ** [fir]: the reference square wave *)

Section SquareWave.
Import Go fir Spec.

(** A loop that stores one value into the cells [lo, hi). *)
Lemma forRange_fill {A} (x : A) (lo hi : Z) (r : list A) :
  0 <= lo <= hi -> hi <= len r ->
  forRange lo hi (fun i r => store r i x) r
  = Ok (take (Z.to_nat lo) r ++ replicate (Z.to_nat (hi - lo)) x
        ++ drop (Z.to_nat hi) r).
Proof.
  intros Hlo Hhi. unfold len in Hhi.
  destruct (forRange_inv
    (fun j t => t = take (Z.to_nat lo) r ++ replicate (Z.to_nat (j - lo)) x
                    ++ drop (Z.to_nat j) r)
    (fun i r => store r i x) lo hi r ltac:(lia)) as (t & Ht & Hfinal).
  - cbv beta. rewrite Z.sub_diag. simpl. rewrite take_drop. reflexivity.
  - intros j t Hj ->.
    assert (Hl1 : length (take (Z.to_nat lo) r) = Z.to_nat lo)
      by (rewrite length_take; lia).
    destruct (lookup_lt_is_Some_2 r (Z.to_nat j)) as [y Hy]; [lia|].
    eexists. split.
    + apply store_Ok. unfold len.
      rewrite !length_app, Hl1, length_replicate, length_drop. lia.
    + rewrite insert_app_r_alt by lia. rewrite Hl1.
      rewrite insert_app_r_alt by (rewrite length_replicate; lia).
      rewrite length_replicate.
      replace (Z.to_nat j - Z.to_nat lo - Z.to_nat (j - lo))%nat with O by lia.
      rewrite (drop_S _ _ _ Hy). simpl.
      replace (Z.to_nat (j + 1 - lo)) with (S (Z.to_nat (j - lo))) by lia.
      replace (Z.to_nat (j + 1)) with (S (Z.to_nat j)) by lia.
      rewrite replicate_S_end, <- !app_assoc. reflexivity.
  - rewrite Ht, Hfinal. reflexivity.
Qed.

Lemma partition_high_empty (mean : float) (signal : list float) :
  Forall (fun v => gtb v mean = false) signal ->
  forall hv hc lv lc, exists lv' lc',
    fold_left (fun acc v => partitionStep mean v acc) signal (hv, hc, lv, lc)
    = (hv, hc, lv', lc').
Proof.
  induction 1 as [|v l Hv _ IH]; intros hv hc lv lc; simpl; [eauto|].
  rewrite Hv. apply IH.
Qed.

Lemma partition_low_empty (mean : float) (signal : list float) :
  Forall (fun v => gtb v mean = true) signal ->
  forall hv hc lv lc, exists hv' hc',
    fold_left (fun acc v => partitionStep mean v acc) signal (hv, hc, lv, lc)
    = (hv', hc', lv, lc).
Proof.
  induction 1 as [|v l Hv _ IH]; intros hv hc lv lc; simpl; [eauto|].
  rewrite Hv. apply IH.
Qed.

(** [generatePerfectSquareWave] never stops: it returns the first
    [n/2] cells at one level and the others at the other level. *)
Lemma generatePerfectSquareWave_levels (signal : list float) :
  let n := len signal in
  let mean := calculateMean signal in
  let '(hv, hc, lv, lc) := partitionLevels signal mean in
  let high := (hv / float64_of_int hc)%float in
  let low := (lv / float64_of_int lc)%float in
  exists first second,
    generatePerfectSquareWave signal
    = Ok (replicate (Z.to_nat (Z.quot n 2)) first
          ++ replicate (Z.to_nat (n - Z.quot n 2)) second)
    /\ ((first = high /\ second = low) \/ (first = low /\ second = high)).
Proof.
  intros n mean.
  destruct (partitionLevels signal mean) as [[[hv hc] lv] lc] eqn:Hpart.
  intros high low.
  pose proof (len_nonneg signal) as Hn. fold n in Hn.
  assert (Hhalf : 0 <= Z.quot n 2 <= n).
  { rewrite Z.quot_div_nonneg by lia. split; [apply Z.div_pos; lia|].
    apply Z.div_le_upper_bound; lia. }
  assert (Hfill : forall a b,
    (r ← forRange 0 (Z.quot n 2) (fun i r => store r i a)
           (replicate (Z.to_nat n) 0%float);
     forRange (Z.quot n 2) n (fun i r => store r i b) r)
    = Ok (replicate (Z.to_nat (Z.quot n 2)) a
          ++ replicate (Z.to_nat (n - Z.quot n 2)) b)).
  { intros a b. rewrite forRange_fill by (rewrite ?len_replicate; lia).
    simpl. rewrite Z.sub_0_r.
    rewrite forRange_fill.
    2: lia.
    2:{ rewrite len_app, !len_replicate by lia. unfold len.
        rewrite length_drop, length_replicate. lia. }
    rewrite take_app_length' by (rewrite length_replicate; reflexivity).
    rewrite drop_ge.
    2:{ rewrite length_app, length_replicate, length_drop, length_replicate. lia. }
    rewrite app_nil_r. reflexivity. }
  unfold generatePerfectSquareWave. fold n. fold mean.
  unfold slice. fold n. change (0 <? 0) with false.
  destruct (Z.ltb_spec (Z.quot n 2) 0); [lia|].
  destruct (Z.ltb_spec n (Z.quot n 2)); [lia|].
  cbn [orb mbind result_bind]. rewrite Hpart. fold high. fold low.
  rewrite make_Ok by lia. cbn [mbind result_bind].
  match goal with |- context [gtb ?a mean] => destruct (gtb a mean) end.
  - exists high, low. split; [apply Hfill | left; split; reflexivity].
  - exists low, high. split; [apply Hfill | right; split; reflexivity].
Qed.

(** C5, as the code has it: when every sample lies on one side of the
    mean, [generatePerfectSquareWave] does not fail.  It returns a
    two-level waveform of the length of its input in which the level of the
    empty partition, computed as 0/0, is NaN. *)
Theorem synthesize_degenerate_returns_nan (signal : list float) :
  signal <> [] ->
  Forall (fun v => gtb v (calculateMean signal) = false) signal
  \/ Forall (fun v => gtb v (calculateMean signal) = true) signal ->
  exists first second,
    generatePerfectSquareWave signal
    = Ok (replicate (Z.to_nat (Z.quot (len signal) 2)) first
          ++ replicate (Z.to_nat (len signal - Z.quot (len signal) 2)) second)
    /\ (first = nan \/ second = nan).
Proof.
  intros _ Hside.
  pose proof (generatePerfectSquareWave_levels signal) as H. cbv zeta in H.
  unfold partitionLevels in H.
  destruct Hside as [Hhigh|Hlow].
  - destruct (partition_high_empty _ _ Hhigh 0%float 0 0%float 0)
      as (lv & lc & E).
    rewrite E in H. destruct H as (first & second & Hret & Hlev).
    exists first, second. split; [exact Hret|].
    change (0 / float64_of_int 0)%float with nan in Hlev.
    destruct Hlev as [[-> _]|[_ ->]]; auto.
  - destruct (partition_low_empty _ _ Hlow 0%float 0 0%float 0)
      as (hv & hc & E).
    rewrite E in H. destruct H as (first & second & Hret & Hlev).
    exists first, second. split; [exact Hret|].
    change (0 / float64_of_int 0)%float with nan in Hlev.
    destruct Hlev as [[_ ->]|[-> _]]; auto.
Qed.

(** [synthesize_degenerate_returns_nan] at a concrete input. *)
Lemma synthesize_degenerate_returns_nan_witness :
  let signal := [-0x1p1023; -0x1p1023; -0x1p1023]%float in
  exists first second,
    generatePerfectSquareWave signal
    = Ok (replicate (Z.to_nat (Z.quot (len signal) 2)) first
          ++ replicate (Z.to_nat (len signal - Z.quot (len signal) 2)) second)
    /\ (first = nan \/ second = nan).
Proof.
  cbv zeta.
  apply (synthesize_degenerate_returns_nan
           [-0x1p1023; -0x1p1023; -0x1p1023]%float).
  - discriminate.
  - right. repeat constructor.
Defined.

(** C5 fails as stated: on a constant waveform, whose high partition is
    empty, [generatePerfectSquareWave] returns a value. *)
Lemma synthesize_constant_waveform_returns :
  let signal := [1; 1]%float in
  signal <> []
  /\ Forall (fun v => gtb v (calculateMean signal) = false) signal
  /\ generatePerfectSquareWave signal = Ok [1%float; nan]
  /\ ~ failed (generatePerfectSquareWave signal).
Proof.
  cbv zeta. split; [discriminate|].
  split; [repeat constructor|].
  split; [vm_compute; reflexivity|].
  vm_compute. tauto.
Qed.

End SquareWave.

(** ** [fir]: the least-squares solve *)

Section MatrixShape.
Import Go fir Spec.

Lemma shaped_row (rows cols : Z) (m : list (list float)) (i : Z) :
  shaped rows cols m -> 0 <= i < rows ->
  exists r, index m i = Ok r /\ len r = cols.
Proof.
  intros [Hlen Hall] Hi.
  destruct (index_in_range m i) as (r & Hr & Hr'); [lia|].
  exists r. split; [exact Hr|].
  rewrite Forall_lookup in Hall. exact (Hall _ _ Hr').
Qed.

Lemma shaped_cell (rows cols : Z) (m : list (list float)) (i j : Z) :
  shaped rows cols m -> 0 <= i < rows -> 0 <= j < cols ->
  exists r x, index m i = Ok r /\ len r = cols /\ index r j = Ok x.
Proof.
  intros Hm Hi Hj. destruct (shaped_row _ _ _ _ Hm Hi) as (r & Hr & Hlen).
  destruct (index_in_range r j) as (x & Hx & _); [lia|]. eauto.
Qed.

Lemma shaped_store (rows cols : Z) (m : list (list float)) (i : Z)
  (r : list float) :
  shaped rows cols m -> 0 <= i < rows -> len r = cols ->
  exists m', store m i r = Ok m' /\ shaped rows cols m'.
Proof.
  intros [Hlen Hall] Hi Hr. eexists. split; [apply store_Ok; lia|].
  split; [rewrite len_insert; exact Hlen|].
  apply Forall_insert; assumption.
Qed.

Lemma shaped_replicate (rows cols : Z) :
  0 <= rows -> 0 <= cols ->
  shaped rows cols (replicate (Z.to_nat rows) (replicate (Z.to_nat cols) 0%float)).
Proof.
  intros Hr Hc. split; [apply len_replicate; exact Hr|].
  apply Forall_replicate. apply len_replicate. exact Hc.
Qed.

Lemma updateCell_shaped (rows cols : Z) (m : list (list float)) (i j : Z)
  (f : float -> float) :
  shaped rows cols m -> 0 <= i < rows -> 0 <= j < cols ->
  exists m', updateCell m i j f = Ok m' /\ shaped rows cols m'.
Proof.
  intros Hm Hi Hj. unfold updateCell.
  destruct (shaped_cell _ _ _ _ _ Hm Hi Hj) as (r & x & -> & Hlen & Hx).
  cbn [mbind result_bind]. rewrite Hx. cbn [mbind result_bind].
  rewrite store_Ok by lia. cbn [mbind result_bind].
  apply shaped_store; [assumption | lia | rewrite len_insert; exact Hlen].
Qed.

End MatrixShape.

(** Reading the cell [(i, j)] of a matrix of known shape. *)
Ltac read_cell Hm i j :=
  let r := fresh "row" in
  let x := fresh "x" in
  let H1 := fresh "Hrow" in
  let H2 := fresh "Hx" in
  destruct (shaped_cell _ _ _ i j Hm ltac:(lia) ltac:(lia))
    as (r & x & H1 & _ & H2);
  rewrite H1; cbn [mbind Go.result_bind]; rewrite H2;
  cbn [mbind Go.result_bind].

Section Solve.
Import Go fir Spec.

(** The rows that [make([][]float64, n)] followed by one assignment per
    row produces. *)
Lemma rows_tabulate (n cols : Z) (body : Z -> list (list float) -> result (list (list float)))
  (m0 : list (list float)) :
  len m0 = n ->
  (forall i m, 0 <= i < n -> len m = n ->
     exists r, body i m = Ok (<[Z.to_nat i := r]> m) /\ len r = cols) ->
  exists m, forRange 0 n body m0 = Ok m /\ shaped n cols m.
Proof.
  intros Hlen Hbody.
  assert (Hn : 0 <= n) by (rewrite <- Hlen; apply len_nonneg).
  destruct (forRange_inv
    (fun j m => len m = n
                /\ Forall (fun r => len r = cols) (take (Z.to_nat j) m))
    body 0 n m0 Hn) as (m & Hm & Hlm & Hall).
  - split; [exact Hlen | constructor].
  - intros j t Hj [Hlt Hpre].
    destruct (Hbody j t Hj Hlt) as (r & Hr & Hrlen).
    eexists. split; [exact Hr|]. split; [rewrite len_insert; exact Hlt|].
    replace (Z.to_nat (j + 1)) with (S (Z.to_nat j)) by lia.
    erewrite take_S_r.
    2:{ apply list_lookup_insert_eq. unfold len in Hlt. lia. }
    rewrite take_insert_ge by lia.
    apply Forall_app. split; [exact Hpre | repeat constructor; exact Hrlen].
  - exists m. split; [exact Hm|]. split; [exact Hlm|].
    rewrite take_ge in Hall by (unfold len in Hlm; lia). exact Hall.
Qed.

Lemma transposeMatrix_shaped (rows cols : Z) (m : list (list float)) :
  shaped rows cols m -> 1 <= rows ->
  exists t, transposeMatrix m = Ok t /\ shaped cols rows t.
Proof.
  intros Hm Hrows. pose proof Hm as [Hlen Hall]. unfold transposeMatrix.
  destruct (shaped_row _ _ _ 0 Hm ltac:(lia)) as (m0 & -> & Hm0).
  cbn [mbind result_bind]. rewrite Hm0, Hlen.
  assert (Hc : 0 <= cols) by (rewrite <- Hm0; apply len_nonneg).
  rewrite !make_Ok by lia. cbn [mbind result_bind].
  rewrite len_replicate by lia.
  match goal with
  | |- context [mbind _ (forRange 0 cols ?body ?init)] =>
      destruct (rows_tabulate cols rows body init) as (t0 & -> & Ht0)
  end.
  { apply len_replicate. lia. }
  { intros i t Hi Ht. rewrite store_Ok by lia. eexists.
    split; [reflexivity | apply len_replicate; lia]. }
  cbn [mbind result_bind].
  apply forRange_pres; [exact Ht0|]. intros i t Hi Ht.
  apply forRange_pres; [exact Ht|]. intros j u Hj Hu.
  read_cell Hm i j.
  destruct (shaped_row _ _ _ j Hu Hj) as (rj & -> & Hrj).
  cbn [mbind result_bind]. rewrite store_Ok by lia. cbn [mbind result_bind].
  apply shaped_store; [assumption | lia | rewrite len_insert; exact Hrj].
Qed.

Lemma matrixMultiply_shaped (p q r : Z) (a b : list (list float)) :
  shaped p q a -> shaped q r b -> 1 <= q ->
  exists m, matrixMultiply a b = Ok m /\ shaped p r m.
Proof.
  intros Ha Hb Hq. pose proof Ha as [Hla _]. pose proof Hb as [Hlb _].
  unfold matrixMultiply.
  destruct (shaped_row _ _ _ 0 Hb ltac:(lia)) as (b0 & -> & Hb0).
  cbn [mbind result_bind]. rewrite Hb0, Hla, Hlb.
  assert (Hp : 0 <= p) by (rewrite <- Hla; apply len_nonneg).
  assert (Hr : 0 <= r) by (rewrite <- Hb0; apply len_nonneg).
  rewrite !make_Ok by lia. cbn [mbind result_bind].
  rewrite len_replicate by lia.
  apply rows_tabulate; [apply len_replicate; lia|].
  intros i m Hi Hm.
  loop_pres (fun row : list float => len row = r) as row Hrow.
  { apply len_replicate. lia. }
  { intros j row Hj Hrow.
    loop_pres (fun _ : float => True) as sum Hsum.
    { exact I. }
    { intros k acc Hk _.
      read_cell Ha i k.
      read_cell Hb k j. eauto. }
    rewrite store_Ok by lia.
    eexists. split; [reflexivity | rewrite len_insert; exact Hrow]. }
  rewrite store_Ok by lia. eauto.
Qed.

Lemma matrixVectorMultiply_len (p q : Z) (m : list (list float))
  (v : list float) :
  shaped p q m -> q <= len v ->
  exists r, matrixVectorMultiply m v = Ok r /\ len r = p.
Proof.
  intros Hm Hv. pose proof Hm as [Hlm _]. unfold matrixVectorMultiply.
  rewrite Hlm.
  assert (Hp : 0 <= p) by (rewrite <- Hlm; apply len_nonneg).
  rewrite make_Ok by lia. cbn [mbind result_bind].
  apply forRange_pres; [apply len_replicate; lia|].
  intros i r Hi Hr.
  destruct (shaped_row _ _ _ i Hm Hi) as (mi & -> & Hmi).
  cbn [mbind result_bind]. rewrite Hmi.
  loop_pres (fun _ : float => True) as sum Hsum.
  { exact I. }
  { intros j acc Hj _.
    destruct (index_in_range mi j) as (mij & -> & _); [lia|].
    destruct (index_in_range v j) as (vj & -> & _); [lia|].
    cbn [mbind result_bind]. eauto. }
  rewrite store_Ok by lia.
  eexists. split; [reflexivity | rewrite len_insert; exact Hr].
Qed.

Lemma forN_snoc {St} (body : Z -> St -> result St) :
  forall (n : nat) (lo : Z) (s : St),
    forN (S n) lo body s = forN n lo body s ≫= body (lo + Z.of_nat n).
Proof.
  induction n as [|n IH]; intros lo s.
  - cbn [forN mbind result_bind Z.of_nat]. rewrite Z.add_0_r.
    destruct (body lo s); reflexivity.
  - change (forN (S (S n)) lo body s)
      with (body lo s ≫= forN (S n) (lo + 1) body).
    change (forN (S n) lo body s) with (body lo s ≫= forN n (lo + 1) body).
    destruct (body lo s) as [t|f]; [|reflexivity]. cbn [mbind result_bind].
    rewrite IH. do 2 f_equal. lia.
Qed.

(** One turn of the elimination: the shape of the system is kept whatever
    the value of the pivot, [b[i]] becomes its quotient by the pivot, and
    the entries of [b] above it are left as they were. *)
Lemma eliminateStep_spec (n i : Z) (A : list (list float)) (b : list float) :
  shaped n n A -> len b = n -> 0 <= i < n ->
  exists Ai pivot bi A' b',
    index A i = Ok Ai /\ index Ai i = Ok pivot
    /\ b !! Z.to_nat i = Some bi
    /\ eliminateStep n i (A, b) = Ok (A', b')
    /\ shaped n n A' /\ len b' = n
    /\ b' !! Z.to_nat i = Some (bi / pivot)%float
    /\ forall k, 0 <= k < i -> b' !! Z.to_nat k = b !! Z.to_nat k.
Proof.
  intros HA Hb Hi. unfold eliminateStep.
  destruct (shaped_cell _ _ _ i i HA Hi Hi) as (Ai & pivot & HAi & _ & Hpivot).
  destruct (index_in_range b i) as (bi & Hbi & Hbi'); [lia|].
  exists Ai, pivot, bi. rewrite HAi. cbn [mbind result_bind].
  rewrite Hpivot. cbn [mbind result_bind].
  loop_pres (shaped n n) as A1 HA1.
  { exact HA. }
  { intros j t Hj Ht. apply updateCell_shaped; [assumption | lia | lia]. }
  rewrite Hbi. cbn [mbind result_bind]. rewrite store_Ok by lia.
  cbn [mbind result_bind].
  set (b1 := <[Z.to_nat i := (bi / pivot)%float]> b).
  match goal with
  | |- context [forRange ?lo ?hi ?body ?init] =>
      destruct (forRange_pres
        (fun Ab : list (list float) * list float =>
           shaped n n Ab.1 /\ len Ab.2 = n
           /\ forall k, 0 <= k <= i -> Ab.2 !! Z.to_nat k = b1 !! Z.to_nat k)
        body lo hi init)
        as ([A2 b2] & -> & HA2 & Hb2 & Hkeep)
  end.
  { simpl. split_and!; [exact HA1 | unfold b1; rewrite len_insert; exact Hb
                        | reflexivity]. }
  { intros k [At bt] Hk (HAt & Hbt & Hkeep). simpl in HAt, Hbt, Hkeep.
    read_cell HAt k i.
    loop_pres (shaped n n) as A3 HA3.
    { exact HAt. }
    { intros j t Hj Ht. read_cell Ht i j.
      apply updateCell_shaped; [assumption | lia | lia]. }
    destruct (index_in_range bt k) as (bk & -> & _); [lia|].
    destruct (index_in_range bt i) as (bi' & -> & _); [lia|].
    cbn [mbind result_bind]. rewrite store_Ok by lia.
    cbn [mbind result_bind]. eexists. split; [reflexivity|]. simpl.
    split_and!; [exact HA3 | rewrite len_insert; exact Hbt |].
    intros k0 Hk0. rewrite list_lookup_insert_ne by lia. apply Hkeep. lia. }
  simpl in HA2, Hb2, Hkeep. exists A2, b2.
  split_and!; try reflexivity; try assumption.
  - rewrite Hkeep by lia. unfold b1. apply list_lookup_insert_eq.
    unfold len in Hb. lia.
  - intros k Hk. rewrite Hkeep by lia. unfold b1.
    apply list_lookup_insert_ne. lia.
Qed.

(** The forward elimination runs to its end on every square system, and
    where it divided by a zero the entry of [b] is no longer finite. *)
Lemma elimination_spec (n : Z) (A : list (list float)) (b : list float) :
  shaped n n A -> len b = n ->
  exists A' b' ps,
    forRange 0 n (eliminateStep n) (A, b) = Ok (A', b')
    /\ pivots A b = Ok ps
    /\ shaped n n A' /\ len b' = n /\ len ps = n
    /\ forall i, 0 <= i < n ->
         PrimFloat.is_zero (elem ps i) = true ->
         PrimFloat.is_finite (elem b' i) = false.
Proof.
  intros HA Hb. pose proof HA as [HlA _]. unfold pivots. rewrite HlA.
  assert (Hn : 0 <= n) by (rewrite <- HlA; apply len_nonneg).
  match goal with
  | |- context [mbind _ (forRange 0 n ?body ?init)] =>
      destruct (forRange_inv
        (fun j (s : list (list float) * list float * list float) =>
           shaped n n s.1.1 /\ len s.1.2 = n /\ len s.2 = j
           /\ forN (Z.to_nat j) 0 (eliminateStep n) (A, b) = Ok s.1
           /\ forall i, 0 <= i < j ->
                PrimFloat.is_zero (elem s.2 i) = true ->
                PrimFloat.is_finite (elem s.1.2 i) = false)
        body 0 n init Hn)
        as ([[A' b'] ps] & -> & HA' & Hb' & Hps & Hrun & Hzero)
  end.
  { simpl. split_and!; try assumption; try reflexivity. intros i Hi. lia. }
  { intros j [[At bt] ps] Hj (HAt & Hbt & Hps & Hrun & Hzero).
    simpl in HAt, Hbt, Hps, Hrun, Hzero. cbn [fst].
    destruct (eliminateStep_spec n j At bt HAt Hbt Hj)
      as (Aj & pivot & bj & A2 & b2 & HAj & Hpivot & Hbj & Hstep & HA2 & Hb2
          & Hquot & Hkeep).
    rewrite HAj. cbn [mbind result_bind]. rewrite Hpivot.
    cbn [mbind result_bind]. rewrite Hstep. cbn [mbind result_bind].
    eexists. split; [reflexivity|]. simpl.
    split_and!; try assumption.
    - rewrite len_app. unfold len at 2. simpl. lia.
    - replace (Z.to_nat (j + 1)) with (S (Z.to_nat j)) by lia.
      rewrite forN_snoc, Hrun. cbn [mbind result_bind].
      replace (0 + Z.of_nat (Z.to_nat j)) with j by lia. exact Hstep.
    - intros i Hi. destruct (Z.eq_dec i j) as [->|Hne].
      + unfold elem at 1.
        rewrite lookup_app_r by (unfold len in Hps; lia).
        replace (Z.to_nat j - length ps)%nat with O
          by (unfold len in Hps; lia).
        simpl. intros Hz. unfold elem. rewrite Hquot. simpl.
        apply div_zero_not_finite. exact Hz.
      + unfold elem at 1.
        rewrite lookup_app_l by (unfold len in Hps; lia).
        intros Hz. unfold elem. rewrite Hkeep by lia.
        apply Hzero; [lia | exact Hz]. }
  simpl in HA', Hb', Hps, Hrun, Hzero. cbn [mbind result_bind].
  exists A', b', ps. split_and!; try assumption; try reflexivity.
  unfold forRange. rewrite Z.sub_0_r. exact Hrun.
Qed.

(** One turn of the back substitution: [x[i]] is [b[i]] less a sum, the
    other entries of [x] are left as they were. *)
Lemma substituteStep_spec (n : Z) (A : list (list float)) (b x : list float)
  (i : Z) :
  shaped n n A -> len b = n -> len x = n -> 0 <= i < n ->
  exists x', substituteStep n A b i x = Ok x' /\ len x' = n
    /\ (forall k, 0 <= k < n -> k <> i ->
          x' !! Z.to_nat k = x !! Z.to_nat k)
    /\ (PrimFloat.is_finite (elem b i) = false ->
        PrimFloat.is_finite (elem x' i) = false).
Proof.
  intros HA Hb Hx Hi. unfold substituteStep.
  destruct (index_in_range b i) as (bi & -> & Hbi); [lia|].
  cbn [mbind result_bind]. rewrite store_Ok by lia. cbn [mbind result_bind].
  set (x1 := <[Z.to_nat i := bi]> x).
  match goal with
  | |- context [forRange ?lo ?hi ?body ?init] =>
      destruct (forRange_pres
        (fun t : list float =>
           len t = n
           /\ (forall k, 0 <= k < n -> k <> i ->
                 t !! Z.to_nat k = x !! Z.to_nat k)
           /\ (PrimFloat.is_finite bi = false ->
               PrimFloat.is_finite (elem t i) = false))
        body lo hi init) as (x' & Hx' & Hlen & Hkeep & Hnf)
  end.
  { split_and!.
    - unfold x1. rewrite len_insert. exact Hx.
    - intros k Hk Hne. unfold x1. apply list_lookup_insert_ne. lia.
    - intros Hnf. unfold elem, x1.
      rewrite list_lookup_insert_eq by (unfold len in Hx; lia). exact Hnf. }
  { intros j t Hj (Ht & Hkeep & Hnf).
    read_cell HA i j.
    destruct (index_in_range t j) as (xj & -> & _); [lia|].
    destruct (index_in_range t i) as (xi & -> & Hxi); [lia|].
    cbn [mbind result_bind]. rewrite store_Ok by lia.
    eexists. split; [reflexivity|]. split_and!.
    - rewrite len_insert. exact Ht.
    - intros k Hk Hne. rewrite list_lookup_insert_ne by lia.
      apply Hkeep; assumption.
    - intros Hbnf. unfold elem.
      rewrite list_lookup_insert_eq by (unfold len in Ht; lia). simpl.
      apply sub_not_finite. specialize (Hnf Hbnf).
      unfold elem in Hnf. rewrite Hxi in Hnf. exact Hnf. }
  exists x'. split_and!; try assumption.
  intros Hbnf. apply Hnf. unfold elem in Hbnf. rewrite Hbi in Hbnf. exact Hbnf.
Qed.

(** [solveLinearSystem] on a square system returns a vector of its size:
    no value of a pivot makes it stop.  Where a pivot was zero, the entry
    of the solution is an infinity or NaN. *)
Lemma solveLinearSystem_spec (n : Z) (A : list (list float)) (b : list float) :
  shaped n n A -> len b = n ->
  exists ps x,
    pivots A b = Ok ps /\ len ps = n
    /\ solveLinearSystem A b = Ok x /\ len x = n
    /\ forall i, 0 <= i < n ->
         PrimFloat.is_zero (elem ps i) = true ->
         PrimFloat.is_finite (elem x i) = false.
Proof.
  intros HA Hb. pose proof HA as [HlA _].
  assert (Hn : 0 <= n) by (rewrite <- HlA; apply len_nonneg).
  destruct (elimination_spec n A b HA Hb)
    as (A' & b' & ps & Hrun & Hps & HA' & Hb' & Hlps & Hzero).
  exists ps. unfold solveLinearSystem. rewrite HlA.
  rewrite make_Ok by lia. cbn [mbind result_bind].
  rewrite Hrun. cbn [mbind result_bind].
  destruct (forDown_inv
    (fun j x => len x = n
                /\ forall i, j <= i < n ->
                     PrimFloat.is_finite (elem b' i) = false ->
                     PrimFloat.is_finite (elem x i) = false)
    (substituteStep n A' b') n 0 (replicate (Z.to_nat n) 0%float) Hn)
    as (x & Hx & Hlx & Hnf).
  { split; [apply len_replicate; lia | intros i Hi; lia]. }
  { intros j t Hj [Ht Htnf].
    destruct (substituteStep_spec n A' b' t j HA' Hb' Ht Hj)
      as (t' & Ht' & Hlt' & Hkeep & Hnew).
    exists t'. split; [exact Ht'|]. split; [exact Hlt'|].
    intros i Hi. destruct (Z.eq_dec i j) as [->|Hne]; [exact Hnew|].
    intros Hb'i. unfold elem. rewrite Hkeep by lia.
    apply Htnf; [lia | exact Hb'i]. }
  exists x. split_and!; try assumption.
  intros i Hi Hz. apply Hnf; [lia|]. apply Hzero; assumption.
Qed.

Lemma normalEquations_shaped (imperfect perfect : list float) (regParam : float) :
  len imperfect = len perfect -> 1 <= len imperfect ->
  exists ATA ATb,
    normalEquations imperfect perfect regParam = Ok (ATA, ATb)
    /\ shaped (len imperfect) (len imperfect) ATA
    /\ len ATb = len imperfect.
Proof.
  intros Hlen HN. set (n := len imperfect) in *. unfold normalEquations.
  fold n. rewrite make_Ok by lia. cbn [mbind result_bind].
  rewrite len_replicate by lia.
  match goal with
  | |- context [mbind _ (forRange 0 n ?body ?init)] =>
      destruct (rows_tabulate n n body init) as (A & -> & HA)
  end.
  { apply len_replicate. lia. }
  { intros i m Hi Hm. rewrite roll_spec by lia. fold n.
    cbn [mbind result_bind]. rewrite store_Ok by lia.
    eexists. split; [reflexivity | apply len_tabulate; lia]. }
  cbn [mbind result_bind].
  destruct (transposeMatrix_shaped n n A HA HN) as (At & -> & HAt).
  cbn [mbind result_bind].
  destruct (matrixMultiply_shaped n n n At A HAt HA HN) as (ATA & -> & HATA).
  cbn [mbind result_bind].
  destruct (matrixVectorMultiply_len n n At perfect HAt ltac:(lia))
    as (ATb & -> & HATb).
  cbn [mbind result_bind].
  loop_pres (fun _ : float => True) as diagMean HdiagMean.
  { exact I. }
  { intros i acc Hi _.
    read_cell HATA i i. eauto. }
  loop_pres (shaped n n) as ATA' HATA'.
  { exact HATA. }
  { intros i t Hi Ht. apply updateCell_shaped; assumption. }
  eauto.
Qed.

(** C4, as the code has it: [regularizedLeastSquares] performs no row
    exchange and tests no pivot.  For inputs of equal length N >= 1 and any
    regularization it returns a coefficient vector of length N, whatever
    the N diagonal entries it divided by were; at the index of a pivot that
    was zero the coefficient is an infinity or NaN. *)
Theorem solve_returns_whatever_the_pivots
  (measured reference : list float) (regularization : float) :
  len measured = len reference -> 1 <= len measured ->
  exists ATA ATb ps x,
    normalEquations measured reference regularization = Ok (ATA, ATb)
    /\ pivots ATA ATb = Ok ps /\ len ps = len measured
    /\ regularizedLeastSquares measured reference regularization = Ok x
    /\ len x = len measured
    /\ forall i, 0 <= i < len measured ->
         PrimFloat.is_zero (elem ps i) = true ->
         PrimFloat.is_finite (elem x i) = false.
Proof.
  intros Hlen HN.
  destruct (normalEquations_shaped measured reference regularization Hlen HN)
    as (ATA & ATb & Hne & HATA & HATb).
  destruct (solveLinearSystem_spec _ ATA ATb HATA HATb)
    as (ps & x & Hps & Hlps & Hx & Hlx & Hzero).
  exists ATA, ATb, ps, x. split_and!; try assumption.
  unfold regularizedLeastSquares. rewrite Hne. exact Hx.
Qed.

(** [solve_returns_whatever_the_pivots] at a concrete input. *)
Lemma solve_returns_whatever_the_pivots_witness :
  let measured := [1; 1]%float in
  let reference := [1; 0]%float in
  exists ATA ATb ps x,
    normalEquations measured reference 0 = Ok (ATA, ATb)
    /\ pivots ATA ATb = Ok ps /\ len ps = len measured
    /\ regularizedLeastSquares measured reference 0 = Ok x
    /\ len x = len measured
    /\ forall i, 0 <= i < len measured ->
         PrimFloat.is_zero (elem ps i) = true ->
         PrimFloat.is_finite (elem x i) = false.
Proof.
  cbv zeta.
  apply (solve_returns_whatever_the_pivots [1; 1]%float [1; 0]%float 0%float).
  - reflexivity.
  - vm_compute. discriminate.
Defined.

(** C4 fails as stated: for the measured waveform [1, 1] without
    regularization the second pivot is zero, and the solve returns a
    vector (of NaN) instead of failing. *)
Lemma solve_zero_pivot_returns :
  let measured := [1; 1]%float in
  let reference := [1; 0]%float in
  len measured = len reference
  /\ normalEquations measured reference 0
     = Ok ([[2; 2]; [2; 2]]%float, [1; 1]%float)
  /\ pivots [[2; 2]; [2; 2]]%float [1; 1]%float = Ok [2; 0]%float
  /\ regularizedLeastSquares measured reference 0 = Ok [nan; nan]
  /\ ~ failed (regularizedLeastSquares measured reference 0).
Proof.
  cbv zeta. split_and!; try (vm_compute; reflexivity).
  vm_compute. tauto.
Qed.

End Solve.

(** ** Conversion of [int] to [float64] *)

Section IntToFloat.
Import Go Spec.

Lemma digits2_lower (p : positive) : 2 ^ (Zpos (digits2_pos p) - 1) <= Zpos p.
Proof.
  induction p as [p IH|p IH|]; simpl digits2_pos.
  - rewrite Pos2Z.inj_succ. replace (Z.succ (Zpos (digits2_pos p)) - 1)
      with (Z.succ (Zpos (digits2_pos p) - 1)) by lia.
    rewrite Z.pow_succ_r by lia. lia.
  - rewrite Pos2Z.inj_succ. replace (Z.succ (Zpos (digits2_pos p)) - 1)
      with (Z.succ (Zpos (digits2_pos p) - 1)) by lia.
    rewrite Z.pow_succ_r by lia. lia.
  - simpl. lia.
Qed.

Lemma digits2_le (p : positive) (K : Z) :
  Zpos p < 2 ^ K -> 0 <= K -> Zpos (digits2_pos p) <= K.
Proof.
  intros Hp HK. pose proof (digits2_lower p) as Hl.
  assert (H : 2 ^ (Zpos (digits2_pos p) - 1) < 2 ^ K) by lia.
  apply Z.pow_lt_mono_r_iff in H; lia.
Qed.

Lemma shr_1_m (mrs : shr_record) :
  0 <= shr_m mrs -> shr_m (shr_1 mrs) = shr_m mrs / 2.
Proof.
  destruct mrs as [m r s]. simpl. intros Hm.
  destruct m as [|[p|p|]|p]; simpl; try lia; try reflexivity.
  - rewrite Pos2Z.inj_xI. apply Z.div_unique with 1; lia.
  - rewrite Pos2Z.inj_xO. apply Z.div_unique with 0; lia.
Qed.

Lemma iter_shr_m (n : positive) :
  forall mrs, 0 <= shr_m mrs ->
    shr_m (SpecFloat.iter_pos shr_1 n mrs) = shr_m mrs / 2 ^ Zpos n.
Proof.
  induction n as [n IH|n IH|]; intros mrs Hm; simpl SpecFloat.iter_pos.
  - assert (H1 : 0 <= shr_m (shr_1 mrs)).
    { rewrite shr_1_m by exact Hm. apply Z.div_pos; lia. }
    assert (H2 : 0 <= shr_m (SpecFloat.iter_pos shr_1 n (shr_1 mrs))).
    { rewrite IH by exact H1. apply Z.div_pos; lia. }
    rewrite IH by exact H2. rewrite IH by exact H1. rewrite shr_1_m by exact Hm.
    rewrite !Z.div_div by lia. f_equal.
    rewrite <- Z.pow_add_r, <- Z.pow_succ_r by lia. f_equal. lia.
  - assert (H1 : 0 <= shr_m (SpecFloat.iter_pos shr_1 n mrs)).
    { rewrite IH by exact Hm. apply Z.div_pos; lia. }
    rewrite IH by exact H1. rewrite IH by exact Hm.
    rewrite Z.div_div by lia. f_equal.
    rewrite <- Z.pow_add_r by lia. f_equal. lia.
  - rewrite shr_1_m by exact Hm. reflexivity.
Qed.

(** Shifting a positive mantissa right by fewer bits than it has leaves a
    positive mantissa. *)
Lemma shr_fexp_pos (m : positive) (e : Z) (l : location) :
  - 1000 <= e ->
  exists q e',
    shr_m (shr_fexp 53 1024 (Zpos m) e l).1 = Zpos q
    /\ (shr_fexp 53 1024 (Zpos m) e l).2 = e'
    /\ Zpos q <= Zpos m
    /\ e <= e' <= e + Z.max 0 (Zpos (digits2_pos m) - 53).
Proof.
  intros He. unfold shr_fexp, shr, fexp, emin. simpl Zdigits2.
  set (d := Zpos (digits2_pos m)).
  assert (Hd : 1 <= d) by (unfold d; lia).
  replace (Z.max (d + e - 53) (3 - 1024 - 53) - e) with (d - 53) by lia.
  assert (Hrec : shr_m (shr_record_of_loc (Zpos m) l) = Zpos m).
  { destruct l as [|[]]; reflexivity. }
  destruct (d - 53) as [|n|n] eqn:En.
  - exists m, e. simpl. rewrite Hrec. split_and!; try reflexivity; lia.
  - exists (Z.to_pos (Zpos m / 2 ^ Zpos n)), (e + Zpos n). simpl.
    rewrite iter_shr_m by (rewrite Hrec; lia). rewrite Hrec.
    pose proof (digits2_lower m) as Hl. fold d in Hl.
    assert (Hpow : 2 ^ Zpos n <= 2 ^ (d - 1))
      by (apply Z.pow_le_mono_r; lia).
    assert (H1 : 1 <= Zpos m / 2 ^ Zpos n).
    { apply Z.div_le_lower_bound; lia. }
    assert (H2 : Zpos m / 2 ^ Zpos n <= Zpos m).
    { apply Z.div_le_upper_bound; [lia|].
      assert (0 < 2 ^ Zpos n) by (apply Z.pow_pos_nonneg; lia). nia. }
    rewrite Z2Pos.id by lia. split_and!; try reflexivity; lia.
  - exists m, e. simpl. rewrite Hrec. split_and!; try reflexivity; lia.
Qed.

Lemma round_nearest_even_pos (q : positive) (l : location) :
  exists q', round_nearest_even (Zpos q) l = Zpos q' /\ Zpos q' <= Zpos q + 1.
Proof.
  destruct l as [|[]]; simpl; try (exists q; split; [reflexivity | lia]).
  - destruct q; simpl; eexists; (split; [reflexivity | lia]).
  - exists (q + 1)%positive. split; [reflexivity | lia].
Qed.

(** Rounding an exact positive mantissa of moderate size and exponent
    yields a positive finite number. *)
Lemma binary_round_aux_finite (m : positive) (e : Z) :
  Zpos m < 2 ^ 120 -> - 1000 <= e <= 700 ->
  exists m' e',
    binary_round_aux 53 1024 false (Zpos m) e loc_Exact
    = S754_finite false m' e'.
Proof.
  intros Hm He. unfold binary_round_aux.
  destruct (shr_fexp_pos m e loc_Exact) as (q & e1 & Hq & He1 & Hqm & Hbound);
    [lia|].
  destruct (shr_fexp 53 1024 (Zpos m) e loc_Exact) as [mrs1 e1'].
  simpl in Hq, He1. subst e1'. rewrite Hq.
  destruct (round_nearest_even_pos q (loc_of_shr_record mrs1))
    as (q' & -> & Hq').
  pose proof (digits2_le m 120 Hm ltac:(lia)) as Hd.
  destruct (shr_fexp_pos q' e1 loc_Exact) as (q2 & e2 & Hq2 & He2 & _ & Hb2);
    [lia|].
  destruct (shr_fexp 53 1024 (Zpos q') e1 loc_Exact) as [mrs2 e2'].
  simpl in Hq2, He2. subst e2'. rewrite Hq2.
  assert (Hd' : Zpos (digits2_pos q') <= 121).
  { apply digits2_le; [|lia].
    assert (2 ^ 120 < 2 ^ 121) by (apply Z.pow_lt_mono_r; lia). lia. }
  destruct (Z.leb_spec e2 (1024 - 53)); [eauto | lia].
Qed.

Lemma iter_xO_value (p k : positive) :
  Zpos (Pos.iter xO p k) = Zpos p * 2 ^ Zpos k.
Proof.
  induction k as [|k IH] using Pos.peano_ind.
  - simpl. lia.
  - rewrite Pos.iter_succ, Pos2Z.inj_xO, IH, Pos2Z.inj_succ.
    rewrite Z.pow_succ_r by lia. lia.
Qed.

Lemma binary_normalize_int_finite (p : positive) :
  Zpos p < 2 ^ 63 ->
  exists m e,
    binary_normalize 53 1024 (Zpos p) 0 false = S754_finite false m e.
Proof.
  intros Hp. unfold binary_normalize, binary_round, shl_align, fexp, emin.
  set (d := Zpos (digits2_pos p)).
  assert (Hd : 1 <= d <= 63).
  { split; [unfold d; lia | apply digits2_le; lia]. }
  replace (Z.max (d + 0 - 53) (3 - 1024 - 53) - 0) with (d - 53) by lia.
  replace (Z.max (d + 0 - 53) (3 - 1024 - 53)) with (d - 53) by lia.
  destruct (d - 53) as [|n|n] eqn:En.
  - apply binary_round_aux_finite; [|lia].
    assert (2 ^ 63 < 2 ^ 120) by (apply Z.pow_lt_mono_r; lia). lia.
  - apply binary_round_aux_finite; [|lia].
    assert (2 ^ 63 < 2 ^ 120) by (apply Z.pow_lt_mono_r; lia). lia.
  - apply binary_round_aux_finite; [|lia].
    rewrite iter_xO_value.
    assert (2 ^ Zpos n <= 2 ^ 52) by (apply Z.pow_le_mono_r; lia).
    assert (0 < 2 ^ Zpos n) by (apply Z.pow_pos_nonneg; lia).
    replace (2 ^ 120) with (2 ^ 63 * 2 ^ 57) by reflexivity.
    assert (2 ^ 52 < 2 ^ 57) by (apply Z.pow_lt_mono_r; lia).
    nia.
Qed.

(** [float64(k)] for an [int] [k >= 1] is a positive finite number. *)
Lemma float64_of_int_finite (k : Z) :
  1 <= k < 2 ^ 63 ->
  exists m e, Prim2SF (float64_of_int k) = S754_finite false m e.
Proof.
  intros Hk. unfold float64_of_int.
  destruct (Z.ltb_spec k 0); [lia|].
  rewrite FloatAxioms.of_uint63_spec, Uint63.of_Z_spec.
  rewrite Z.mod_small by (change wB with (2 ^ 63); lia).
  destruct k as [|p|p]; try lia.
  apply binary_normalize_int_finite. lia.
Qed.

Lemma float64_of_int_nonneg (k : Z) :
  0 <= k < 2 ^ 63 ->
  Prim2SF (float64_of_int k) = S754_zero false
  \/ exists m e, Prim2SF (float64_of_int k) = S754_finite false m e.
Proof.
  intros Hk. destruct (Z.eq_dec k 0) as [->|Hne].
  - left. reflexivity.
  - right. apply float64_of_int_finite. lia.
Qed.

Lemma zero_div_int (k : Z) :
  1 <= k < 2 ^ 63 -> (0 / float64_of_int k)%float = 0%float.
Proof.
  intros Hk. destruct (float64_of_int_finite k Hk) as (m & e & Hx).
  apply Prim2SF_inj. rewrite FloatAxioms.div_spec, Hx. reflexivity.
Qed.

Lemma int_mul_zero (k : Z) :
  0 <= k < 2 ^ 63 -> (float64_of_int k * 0)%float = 0%float.
Proof.
  intros Hk. apply Prim2SF_inj. rewrite FloatAxioms.mul_spec.
  destruct (float64_of_int_nonneg k Hk) as [->|(m & e & ->)]; reflexivity.
Qed.

End IntToFloat.

(** ** [fir]: resampling a source too short to interpolate *)

Section Resample.
Import Go fir Spec.

Lemma tabulate_const {A} (v : A) (n : Z) :
  (fun _ : Z => v) <$> seqZ 0 n = replicate (Z.to_nat n) v.
Proof.
  unfold seqZ. rewrite <- list_fmap_compose.
  generalize (Z.to_nat n) as k. generalize 0%nat as s.
  intros s k. revert s. induction k as [|k IH]; intros s; simpl; [reflexivity|].
  f_equal. apply IH.
Qed.

(** C9, as the code has it: [resample] has no check of the source length.
    A source of one sample is resampled without failure to [targetLength]
    copies of that sample, and an empty source stops on the first output
    point with the index panic of the runtime. *)
Theorem resample_short_source (v : float) (targetLength : Z) :
  2 <= targetLength < 2 ^ 63 ->
  resample [v] targetLength = Ok (replicate (Z.to_nat targetLength) v)
  /\ resample [] targetLength = Fail IndexOutOfRange.
Proof.
  intros Hlen. split.
  - unfold resample. rewrite make_Ok by lia. cbn [mbind result_bind].
    change (len [v] - 1) with 0. change (float64_of_int 0) with 0%float.
    rewrite zero_div_int by lia.
    rewrite <- (tabulate_const v).
    apply forRange_tabulate; [apply len_replicate; lia|].
    intros i r Hi Hr. rewrite int_mul_zero by lia.
    change (int_of_float64 0) with 0. change (0 + 1 <? len [v]) with false.
    cbv iota. change (index [v] 0) with (Ok v). cbn [mbind result_bind].
    apply store_Ok. lia.
  - unfold resample. rewrite make_Ok by lia. cbn [mbind result_bind].
    unfold forRange.
    destruct (Z.to_nat (targetLength - 0)) as [|n] eqn:En; [lia|].
    cbn [forN]. rewrite index_nil.
    destruct (_ <? _); rewrite ?index_nil; reflexivity.
Qed.

(** [resample_short_source] at a concrete input. *)
Lemma resample_short_source_witness :
  resample [1.5%float] 2048 = Ok (replicate (Z.to_nat 2048) 1.5%float)
  /\ resample [] 2048 = Fail IndexOutOfRange.
Proof.
  apply (resample_short_source 1.5%float 2048). split; [lia|reflexivity].
Defined.

(** C9 fails as stated: a source of one sample resampled to two points
    returns a value. *)
Lemma resample_single_sample_succeeds :
  2 <= 2
  /\ resample [1.5%float] 2 = Ok [1.5%float; 1.5%float]
  /\ ~ failed (resample [1.5%float] 2).
Proof.
  split; [lia|]. split; [vm_compute; reflexivity|]. vm_compute. tauto.
Qed.

End Resample.

(** ** [fft]: the spectrum *)

Section Spectrum.
Import Go fft Spec.

Variable Cos : float -> float.
Variable Log10 : float -> float.
Variable cmplxAbs : float * float -> float.
Variable Coefficients : list float -> Z -> float * float.

(** A loop over a pair of a slice and a second component whose turn [i]
    stores [h i] into cell [i] of the slice. *)
Lemma forRange_tabulate_fst {A B} (n : Z)
  (body : Z -> list A * B -> result (list A * B)) (h : Z -> A)
  (Q : B -> Prop) (r0 : list A) (s0 : B) :
  len r0 = n -> Q s0 ->
  (forall i r s, 0 <= i < n -> len r = n -> Q s ->
     exists s', body i (r, s) = Ok (<[Z.to_nat i := h i]> r, s') /\ Q s') ->
  exists s', forRange 0 n body (r0, s0) = Ok (h <$> seqZ 0 n, s') /\ Q s'.
Proof.
  intros Hlen Hs0 Hbody.
  assert (Hn : 0 <= n) by (rewrite <- Hlen; apply len_nonneg).
  destruct (forRange_inv
    (fun j (rs : list A * B) =>
       rs.1 = (h <$> seqZ 0 j) ++ drop (Z.to_nat j) r0 /\ Q rs.2)
    body 0 n (r0, s0) Hn) as ([r s] & Hr & Hfinal & HQ).
  - cbv beta. rewrite seqZ_nil by lia. split; [reflexivity | exact Hs0].
  - intros j [t s] Hj [Ht Hs]. simpl in Ht, Hs. subst t.
    assert (Hpre : length (h <$> seqZ 0 j) = Z.to_nat j).
    { rewrite length_fmap, length_seqZ. reflexivity. }
    destruct (lookup_lt_is_Some_2 r0 (Z.to_nat j)) as [x Hx].
    { unfold len in Hlen. lia. }
    destruct (Hbody j ((h <$> seqZ 0 j) ++ drop (Z.to_nat j) r0) s)
      as (s' & Hs' & HQ'); [lia | | exact Hs |].
    { unfold len. rewrite length_app, Hpre, length_drop.
      unfold len in Hlen. lia. }
    eexists. split; [exact Hs'|]. split; [|exact HQ']. simpl.
    rewrite insert_app_r_alt by lia. rewrite Hpre, Nat.sub_diag.
    rewrite (drop_S _ _ _ Hx). simpl.
    rewrite seqZ_snoc by lia. rewrite fmap_app. simpl.
    rewrite <- app_assoc. simpl.
    replace (Z.to_nat (j + 1)) with (S (Z.to_nat j)) by lia. reflexivity.
  - simpl in Hfinal, HQ. exists s. split; [|exact HQ].
    rewrite Hr. do 2 f_equal. rewrite Hfinal.
    rewrite drop_ge by (unfold len in Hlen; lia). apply app_nil_r.
Qed.

(** [ComputeFFT] on a non-empty buffer returns; bin [i] of its frequency
    axis is the relative frequency of the bin times half the sample rate,
    and its list of harmonics is empty. *)
Lemma ComputeFFT_returns (x : float) (xs : list float) (sampleRate : float) :
  exists magnitudes,
    ComputeFFT Cos Log10 cmplxAbs Coefficients (x :: xs) sampleRate
    = Ok (mkFFTResult
            ((fun i => (relFreq i * (sampleRate / 2))%float)
               <$> seqZ 0 (Z.quot fftSize 2 + 1))
            magnitudes [] sampleRate)
    /\ len magnitudes = Z.quot fftSize 2 + 1.
Proof.
  unfold ComputeFFT.
  assert (Hdata : 1 <= len (x :: xs)).
  { unfold len. simpl length. lia. }
  destruct (Z.eqb_spec (len (x :: xs)) 0) as [E|_]; [lia|].
  destruct (meanAndMaxAbs (x :: xs)) as [mean maxAbs].
  set (data := x :: xs) in *.
  assert (Hsize : fftSize = 65536) by reflexivity.
  set (numFreqs := Z.quot fftSize 2 + 1).
  assert (HnumFreqs : numFreqs = 32769) by reflexivity.
  clearbody numFreqs.
  rewrite (make_Ok 0%float fftSize) by lia. cbn [mbind result_bind].
  loop_pres (fun input : list float => len input = fftSize) as input Hinput.
  { apply len_replicate. lia. }
  { intros i input Hi Hinput. unfold fir.min in Hi.
    destruct (index_in_range data i) as (d & -> & _).
    { destruct (Z.ltb_spec fftSize (len data)); lia. }
    cbn [mbind result_bind]. rewrite store_Ok.
    2:{ destruct (Z.ltb_spec fftSize (len data)); lia. }
    eexists. split; [reflexivity | rewrite len_insert; exact Hinput]. }
  rewrite Hinput.
  match goal with
  | |- context [mbind _ (forRange ?lo ?hi ?body ?init)] =>
      destruct (forRange_pres
        (fun s : list float * float => len s.1 = fftSize) body lo hi init)
        as ([windowed windowSum] & -> & Hwindowed);
      [ | | cbn [mbind result_bind] ]
  end.
  { exact Hinput. }
  { intros i [t w] Hi Ht. simpl in Ht.
    destruct (index_in_range t i) as (y & -> & _); [lia|].
    cbn [mbind result_bind]. rewrite store_Ok by lia.
    cbn [mbind result_bind]. eexists. split; [reflexivity|].
    simpl. rewrite len_insert. exact Ht. }
  rewrite !make_Ok by lia. cbn [mbind result_bind].
  match goal with
  | |- context [mbind _ (forRange 0 numFreqs ?body ?init)] =>
      destruct (forRange_tabulate_fst numFreqs body
        (fun i => (relFreq i * (sampleRate / 2))%float)
        (fun magnitudes : list float => len magnitudes = numFreqs)
        (replicate (Z.to_nat numFreqs) 0%float)
        (replicate (Z.to_nat numFreqs) 0%float))
        as (magnitudes & -> & Hmagnitudes)
  end.
  { apply len_replicate. lia. }
  { apply len_replicate. lia. }
  { intros i frequencies magnitudes Hi Hf Hm. unfold binStep, Freq.
    destruct (Z.ltb_spec i 0); [lia|].
    destruct (Z.leb_spec fftSize i); [lia|].
    cbn [orb mbind result_bind].
    match goal with
    | |- context [if gtb ?p 0 then _ else _] => destruct (gtb p 0)
    end; rewrite !store_Ok by lia; cbn [mbind result_bind];
      (eexists; split; [reflexivity | rewrite len_insert; exact Hm]). }
  cbn [mbind result_bind]. exists magnitudes. split; [reflexivity|].
  exact Hmagnitudes.
Qed.

(** C8, at the sample rate the FFT request uses (51200 Hz): the frequency
    axis has 32769 bins, bin [i] is [relFreq i * (sampleRate / 2)], bin 0
    is 0 Hz, and the last bin (index 32768) is 12800 Hz, a quarter of the
    sample rate, where the Nyquist frequency [sampleRate / 2] is
    25600 Hz. *)
Theorem ComputeFFT_last_bin_quarter_rate (x : float) (xs : list float) :
  exists r,
    ComputeFFT Cos Log10 cmplxAbs Coefficients (x :: xs) 51200 = Ok r
    /\ len (Frequencies r) = 32769
    /\ (forall i, 0 <= i <= 32768 ->
          elem (Frequencies r) i = (relFreq i * (51200 / 2))%float)
    /\ elem (Frequencies r) 0 = 0%float
    /\ elem (Frequencies r) 32768 = 12800%float
    /\ (51200 / 2)%float = 25600%float.
Proof.
  destruct (ComputeFFT_returns x xs 51200) as (magnitudes & Hr & _).
  eexists. split; [exact Hr|]. cbn [Frequencies].
  assert (Hformula : forall i, 0 <= i <= 32768 ->
    elem ((fun i => (relFreq i * (51200 / 2))%float)
            <$> seqZ 0 (Z.quot fftSize 2 + 1)) i
    = (relFreq i * (51200 / 2))%float).
  { intros i Hi. apply elem_tabulate. change (Z.quot fftSize 2 + 1) with 32769.
    lia. }
  split_and!.
  - apply len_tabulate. change (Z.quot fftSize 2 + 1) with 32769. lia.
  - exact Hformula.
  - rewrite Hformula by lia. reflexivity.
  - rewrite Hformula by lia. reflexivity.
  - reflexivity.
Qed.

(** C10: on every non-empty buffer and at every sample rate [ComputeFFT]
    returns a result, and its list of harmonics is empty. *)
Theorem ComputeFFT_harmonics_empty
  (x : float) (xs : list float) (sampleRate : float) :
  exists r,
    ComputeFFT Cos Log10 cmplxAbs Coefficients (x :: xs) sampleRate = Ok r
    /\ Harmonics r = [].
Proof.
  destruct (ComputeFFT_returns x xs sampleRate) as (magnitudes & Hr & _).
  eexists. split; [exact Hr | reflexivity].
Qed.

(** The peak extraction itself does report peaks when it is given a
    spectrum that has some. *)
Example findPeaksWithFundamental_reports_peaks :
  findPeaksWithFundamental
    [0; 300; 600; 900; 1200; 1500; 1800; 2100; 2400]%float
    [-100; -90; -20; -90; -95; -80; -10; -70; -100]%float
  = Ok [[1800; -10]; [600; -20]]%float.
Proof. vm_compute. reflexivity. Qed.

End Spectrum.

(** ** Reading a recording *)

Section Recording.
Import Go timeseries Spec.

Lemma le_uint_Ok (n : nat) :
  forall bs, (n <= length bs)%nat -> exists z, le_uint n bs = Ok z.
Proof.
  induction n as [|n IH]; intros bs Hlen; simpl; [eauto|].
  destruct bs as [|b bs]; simpl in Hlen; [lia|].
  destruct (IH bs) as (z & ->); [lia|]. simpl. eauto.
Qed.

Lemma slice_Ok {A} (l : list A) (lo hi : Z) :
  0 <= lo <= hi -> hi <= len l ->
  slice l lo hi = Ok (take (Z.to_nat (hi - lo)) (drop (Z.to_nat lo) l)).
Proof.
  intros Hlo Hhi. unfold slice.
  destruct (Z.ltb_spec lo 0); [lia|]. destruct (Z.ltb_spec hi lo); [lia|].
  destruct (Z.ltb_spec (len l) hi); [lia|]. reflexivity.
Qed.

(** For every file, [GetTotalFileLength] counts a sample per four bytes. *)
Lemma GetTotalFileLength_one (fs : filesystem) (path : string)
  (content : list Byte.byte) :
  fs path = Some content -> len content < 2 ^ 63 ->
  GetTotalFileLength fs [path] = Ok (Z.quot (len content) 4).
Proof.
  intros Hfs Hsize. unfold GetTotalFileLength, statSize. simpl.
  rewrite Hfs. simpl. do 2 f_equal.
  pose proof (len_nonneg content) as Hn.
  assert (0 <= Z.quot (len content) 4 <= len content).
  { rewrite Z.quot_div_nonneg by lia. split; [apply Z.div_pos; lia|].
    apply Z.div_le_upper_bound; lia. }
  unfold wrap64. rewrite Z.mod_small by lia. lia.
Qed.

(** For every file, [ReadBinaryFile] returns a value per eight bytes. *)
Lemma ReadBinaryFile_sample_count (fs : filesystem) (path : string)
  (content : list Byte.byte) :
  fs path = Some content ->
  exists data, ReadBinaryFile fs path = Ok data
               /\ len data = Z.quot (len content) 8.
Proof.
  intros Hfs. unfold ReadBinaryFile. rewrite Hfs.
  pose proof (len_nonneg content) as Hsize.
  set (n := Z.quot (len content) 8).
  assert (Hn : 0 <= n /\ 8 * n <= len content).
  { unfold n. rewrite Z.quot_div_nonneg by lia. split; [apply Z.div_pos; lia|].
    apply Z.mul_div_le. lia. }
  rewrite make_Ok by lia. cbn [mbind result_bind].
  rewrite len_replicate by lia.
  rewrite make_Ok by lia. cbn [mbind result_bind].
  unfold fileRead. rewrite length_replicate.
  change (Z.to_nat 0) with 0%nat. rewrite drop_0.
  set (got := take (Z.to_nat (8 * n)) content).
  assert (Hgot : len got = 8 * n).
  { unfold got, len. rewrite length_take. unfold len in Hn. lia. }
  rewrite drop_ge by (rewrite length_replicate; unfold len in Hgot; lia).
  rewrite app_nil_r. rewrite Hgot.
  destruct (Z.ltb_spec (8 * n) (8 * n)); [lia|].
  apply forRange_pres; [apply len_replicate; lia|].
  intros i data Hi Hdata.
  rewrite slice_Ok by lia. cbn [mbind result_bind].
  destruct (le_uint_Ok 8 (take (Z.to_nat ((i + 1) * 8 - i * 8))
                            (drop (Z.to_nat (i * 8)) got))) as (bits & Hbits).
  { rewrite length_take, length_drop. unfold len in Hgot. lia. }
  unfold Uint64. rewrite Hbits. cbn [mbind result_bind].
  rewrite store_Ok by lia. eexists. split; [reflexivity|].
  rewrite len_insert. exact Hdata.
Qed.

(** C1, on a recording of 400 bytes holding one hundred binary32 samples
    1.0: [GetTotalFileLength] counts 100 samples, [readBinaryFile] and
    [readPartialBinaryFile] return the 100 samples, and [ReadBinaryFile],
    the read of the FFT request, returns 50 values, none of them a sample
    of the recording. *)
Theorem ReadBinaryFile_halves_the_recording :
  len recording400 = 400
  /\ GetTotalFileLength oneRecording ["rec.bin"%string] = Ok 100
  /\ readBinaryFile oneRecording "rec.bin" 0 0
     = Ok (float64_of_int <$> seqZ 0 100, replicate 100 1%float)
  /\ fir.readPartialBinaryFile oneRecording "rec.bin" 100
     = Ok (replicate 100 1%float)
  /\ ReadBinaryFile oneRecording "rec.bin"
     = Ok (replicate 50 0x1.000003f8p-7%float).
Proof.
  split_and!; vm_compute; reflexivity.
Qed.

End Recording.

(** ** Reading recordings: counts, windows and prefixes *)

Section Readers.
Import Go timeseries Spec.

Lemma wrap64_small (z : Z) : - 2 ^ 63 <= z < 2 ^ 63 -> wrap64 z = z.
Proof. intros H. unfold wrap64. rewrite Z.mod_small by lia. lia. Qed.

Lemma quot4_bounds (n : Z) : 0 <= n -> 0 <= Z.quot n 4 /\ 4 * Z.quot n 4 <= n.
Proof.
  intros Hn. rewrite Z.quot_div_nonneg by lia.
  split; [apply Z.div_pos; lia | apply Z.mul_div_le; lia].
Qed.

Lemma totalSamples_nonneg (contents : list (list Byte.byte)) :
  0 <= totalSamples contents.
Proof.
  induction contents as [|c cs IH]; simpl; [lia|].
  pose proof (quot4_bounds (len c) (len_nonneg c)). lia.
Qed.

Lemma GetTotalFileLength_from (fs : filesystem) (paths : list string)
  (contents : list (list Byte.byte)) :
  Forall2 (fun path content => fs path = Some content) paths contents ->
  forall acc, 0 <= acc -> acc + totalSamples contents < 2 ^ 63 ->
    forEach paths
      (fun filePath totalLength =>
         size ← statSize fs filePath "error getting file info";
         Ok (wrap64 (totalLength + Z.quot size 4)))
      acc
    = Ok (acc + totalSamples contents).
Proof.
  induction 1 as [|p c ps cs Hp _ IH]; intros acc Hacc Hsum; simpl.
  - f_equal. lia.
  - simpl in Hsum. unfold statSize. rewrite Hp. cbn [mbind result_bind].
    pose proof (quot4_bounds (len c) (len_nonneg c)).
    pose proof (totalSamples_nonneg cs).
    rewrite wrap64_small by lia. rewrite IH by lia. f_equal. lia.
Qed.

(** [GetTotalFileLength] adds up a sample per four bytes of every file. *)
Theorem GetTotalFileLength_counts_every_file (fs : filesystem)
  (paths : list string) (contents : list (list Byte.byte)) :
  Forall2 (fun path content => fs path = Some content) paths contents ->
  totalSamples contents < 2 ^ 63 ->
  GetTotalFileLength fs paths = Ok (totalSamples contents).
Proof.
  intros Hfiles Hsum. unfold GetTotalFileLength.
  rewrite (GetTotalFileLength_from fs paths contents Hfiles) by lia.
  reflexivity.
Qed.

(** [GetTotalFileLength_counts_every_file] at a concrete input. *)
Lemma GetTotalFileLength_counts_every_file_witness :
  GetTotalFileLength oneRecording ["rec.bin"; "rec.bin"]%string
  = Ok (totalSamples [recording400; recording400]).
Proof.
  apply (GetTotalFileLength_counts_every_file oneRecording
           ["rec.bin"; "rec.bin"]%string [recording400; recording400]).
  - repeat constructor.
  - vm_compute. reflexivity.
Defined.

(** One file that cannot be examined makes [GetTotalFileLength] fail,
    wherever it stands in the list and whatever the other files hold. *)
Theorem GetTotalFileLength_missing_file (fs : filesystem)
  (paths : list string) (path : string) :
  path ∈ paths -> fs path = None ->
  GetTotalFileLength fs paths = Fail (Error "error getting file info").
Proof.
  intros Hin Hnone. unfold GetTotalFileLength, statSize. generalize 0 as acc.
  induction paths as [|p ps IH]; intros acc; [inversion Hin|].
  cbn [forEach].
  destruct (fs p) as [c|] eqn:Hp; cbn [mbind result_bind]; [|reflexivity].
  apply IH. apply elem_of_cons in Hin as [->|Hin]; [congruence | exact Hin].
Qed.

(** [GetTotalFileLength_missing_file] at a concrete input. *)
Lemma GetTotalFileLength_missing_file_witness :
  GetTotalFileLength oneRecording ["rec.bin"; "gone.bin"; "rec.bin"]%string
  = Fail (Error "error getting file info").
Proof.
  apply (GetTotalFileLength_missing_file oneRecording _ "gone.bin"%string).
  - apply elem_of_cons. right. apply elem_of_cons. left. reflexivity.
  - reflexivity.
Defined.

Lemma le_uint_take (n : nat) :
  forall bs, le_uint n (take n bs) = le_uint n bs.
Proof.
  induction n as [|n IH]; intros [|b bs]; simpl; try reflexivity.
  rewrite IH. reflexivity.
Qed.

(** Decoding sample [i] of a buffer that starts with the [n] samples of
    the recording from sample [s] on. *)
Lemma decodeFloat32_at (content pad : list Byte.byte) (s n i : Z) :
  0 <= s -> 0 <= i < n -> 4 * (s + n) <= len content ->
  decodeFloat32
    (take (Z.to_nat (4 * n)) (drop (Z.to_nat (4 * s)) content) ++ pad) i
  = Ok (sampleAt content (s + i)).
Proof.
  intros Hs Hi Hlen. unfold decodeFloat32, sampleAt, len in *.
  set (got := take (Z.to_nat (4 * n)) (drop (Z.to_nat (4 * s)) content)).
  assert (Hgot : length got = Z.to_nat (4 * n)).
  { unfold got. rewrite length_take, length_drop. lia. }
  rewrite slice_Ok.
  2: lia.
  2:{ unfold len. rewrite length_app. lia. }
  cbn [mbind result_bind].
  replace (Z.to_nat ((i + 1) * 4 - i * 4)) with 4%nat by lia.
  rewrite drop_app_le by lia.
  rewrite take_app_le by (rewrite length_drop; lia).
  unfold got.
  replace (Z.to_nat (4 * n))
    with (Z.to_nat (i * 4) + (Z.to_nat (4 * n) - Z.to_nat (i * 4)))%nat by lia.
  rewrite <- take_drop_commute.
  rewrite take_take. rewrite drop_drop.
  replace (4 `min` (Z.to_nat (4 * n) - Z.to_nat (i * 4)))%nat with 4%nat by lia.
  replace (Z.to_nat (4 * s) + Z.to_nat (i * 4))%nat
    with (Z.to_nat (4 * (s + i))) by lia.
  unfold Uint32. rewrite (le_uint_take 4).
  destruct (le_uint_Ok 4 (drop (Z.to_nat (4 * (s + i))) content)) as (z & ->).
  { rewrite length_drop. lia. }
  reflexivity.
Qed.

(** A loop whose turn [i] stores [h i] and [g i] into cell [i] of two
    slices of [n] cells. *)
Lemma forRange_tabulate_pair {A B} (n : Z)
  (body : Z -> list A * list B -> result (list A * list B))
  (h : Z -> A) (g : Z -> B) (r0 : list A) (s0 : list B) :
  len r0 = n -> len s0 = n ->
  (forall i r s, 0 <= i < n -> len r = n -> len s = n ->
     body i (r, s) = Ok (<[Z.to_nat i := h i]> r, <[Z.to_nat i := g i]> s)) ->
  forRange 0 n body (r0, s0) = Ok (h <$> seqZ 0 n, g <$> seqZ 0 n).
Proof.
  intros Hr0 Hs0 Hbody.
  assert (Hn : 0 <= n) by (rewrite <- Hr0; apply len_nonneg).
  assert (Hstep : forall C (k : Z -> C) (l : list C) (j : Z),
    0 <= j < n -> len l = n ->
    <[Z.to_nat j := k j]> ((k <$> seqZ 0 j) ++ drop (Z.to_nat j) l)
    = (k <$> seqZ 0 (j + 1)) ++ drop (Z.to_nat (j + 1)) l).
  { intros C k l j Hj Hl.
    assert (Hpre : length (k <$> seqZ 0 j) = Z.to_nat j).
    { rewrite length_fmap, length_seqZ. reflexivity. }
    destruct (lookup_lt_is_Some_2 l (Z.to_nat j)) as [x Hx].
    { unfold len in Hl. lia. }
    rewrite insert_app_r_alt by lia. rewrite Hpre, Nat.sub_diag.
    rewrite (drop_S _ _ _ Hx). simpl.
    rewrite seqZ_snoc by lia. rewrite fmap_app. simpl.
    rewrite <- app_assoc. simpl.
    replace (Z.to_nat (j + 1)) with (S (Z.to_nat j)) by lia. reflexivity. }
  assert (Hlen : forall C (k : Z -> C) (l : list C) (j : Z),
    0 <= j < n -> len l = n ->
    len ((k <$> seqZ 0 j) ++ drop (Z.to_nat j) l) = n).
  { intros C k l j Hj Hl. unfold len in *.
    rewrite length_app, length_fmap, length_seqZ, length_drop. lia. }
  destruct (forRange_inv
    (fun j (rs : list A * list B) =>
       rs = ((h <$> seqZ 0 j) ++ drop (Z.to_nat j) r0,
             (g <$> seqZ 0 j) ++ drop (Z.to_nat j) s0))
    body 0 n (r0, s0) Hn) as (rs & Hrs & Hfinal).
  - cbv beta. rewrite seqZ_nil by lia. reflexivity.
  - intros j t Hj ->. eexists. split.
    + apply Hbody; [lia | apply Hlen; assumption | apply Hlen; assumption].
    + rewrite !Hstep by assumption. reflexivity.
  - rewrite Hrs, Hfinal.
    rewrite !drop_ge by (unfold len in *; lia). rewrite !app_nil_r. reflexivity.
Qed.

(** What [readBinaryFile] returns on a file that exists. *)
Lemma readBinaryFile_spec (fs : filesystem) (path : string)
  (content : list Byte.byte) (startIndex endIndex : Z) :
  fs path = Some content ->
  let totalPoints := Z.quot (len content) 4 in
  let first := Z.max 0 startIndex in
  let last :=
    if (endIndex <=? 0) || (totalPoints <? endIndex) then totalPoints
    else endIndex in
  readBinaryFile fs path startIndex endIndex
  = if last <=? first then Fail (Error "invalid index range")
    else Ok ((fun i => float64_of_int (first + i)) <$> seqZ 0 (last - first),
             (fun i => sampleAt content (first + i)) <$> seqZ 0 (last - first)).
Proof.
  intros Hfs totalPoints first last. unfold readBinaryFile. rewrite Hfs.
  fold totalPoints.
  replace (if startIndex <? 0 then 0 else startIndex) with first
    by (unfold first; destruct (Z.ltb_spec startIndex 0); lia).
  fold last.
  destruct (Z.leb_spec last first) as [Hle|Hlt]; [reflexivity|].
  pose proof (quot4_bounds (len content) (len_nonneg content)) as Hq.
  fold totalPoints in Hq.
  assert (Hfirst : 0 <= first) by (unfold first; lia).
  assert (Hlast : last <= totalPoints).
  { unfold last. destruct (Z.leb_spec endIndex 0); simpl; [lia|].
    destruct (Z.ltb_spec totalPoints endIndex); lia. }
  set (n := last - first) in *.
  rewrite !(make_Ok 0%float n) by lia. cbn [mbind result_bind].
  destruct (Z.leb_spec (len content) (first * 4)); [lia|].
  rewrite make_Ok by lia. cbn [mbind result_bind].
  unfold fileRead. rewrite length_replicate.
  replace (first * 4) with (4 * first) by lia.
  replace (n * 4) with (4 * n) by lia.
  set (got := take (Z.to_nat (4 * n)) (drop (Z.to_nat (4 * first)) content)).
  assert (Hgot : len got = 4 * n).
  { unfold got, len. rewrite length_take, length_drop. unfold len in *. lia. }
  rewrite Hgot.
  replace (Z.quot (4 * n) 4) with n
    by (rewrite Z.mul_comm, Z.quot_mul; lia).
  rewrite Z.ltb_irrefl. cbn [mbind result_bind].
  apply forRange_tabulate_pair; try (apply len_replicate; lia).
  intros i r s Hi Hr Hs.
  unfold got. rewrite decodeFloat32_at by lia.
  cbn [mbind result_bind]. rewrite !store_Ok by lia. reflexivity.
Qed.

(** On a file that exists, [readBinaryFile] clamps the window to the
    recording and returns exactly the samples of the clamped window, each
    with its sample number as time; its only failure is an empty window,
    and it never reports a seek beyond the file. *)
Theorem readBinaryFile_returns_window (fs : filesystem) (path : string)
  (content : list Byte.byte) (startIndex endIndex : Z) :
  fs path = Some content ->
  let totalPoints := Z.quot (len content) 4 in
  let first := Z.max 0 startIndex in
  let last :=
    if (endIndex <=? 0) || (totalPoints <? endIndex) then totalPoints
    else endIndex in
  readBinaryFile fs path startIndex endIndex
  = if last <=? first then Fail (Error "invalid index range")
    else Ok ((fun i => float64_of_int (first + i)) <$> seqZ 0 (last - first),
             (fun i => sampleAt content (first + i)) <$> seqZ 0 (last - first)).
Proof. exact (readBinaryFile_spec fs path content startIndex endIndex). Qed.

(** [readBinaryFile_returns_window] at a concrete input. *)
Lemma readBinaryFile_returns_window_witness :
  readBinaryFile oneRecording "rec.bin" (-3) 7
  = Ok ((fun i => float64_of_int (0 + i)) <$> seqZ 0 (7 - 0),
        (fun i => sampleAt recording400 (0 + i)) <$> seqZ 0 (7 - 0)).
Proof.
  exact (readBinaryFile_returns_window oneRecording "rec.bin" recording400
           (-3) 7 eq_refl).
Defined.

(** What [readPartialBinaryFile] returns on a file that exists, whatever
    the number asked for: the byte count is the wrapped product. *)
Lemma readPartialBinaryFile_wrapped (fs : filesystem) (path : string)
  (content : list Byte.byte) (numSamples : Z) :
  fs path = Some content ->
  fir.readPartialBinaryFile fs path numSamples
  = let bytesToRead := wrap64 (numSamples * 4) in
    if bytesToRead <? 0 then Fail NegativeLen
    else Ok (sampleAt content
               <$> seqZ 0 (Z.min (Z.quot bytesToRead 4)
                                 (Z.quot (len content) 4))).
Proof.
  intros Hfs. unfold fir.readPartialBinaryFile, make. rewrite Hfs.
  cbv zeta. set (bytes := wrap64 (numSamples * 4)).
  destruct (Z.ltb_spec bytes 0) as [Hneg|Hpos]; [reflexivity|].
  cbn [mbind result_bind].
  pose proof (quot4_bounds (len content) (len_nonneg content)) as Hq.
  pose proof (quot4_bounds bytes Hpos) as Hb.
  set (total := Z.quot (len content) 4) in *.
  set (m := Z.min (Z.quot bytes 4) total).
  unfold fileRead. rewrite length_replicate.
  change (Z.to_nat 0) with 0%nat. rewrite drop_0.
  set (got := take (Z.to_nat bytes) content).
  set (pad := drop (length got) (replicate (Z.to_nat bytes) Byte.x00)).
  assert (Hgot : len got = Z.min bytes (len content)).
  { unfold got, len. rewrite length_take. lia. }
  assert (Hsamples : Z.quot (len got) 4 = m).
  { rewrite Hgot. unfold m, total.
    destruct (Z.le_gt_cases bytes (len content)) as [Hle|Hgt].
    - rewrite Z.min_l by lia. rewrite Z.min_l; [reflexivity|].
      apply Z.quot_le_mono; lia.
    - rewrite Z.min_r by lia. rewrite Z.min_r; [reflexivity|].
      apply Z.quot_le_mono; lia. }
  rewrite Hsamples.
  assert (Hm : 0 <= m /\ 4 * m <= len got) by (unfold m; lia).
  destruct (Z.ltb_spec m 0); [lia|]. cbn [mbind result_bind].
  apply forRange_tabulate; [apply len_replicate; lia|].
  intros i r Hi Hr.
  assert (Hdecode : decodeFloat32 (got ++ pad) i = Ok (sampleAt content i)).
  { rewrite <- (take_drop (Z.to_nat (4 * m)) got), <- app_assoc.
    unfold got at 1. rewrite take_take.
    replace (Z.to_nat (4 * m) `min` Z.to_nat bytes)%nat
      with (Z.to_nat (4 * m)) by lia.
    rewrite <- (drop_0 content) at 1. change 0%nat with (Z.to_nat (4 * 0)).
    rewrite decodeFloat32_at by (unfold len in *; lia). reflexivity. }
  unfold decodeFloat32 in Hdecode.
  destruct (slice (got ++ pad) (i * 4) ((i + 1) * 4)) as [bs|]; [|discriminate].
  cbn [mbind result_bind] in *.
  destruct (Uint32 bs) as [bits|]; [|discriminate].
  cbn [mbind result_bind] in *. injection Hdecode as ->.
  apply store_Ok. lia.
Qed.

(** The same for a number whose byte count fits an [int]. *)
Lemma readPartialBinaryFile_spec (fs : filesystem) (path : string)
  (content : list Byte.byte) (numSamples : Z) :
  fs path = Some content ->
  - 2 ^ 61 <= numSamples < 2 ^ 61 ->
  fir.readPartialBinaryFile fs path numSamples
  = if numSamples <? 0 then Fail NegativeLen
    else Ok (sampleAt content
               <$> seqZ 0 (Z.min numSamples (Z.quot (len content) 4))).
Proof.
  intros Hfs Hn.
  rewrite (readPartialBinaryFile_wrapped fs path content numSamples Hfs).
  cbv zeta. rewrite wrap64_small by lia.
  destruct (Z.ltb_spec (numSamples * 4) 0), (Z.ltb_spec numSamples 0);
    try lia; [reflexivity|].
  rewrite Z.quot_mul by lia. reflexivity.
Qed.

(** On a file that exists, and for a number of samples whose byte count
    [numSamples * 4] fits an [int] (from [-2^61] up to [2^61 - 1]),
    [readPartialBinaryFile] returns the first [numSamples] samples of the
    recording, or all of them when the file holds fewer; a negative number
    stops at the allocation of the buffer. *)
Theorem readPartialBinaryFile_prefix (fs : filesystem) (path : string)
  (content : list Byte.byte) (numSamples : Z) :
  fs path = Some content ->
  - 2 ^ 61 <= numSamples < 2 ^ 61 ->
  fir.readPartialBinaryFile fs path numSamples
  = if numSamples <? 0 then Fail NegativeLen
    else Ok (sampleAt content
               <$> seqZ 0 (Z.min numSamples (Z.quot (len content) 4))).
Proof. exact (readPartialBinaryFile_spec fs path content numSamples). Qed.

(** [readPartialBinaryFile_prefix] at a concrete input. *)
Lemma readPartialBinaryFile_prefix_witness :
  fir.readPartialBinaryFile oneRecording "rec.bin" 510
  = Ok (sampleAt recording400 <$> seqZ 0 (Z.min 510 (Z.quot (len recording400) 4))).
Proof.
  apply (readPartialBinaryFile_prefix oneRecording "rec.bin" recording400 510).
  - reflexivity.
  - lia.
Defined.

(** The two readers of binary32 recordings agree: for [1 <= n < 2^61]
    the first [n] samples that [readPartialBinaryFile] returns are the
    values that [readBinaryFile] returns for the window [0, n). *)
Theorem readers_agree_on_prefix (fs : filesystem) (path : string)
  (content : list Byte.byte) (n : Z) :
  fs path = Some content -> 4 <= len content -> 1 <= n < 2 ^ 61 ->
  exists times values,
    readBinaryFile fs path 0 n = Ok (times, values)
    /\ fir.readPartialBinaryFile fs path n = Ok values
    /\ values = sampleAt content <$> seqZ 0 (Z.min n (Z.quot (len content) 4))
    /\ len values = Z.min n (Z.quot (len content) 4).
Proof.
  intros Hfs Hsize Hn.
  pose proof (quot4_bounds (len content) (len_nonneg content)) as Hq.
  assert (Htotal : 1 <= Z.quot (len content) 4).
  { rewrite Z.quot_div_nonneg by lia. apply Z.div_le_lower_bound; lia. }
  rewrite (readBinaryFile_spec fs path content 0 n Hfs).
  rewrite (readPartialBinaryFile_spec fs path content n Hfs) by lia.
  destruct (Z.ltb_spec n 0); [lia|]. destruct (Z.leb_spec n 0); [lia|].
  cbn [orb]. change (Z.max 0 0) with 0.
  set (total := Z.quot (len content) 4) in *.
  replace (if total <? n then total else n) with (Z.min n total)
    by (destruct (Z.ltb_spec total n); lia).
  destruct (Z.leb_spec (Z.min n total) 0); [lia|].
  rewrite Z.sub_0_r. eexists _, _.
  split_and!; [reflexivity | reflexivity | reflexivity |].
  apply len_tabulate. lia.
Qed.

(** [readers_agree_on_prefix] at a concrete input. *)
Lemma readers_agree_on_prefix_witness :
  exists times values,
    readBinaryFile oneRecording "rec.bin" 0 30 = Ok (times, values)
    /\ fir.readPartialBinaryFile oneRecording "rec.bin" 30 = Ok values
    /\ values = sampleAt recording400
                  <$> seqZ 0 (Z.min 30 (Z.quot (len recording400) 4))
    /\ len values = Z.min 30 (Z.quot (len recording400) 4).
Proof.
  apply (readers_agree_on_prefix oneRecording "rec.bin" recording400 30).
  - reflexivity.
  - vm_compute. discriminate.
  - lia.
Defined.

(** [ReadBinaryFile] fails on a file that does not exist; on one that
    does it never fails, and returns one value per eight bytes, whatever
    the length of the file. *)
Theorem ReadBinaryFile_eight_bytes_a_value (fs : filesystem) (path : string) :
  match fs path with
  | None => ReadBinaryFile fs path = Fail (Error "error opening file")
  | Some content =>
      exists data, ReadBinaryFile fs path = Ok data
                   /\ len data = Z.quot (len content) 8
  end.
Proof.
  destruct (fs path) as [content|] eqn:Hfs.
  - exact (ReadBinaryFile_sample_count fs path content Hfs).
  - unfold ReadBinaryFile. rewrite Hfs. reflexivity.
Qed.

End Readers.

(** ** [timeseries]: the decimated series as a whole *)

Section DownsampleOrder.
Import Go timeseries Spec.

Lemma insertInt_sorted (x : Z) (l : list Z) :
  StronglySorted Z.le l -> StronglySorted Z.le (insertInt x l).
Proof.
  induction 1 as [|y l Hl IH Hy]; simpl.
  - repeat constructor.
  - destruct (Z.leb_spec x y).
    + constructor; [constructor; assumption|].
      constructor; [lia|]. eapply Forall_impl; [exact Hy|].
      cbv beta. intros. lia.
    + constructor; [exact IH|].
      apply Forall_forall. intros z Hz.
      rewrite insertInt_perm in Hz. apply elem_of_cons in Hz as [->|Hz]; [lia|].
      rewrite Forall_forall in Hy. apply Hy. exact Hz.
Qed.

Lemma sortInts_sorted (l : list Z) : StronglySorted Z.le (sortInts l).
Proof.
  induction l as [|x l IH]; simpl; [constructor|].
  apply insertInt_sorted. exact IH.
Qed.

Lemma sorted_NoDup_strict (l : list Z) :
  StronglySorted Z.le l -> NoDup l -> StronglySorted Z.lt l.
Proof.
  induction 1 as [|x l Hl IH Hx]; intros Hnd; [constructor|].
  apply NoDup_cons in Hnd as [Hnotin Hnd].
  constructor; [apply IH; exact Hnd|].
  apply Forall_forall. intros y Hy. rewrite Forall_forall in Hx.
  specialize (Hx y Hy). assert (x <> y) by (intros ->; contradiction). lia.
Qed.

Lemma binIndices_NoDup (start : Z) (st : binScan) (avg : float) :
  NoDup (binIndices start st avg).
Proof.
  unfold binIndices.
  destruct (Z.eqb_spec (minIdx st) start), (Z.eqb_spec (maxIdx st) start),
    (Z.eqb_spec (maxIdx st) (minIdx st));
    cbn [negb andb app];
    repeat match goal with
           | |- context [if gtb ?a ?b then _ else _] => destruct (gtb a b)
           end;
    cbn [app];
    repeat first [ apply NoDup_nil_2
                 | apply NoDup_cons_2
                 | apply not_elem_of_nil
                 | apply not_elem_of_cons; split ];
    congruence.
Qed.







(** The input points a bin keeps are emitted in increasing index order,
    none of them twice: at most three points of the bin, then at most one
    average point. *)
Theorem downsample_bin_in_index_order
  (times values : list float) (start end_ : Z) :
  0 <= start < end_ -> end_ <= len values -> end_ <= len times ->
  exists (kept : list Z) (tailT tailV : list float),
    processBin times values start end_
    = Ok ((elem times <$> kept) ++ tailT, (elem values <$> kept) ++ tailV)
    /\ StronglySorted Z.lt kept
    /\ Forall (fun i => start <= i < end_) kept
    /\ (length kept <= 3)%nat
    /\ (length tailT <= 1)%nat /\ length tailV = length tailT.
Proof.
  intros Hbin Hv Ht.
  destruct (processBin_shape times values start end_ Hbin Hv Ht)
    as (st & _ & Hinv & Hshape).
  cbv zeta in Hshape. destruct Hshape as (tailT & tailV & Hp & HtT & HtV & _).
  set (avg := (sum st / float64_of_int (count st))%float) in *.
  exists (sortInts (binIndices start st avg)), tailT, tailV.
  destruct (binIndices_members start st avg) as [Hmem Hlen].
  destruct Hinv as (Hmin & Hmax & _).
  split_and!; try assumption.
  - apply sorted_NoDup_strict; [apply sortInts_sorted|].
    rewrite sortInts_perm. apply binIndices_NoDup.
  - rewrite sortInts_perm. eapply Forall_impl; [exact Hmem|].
    cbv beta. intros i [->|[->| ->]]; lia.
  - rewrite sortInts_perm. exact Hlen.
Qed.

(** [downsample_bin_in_index_order] at a concrete input. *)
Lemma downsample_bin_in_index_order_witness :
  let times := [0; 1; 2; 3; 4]%float in
  let values := [5; 9; 1; 6; 5]%float in
  exists (kept : list Z) (tailT tailV : list float),
    processBin times values 0 5
    = Ok ((elem times <$> kept) ++ tailT, (elem values <$> kept) ++ tailV)
    /\ StronglySorted Z.lt kept
    /\ Forall (fun i => 0 <= i < 5) kept
    /\ (length kept <= 3)%nat
    /\ (length tailT <= 1)%nat /\ length tailV = length tailT.
Proof.
  cbv zeta.
  apply (downsample_bin_in_index_order
           [0; 1; 2; 3; 4]%float [5; 9; 1; 6; 5]%float 0 5).
  - lia.
  - vm_compute. discriminate.
  - vm_compute. discriminate.
Defined.

Lemma dynamicDownsample_total (times values : list float) (binSize : Z) :
  len times = len values ->
  exists outT outV,
    dynamicDownsample times values binSize = Ok (outT, outV)
    /\ len outV = len outT
    /\ (2 < len times -> 1 < binSize ->
        len outT <= 4 * ((len times + binSize - 1) `div` binSize)).
Proof.
  intros Hlen. unfold dynamicDownsample.
  destruct (Z.leb_spec (len times) 2) as [|H2].
  { exists times, values. split_and!; [reflexivity | lia | lia]. }
  destruct (Z.leb_spec binSize 1) as [|Hb]; cbn [orb].
  { exists times, values. split_and!; [reflexivity | lia | lia]. }
  destruct (binLoop_bins times values binSize ltac:(lia) ltac:(lia)
              (Z.to_nat (len times)) 0 ([], [])) as (cs & Hcs & Hloop).
  - lia.
  - assert ((len times + binSize - 1) `div` binSize <= len times); [|lia].
    apply Z.lt_succ_r. apply Z.div_lt_upper_bound; nia.
  - change (0 * binSize) with 0 in Hloop. rewrite Hloop. cbn [fst snd app].
    eexists _, _. split; [reflexivity|].
    rewrite Z.sub_0_r in Hcs.
    assert (Hnb : 0 <= (len times + binSize - 1) `div` binSize)
      by (apply Z.div_pos; lia).
    apply Forall2_length in Hcs as Hcount.
    rewrite length_fmap, length_seqZ in Hcount.
    assert (Hall : Forall (fun c : list float * list float =>
                             (length c.1 <= 4)%nat /\ length c.2 = length c.1) cs).
    { clear -Hcs. induction Hcs as [|b c bs cs' (_ & H4 & Heq) _ IH];
        constructor; auto. }
    assert (Hsum : (length (concat (snd <$> cs)) = length (concat (fst <$> cs))
                    /\ length (concat (fst <$> cs)) <= 4 * length cs)%nat).
    { clear -Hall. induction Hall as [|c cs' (H4 & Heq) _ [IH1 IH2]].
      - split; [reflexivity | cbn; lia].
      - rewrite !fmap_cons. cbn [concat]. rewrite !length_app, length_cons.
        lia. }
    unfold len in *. split; [lia|]. intros _ _. lia.
Qed.

(** On a series with as many values as times, [dynamicDownsample] never
    fails; it returns as many values as times, and past its guard at most
    four points for each bin. *)
Theorem dynamicDownsample_total_and_bounded
  (times values : list float) (binSize : Z) :
  len times = len values ->
  exists outT outV,
    dynamicDownsample times values binSize = Ok (outT, outV)
    /\ len outV = len outT
    /\ (2 < len times -> 1 < binSize ->
        len outT <= 4 * ((len times + binSize - 1) `div` binSize)).
Proof. exact (dynamicDownsample_total times values binSize). Qed.

(** [dynamicDownsample_total_and_bounded] at a concrete input. *)
Lemma dynamicDownsample_total_and_bounded_witness :
  let times := [0; 1; 2; 3; 4; 5; 6]%float in
  let values := [5; 9; 1; 6; 5; 2; 8]%float in
  exists outT outV,
    dynamicDownsample times values 4 = Ok (outT, outV)
    /\ len outV = len outT
    /\ (2 < len times -> 1 < 4 ->
        len outT <= 4 * ((len times + 4 - 1) `div` 4)).
Proof.
  cbv zeta.
  apply (dynamicDownsample_total_and_bounded
           [0; 1; 2; 3; 4; 5; 6]%float [5; 9; 1; 6; 5; 2; 8]%float 4).
  reflexivity.
Defined.

End DownsampleOrder.

(** ** [timeseries]: the window of a plot request *)

Section View.
Import Go timeseries Spec.

(** The bin size of every window of at most 2000 points, by computation. *)
Lemma viewBinSize_table :
  forallb (fun p => viewBinSize 0 p =? 1) (seqZ 0 2001) = true.
Proof. vm_compute. reflexivity. Qed.

Lemma viewBinSize_small (startIndex endIndex : Z) :
  0 <= endIndex - startIndex <= 2000 -> viewBinSize startIndex endIndex = 1.
Proof.
  intros Hp.
  pose proof viewBinSize_table as Htable.
  rewrite forallb_forall in Htable.
  specialize (Htable (endIndex - startIndex)).
  rewrite <- list_elem_of_In, elem_of_seqZ in Htable.
  specialize (Htable ltac:(lia)). apply Z.eqb_eq in Htable.
  unfold viewBinSize in *. rewrite Z.sub_0_r in Htable. exact Htable.
Qed.

(** The loop of [ReadAndDownsample] over the files fills the result in
    order and stops at the first file that fails. *)
Lemma ReadAndDownsample_loop (fs : filesystem) (startIndex endIndex binSize : Z)
  (paths : list string) :
  forall (done : list FileData),
    forEach paths
      (fun filePath '(i, result) =>
         '(times, values) ← readBinaryFile fs filePath startIndex endIndex;
         '(times, values) ←
           (if 1 <? binSize then dynamicDownsample times values binSize
            else Ok (times, values));
         result ← store result i (mkFileData times values);
         Ok (i + 1, result))
      (len done, done ++ replicate (length paths) (mkFileData [] []))
    = files ← mapM
        (fun filePath =>
           '(times, values) ← readBinaryFile fs filePath startIndex endIndex;
           '(times, values) ←
             (if 1 <? binSize then dynamicDownsample times values binSize
              else Ok (times, values));
           Ok (mkFileData times values))
        paths;
      Ok (len done + len paths, done ++ files).
Proof.
  induction paths as [|p ps IH]; intros done.
  - cbn. rewrite app_nil_r. do 2 f_equal. unfold len. simpl. lia.
  - cbn [forEach mapM length replicate].
    destruct (readBinaryFile fs p startIndex endIndex) as [[times values]|f];
      cbn [mbind result_bind]; [|reflexivity].
    destruct (if 1 <? binSize then dynamicDownsample times values binSize
              else Ok (times, values)) as [[times' values']|f];
      cbn [mbind result_bind]; [|reflexivity].
    rewrite store_Ok.
    2:{ unfold len. rewrite length_app. cbn [length]. lia. }
    cbn [mbind result_bind].
    replace (Z.to_nat (len done)) with (length done) by (unfold len; lia).
    rewrite insert_app_r_alt, Nat.sub_diag by lia. cbn [insert list_insert].
    rewrite (cons_middle _ done), app_assoc.
    replace (len done + 1) with (len (done ++ [mkFileData times' values']))
      by (rewrite len_app; reflexivity).
    rewrite IH.
    destruct (mapM _ ps) as [files|f]; cbn [mbind result_bind mret result_ret];
      [|reflexivity].
    rewrite <- app_assoc. do 2 f_equal. rewrite len_app. unfold len. simpl. lia.
Qed.

(** A window of at most 2000 points is never decimated:
    [ReadAndDownsample] returns, file after file, exactly what
    [readBinaryFile] reads, and fails as the first file that cannot be read
    fails, whatever [decimationFactor] is. *)
Theorem ReadAndDownsample_small_window_is_raw (fs : filesystem)
  (paths : list string) (startIndex endIndex decimationFactor : Z) :
  0 <= endIndex - startIndex <= 2000 ->
  ReadAndDownsample fs paths startIndex endIndex decimationFactor
  = mapM
      (fun filePath =>
         '(times, values) ← readBinaryFile fs filePath startIndex endIndex;
         Ok (mkFileData times values))
      paths.
Proof.
  intros Hp. unfold ReadAndDownsample.
  rewrite make_Ok by apply len_nonneg. cbn [mbind result_bind].
  unfold len at 1. rewrite Nat2Z.id.
  pose proof (ReadAndDownsample_loop fs startIndex endIndex
                (viewBinSize startIndex endIndex) paths []) as Hloop.
  cbn [app] in Hloop. change (len (@nil FileData)) with 0 in Hloop.
  rewrite Hloop. clear Hloop.
  rewrite viewBinSize_small by exact Hp. change (1 <? 1) with false.
  cbv iota.
  replace (mapM _ paths) with
    (mapM (fun filePath =>
             '(times, values) ← readBinaryFile fs filePath startIndex endIndex;
             Ok (mkFileData times values)) paths).
  - destruct (mapM _ paths); reflexivity.
  - generalize paths as l. induction l as [|p l IH]; [reflexivity|].
    cbn [mapM]. rewrite IH.
    destruct (readBinaryFile fs p startIndex endIndex) as [[t v]|]; reflexivity.
Qed.

(** [ReadAndDownsample_small_window_is_raw] at a concrete input. *)
Lemma ReadAndDownsample_small_window_is_raw_witness :
  ReadAndDownsample oneRecording ["rec.bin"; "rec.bin"]%string 10 60 8
  = mapM
      (fun filePath =>
         '(times, values) ← readBinaryFile oneRecording filePath 10 60;
         Ok (mkFileData times values))
      ["rec.bin"; "rec.bin"]%string.
Proof.
  apply (ReadAndDownsample_small_window_is_raw oneRecording
           ["rec.bin"; "rec.bin"]%string 10 60 8).
  lia.
Defined.



End View.

(** ** [timeseries]: rounding up to a power of two *)

Section PowerOfTwo.
Import Go timeseries Spec.

(** One smearing step [y |= y >> w] doubles the reach of every set bit. *)
Lemma smear_step (x y w : Z) :
  0 < w ->
  (forall i, 0 <= i ->
     Z.testbit y i = true
     <-> exists j, 0 <= j < w /\ Z.testbit x (i + j) = true) ->
  forall i, 0 <= i ->
    Z.testbit (Z.lor y (Z.shiftr y w)) i = true
    <-> exists j, 0 <= j < 2 * w /\ Z.testbit x (i + j) = true.
Proof.
  intros Hw Hy i Hi.
  rewrite Z.lor_spec, orb_true_iff, Z.shiftr_spec by lia.
  rewrite !Hy by lia. split.
  - intros [(j & Hj & Hb)|(j & Hj & Hb)].
    + exists j. split; [lia | exact Hb].
    + exists (w + j). split; [lia|].
      replace (i + (w + j)) with (i + w + j) by lia. exact Hb.
  - intros (j & Hj & Hb). destruct (Z.lt_ge_cases j w).
    + left. exists j. split; [lia | exact Hb].
    + right. exists (j - w). split; [lia|].
      replace (i + w + (j - w)) with (i + j) by lia. exact Hb.
Qed.

(** Smearing a positive number below 2^32 sets every bit below its
    highest one. *)
Lemma smear_ones (x : Z) :
  0 < x < 2 ^ 32 ->
  let y := Z.lor x (Z.shiftr x 1) in
  let y := Z.lor y (Z.shiftr y 2) in
  let y := Z.lor y (Z.shiftr y 4) in
  let y := Z.lor y (Z.shiftr y 8) in
  let y := Z.lor y (Z.shiftr y 16) in
  y = Z.ones (Z.log2 x + 1).
Proof.
  intros Hx. cbv zeta.
  assert (Hlog : 0 <= Z.log2 x < 32).
  { split; [apply Z.log2_nonneg | apply Z.log2_lt_pow2; lia]. }
  apply Z.bits_inj'. intros i Hi. apply eq_iff_eq_true.
  rewrite (smear_step x _ 16); [|lia| |lia].
  2: apply (smear_step x _ 8); [lia|].
  2: apply (smear_step x _ 4); [lia|].
  2: apply (smear_step x _ 2); [lia|].
  2: apply (smear_step x x 1); [lia|].
  2:{ intros k Hk. split.
      - intros Hb. exists 0. split; [lia|]. rewrite Z.add_0_r. exact Hb.
      - intros (j & Hj & Hb). replace (k + j) with k in Hb by lia. exact Hb. }
  split.
  - intros (j & Hj & Hb). apply Z.ones_spec_low.
    destruct (Z.lt_ge_cases (Z.log2 x) (i + j)) as [Hhigh|Hlow]; [|lia].
    rewrite Z.bits_above_log2 in Hb by lia. discriminate.
  - intros Hb. destruct (Z.lt_ge_cases i (Z.log2 x + 1)) as [Hlow|Hhigh].
    + exists (Z.log2 x - i). split; [lia|].
      replace (i + (Z.log2 x - i)) with (Z.log2 x) by lia.
      apply Z.bit_log2. lia.
    + rewrite Z.ones_spec_high in Hb by lia. discriminate.
Qed.

(** For every [v] from 1 to 2^32, [nextPowerOfTwo] returns the least
    power of two that is not below [v].  The shifts stop at 16, so the
    bound is the reach of the function: one more and the result is no power
    of two. *)
Theorem nextPowerOfTwo_least_power (v : Z) :
  1 <= v <= 2 ^ 32 ->
  (exists k, 0 <= k /\ nextPowerOfTwo v = 2 ^ k /\ v <= 2 ^ k < 2 * v)
  /\ nextPowerOfTwo (2 ^ 32 + 1) = 2 ^ 33 - 1.
Proof.
  intros Hv. split; [|vm_compute; reflexivity].
  destruct (Z.eq_dec v 1) as [->|Hne].
  { exists 0. split; [lia|]. split; [vm_compute; reflexivity | lia]. }
  unfold nextPowerOfTwo. rewrite (wrap64_small (v - 1)) by lia.
  pose proof (smear_ones (v - 1) ltac:(lia)) as Hsmear. cbv zeta in Hsmear.
  rewrite Hsmear. clear Hsmear.
  assert (Hlog : 0 <= Z.log2 (v - 1) < 32).
  { split; [apply Z.log2_nonneg | apply Z.log2_lt_pow2; lia]. }
  pose proof (Z.log2_spec (v - 1) ltac:(lia)) as Hspec.
  rewrite Z.ones_equiv.
  replace (Z.succ (Z.log2 (v - 1))) with (Z.log2 (v - 1) + 1) in Hspec by lia.
  rewrite Z.pow_add_r in * by lia. change (2 ^ 1) with 2 in *.
  assert (Hpow : 2 ^ Z.log2 (v - 1) <= 2 ^ 31) by (apply Z.pow_le_mono_r; lia).
  exists (Z.log2 (v - 1) + 1). rewrite Z.pow_add_r by lia. change (2 ^ 1) with 2.
  split; [lia|]. split; [|lia].
  rewrite wrap64_small by lia. lia.
Qed.

(** [nextPowerOfTwo_least_power] at a concrete input. *)
Lemma nextPowerOfTwo_least_power_witness :
  (exists k, 0 <= k /\ nextPowerOfTwo 1000 = 2 ^ k /\ 1000 <= 2 ^ k < 2 * 1000)
  /\ nextPowerOfTwo (2 ^ 32 + 1) = 2 ^ 33 - 1.
Proof. apply (nextPowerOfTwo_least_power 1000). lia. Defined.

End PowerOfTwo.

(** ** [fir]: crossings of the mean *)

Section Crossings.
Import Go fir Spec.

Lemma sorted_snoc (l : list Z) (j : Z) :
  StronglySorted Z.lt l -> Forall (fun i => i < j) l ->
  StronglySorted Z.lt (l ++ [j]).
Proof.
  induction 1 as [|x l Hl IH Hx]; intros Hj; simpl.
  - repeat constructor.
  - apply Forall_cons in Hj as [Hxj Hj]. constructor; [apply IH; exact Hj|].
    apply Forall_app. split; [exact Hx | repeat constructor; exact Hxj].
Qed.

(** What [findZeroCrossings] returns. *)
Lemma findZeroCrossings_spec (data : list float) (mean : float) :
  exists crossings,
    findZeroCrossings data mean = Ok crossings
    /\ StronglySorted Z.lt crossings
    /\ forall i, i ∈ crossings
         <-> 0 <= i < len data - 1
             /\ PrimFloat.ltb
                  ((elem data i - mean) * (elem data (i + 1) - mean))%float
                  0%float = true.
Proof.
  unfold findZeroCrossings.
  destruct (Z.le_gt_cases 0 (len data - 1)) as [Hlen|Hlen].
  2:{ exists []. rewrite forRange_empty by lia. split_and!;
        [reflexivity | constructor |].
      intros i. rewrite elem_of_nil. split; [tauto | lia]. }
  destruct (forRange_inv
    (fun j crossings =>
       StronglySorted Z.lt crossings
       /\ forall i, i ∈ crossings
            <-> 0 <= i < j
                /\ PrimFloat.ltb
                     ((elem data i - mean) * (elem data (i + 1) - mean))%float
                     0%float = true)
    (fun i crossings =>
       a ← index data i;
       b ← index data (i + 1);
       if PrimFloat.ltb ((a - mean) * (b - mean))%float 0%float
       then Ok (crossings ++ [i]) else Ok crossings)
    0 (len data - 1) [] Hlen) as (crossings & Hc & Hsorted & Hmem).
  - split; [constructor|]. intros i. rewrite elem_of_nil. split; [tauto | lia].
  - intros j t Hj [Hsorted Hmem].
    destruct (index_in_range data j) as (a & -> & Ha); [lia|].
    destruct (index_in_range data (j + 1)) as (b & -> & Hb); [lia|].
    cbn [mbind result_bind].
    rewrite <- (elem_lookup Ha), <- (elem_lookup Hb).
    destruct (PrimFloat.ltb _ 0%float) eqn:Hcross; eexists; (split; [reflexivity|]).
    + split.
      * apply sorted_snoc; [exact Hsorted|].
        apply Forall_forall. intros i Hi. apply Hmem in Hi. lia.
      * intros i. rewrite elem_of_app, list_elem_of_singleton, Hmem. split.
        -- intros [[Hi Hx]| ->]; [split; [lia | exact Hx] | split; [lia | exact Hcross]].
        -- intros [Hi Hx]. destruct (Z.eq_dec i j) as [->|Hne]; [right; reflexivity|].
           left. split; [lia | exact Hx].
    + split; [exact Hsorted|]. intros i. rewrite Hmem. split.
      * intros [Hi Hx]. split; [lia | exact Hx].
      * intros [Hi Hx]. split; [|exact Hx].
        destruct (Z.eq_dec i j) as [->|Hne]; [congruence | lia].
  - exists crossings. split_and!; assumption.
Qed.

(** [findZeroCrossings] never fails: it returns, in increasing order and
    each once, exactly the indices [i] at which the samples [i] and [i+1]
    lie strictly on opposite sides of the mean. *)
Theorem findZeroCrossings_sign_changes (data : list float) (mean : float) :
  exists crossings,
    findZeroCrossings data mean = Ok crossings
    /\ StronglySorted Z.lt crossings
    /\ forall i, i ∈ crossings
         <-> 0 <= i < len data - 1
             /\ PrimFloat.ltb
                  ((elem data i - mean) * (elem data (i + 1) - mean))%float
                  0%float = true.
Proof. exact (findZeroCrossings_spec data mean). Qed.

End Crossings.

(** ** [fir]: the length of a resampled waveform *)

Section ResampleLength.
Import Go fir Spec.

(** What a loop that returned has kept, turn after turn. *)
Lemma forN_Ok_pres {St} (P : St -> Prop) (body : Z -> St -> result St) :
  (forall j t t', body j t = Ok t' -> P t -> P t') ->
  forall (n : nat) (i : Z) (s s' : St),
    forN n i body s = Ok s' -> P s -> P s'.
Proof.
  intros Hbody. induction n as [|n IH]; intros i s s' Hrun Hs; simpl in Hrun.
  - injection Hrun as <-. exact Hs.
  - apply bind_Ok in Hrun as (t & Ht & Hrun).
    exact (IH _ _ _ Hrun (Hbody _ _ _ Ht Hs)).
Qed.

Lemma resample_len (data : list float) (newLen : Z) (r : list float) :
  resample data newLen = Ok r -> len r = newLen.
Proof.
  unfold resample. intros H. apply bind_Ok in H as (r0 & Hmake & Hloop).
  unfold make in Hmake. destruct (Z.ltb_spec newLen 0); [discriminate|].
  injection Hmake as <-. unfold forRange in Hloop.
  refine (forN_Ok_pres (fun r => len r = newLen) _ _ _ _ _ _ Hloop _).
  - intros j t t' Hstep Ht.
    destruct (_ <? len data); repeat (apply bind_Ok in Hstep as (? & _ & Hstep));
      apply store_inv in Hstep as [_ ->]; rewrite len_insert; exact Ht.
  - apply len_replicate. lia.
Qed.

Lemma resample_nil (newLen : Z) :
  1 <= newLen -> resample [] newLen = Fail IndexOutOfRange.
Proof.
  intros Hn. unfold resample. rewrite make_Ok by lia. cbn [mbind result_bind].
  unfold forRange. destruct (Z.to_nat (newLen - 0)) as [|k] eqn:En; [lia|].
  cbn [forN]. rewrite index_nil.
  destruct (_ <? _); rewrite ?index_nil; reflexivity.
Qed.

Lemma forN_Fail {St} (Q : fault -> Prop) (body : Z -> St -> result St) :
  (forall j t f, body j t = Fail f -> Q f) ->
  forall (n : nat) (i : Z) (s : St) (f : fault),
    forN n i body s = Fail f -> Q f.
Proof.
  intros Hbody. induction n as [|n IH]; intros i s f Hrun; cbn [forN] in Hrun.
  - discriminate.
  - destruct (body i s) as [t|f'] eqn:Hstep; cbn [mbind result_bind] in Hrun.
    + exact (IH _ _ _ Hrun).
    + injection Hrun as <-. exact (Hbody _ _ _ Hstep).
Qed.

Lemma index_Fail {A} (l : list A) (i : Z) (f : fault) :
  index l i = Fail f -> f = IndexOutOfRange.
Proof.
  unfold index. destruct (i <? 0); [congruence|].
  destruct (l !! Z.to_nat i); congruence.
Qed.

Lemma store_Fail {A} (l : list A) (i : Z) (x : A) (f : fault) :
  store l i x = Fail f -> f = IndexOutOfRange.
Proof. unfold store. destruct (_ || _); congruence. Qed.

(** The outcomes of [resample].  When it returns, the result has exactly
    [newLen] points.  It stops in two ways only: at the allocation, when
    [newLen] is negative, and on an index out of the source, when at least
    one point is asked for. *)
Theorem resample_returns_newLen_points (data : list float) (newLen : Z) :
  match resample data newLen with
  | Ok r => len r = newLen
  | Fail f =>
      (newLen < 0 /\ f = NegativeLen) \/ (0 < newLen /\ f = IndexOutOfRange)
  end.
Proof.
  destruct (resample data newLen) as [r|f] eqn:Hrun;
    [exact (resample_len _ _ _ Hrun)|].
  revert Hrun. unfold resample, make.
  destruct (Z.ltb_spec newLen 0) as [Hneg|Hpos]; cbn [mbind result_bind];
    intros Hrun.
  { left. split; [exact Hneg | congruence]. }
  right. split.
  - destruct (Z.eq_dec newLen 0) as [->|]; [discriminate | lia].
  - unfold forRange in Hrun.
    apply (forN_Fail (fun f => f = IndexOutOfRange)) in Hrun; [exact Hrun|].
    intros j t f' Hstep.
    destruct (_ <? len data) in Hstep;
      repeat match type of Hstep with
             | mbind _ (index ?l ?k) = Fail _ =>
                 let Hindex := fresh "Hindex" in
                 destruct (index l k) eqn:Hindex;
                 cbn [mbind result_bind] in Hstep;
                 [|injection Hstep as <-; exact (index_Fail _ _ _ Hindex)]
             end;
      exact (store_Fail _ _ _ _ Hstep).
Qed.

End ResampleLength.

(** ** [fir]: stacking the cycles of a recording *)

Section Stacking.
Import Go fir Spec.

Lemma firstCycle_spec (data : list float) (samplesPerCycle : Z) :
  0 <= samplesPerCycle -> samplesPerCycle * 2 <= len data ->
  firstCycle data samplesPerCycle = Ok (take (Z.to_nat samplesPerCycle) data).
Proof.
  intros Hs Hlen. unfold firstCycle.
  destruct (Z.ltb_spec samplesPerCycle (len data)).
  - rewrite slice_Ok by lia. rewrite Z.sub_0_r.
    change (Z.to_nat 0) with 0%nat. rewrite drop_0. reflexivity.
  - rewrite take_ge by (unfold len in *; lia). reflexivity.
Qed.

(** The stacking loop, turn by turn: it has stacked the cycles cut at the
    crossings 0, 2, ..., [2(k-1)] when it reaches the crossing [2k], and
    it returns the cycles up to the first crossing that ends the loop. *)
Lemma stackLoop_exact (data : list float) (samplesPerCycle : Z)
  (zeroCrossings : list Z) :
  0 <= samplesPerCycle -> len data + samplesPerCycle < 2 ^ 63 ->
  Forall (fun start => 0 <= start < len data) zeroCrossings ->
  forall (fuel : nat) (k : Z),
    0 <= k <= 5 -> 5 <= k + Z.of_nat fuel ->
    (forall j, 0 <= j < k ->
       2 * j + 1 < len zeroCrossings
       /\ elemZ zeroCrossings (2 * j) + samplesPerCycle <= len data) ->
    exists m,
      k <= m <= 5
      /\ stackLoop fuel data samplesPerCycle zeroCrossings 5 (2 * k)
           (cycleAt data samplesPerCycle zeroCrossings <$> seqZ 0 k)
         = Ok (cycleAt data samplesPerCycle zeroCrossings <$> seqZ 0 m)
      /\ (forall j, 0 <= j < m ->
            2 * j + 1 < len zeroCrossings
            /\ elemZ zeroCrossings (2 * j) + samplesPerCycle <= len data)
      /\ (m = 5 \/ len zeroCrossings <= 2 * m + 1
          \/ len data < elemZ zeroCrossings (2 * m) + samplesPerCycle).
Proof.
  intros Hs Hsize Hzc.
  induction fuel as [|fuel IH]; intros k Hk Hfuel Hdone.
  - exists k. cbn [stackLoop]. rewrite len_tabulate by lia.
    destruct (Z.ltb_spec k 5); [lia|]. rewrite andb_false_r.
    split_and!; [lia | lia | reflexivity | exact Hdone | lia].
  - cbn [stackLoop]. rewrite len_tabulate by lia.
    destruct (Z.ltb_spec (2 * k) (len zeroCrossings - 1)) as [Hin|Hout];
      cbn [andb].
    2:{ exists k. split_and!; [lia | lia | reflexivity | exact Hdone | lia]. }
    destruct (Z.ltb_spec k 5) as [Hless|Hfull].
    2:{ exists k. split_and!; [lia | lia | reflexivity | exact Hdone | lia]. }
    destruct (index_in_range zeroCrossings (2 * k)) as (start & -> & Hstart);
      [lia|].
    cbn [mbind result_bind].
    assert (Hat : elemZ zeroCrossings (2 * k) = start).
    { unfold elemZ. rewrite Hstart. reflexivity. }
    pose proof (proj1 (Forall_lookup _ _) Hzc _ _ Hstart) as Hrange.
    cbv beta in Hrange. rewrite wrap64_small by lia.
    destruct (Z.ltb_spec (len data) (start + samplesPerCycle)) as [Hbreak|Hfits].
    { exists k. split_and!; [lia | lia | reflexivity | exact Hdone | lia]. }
    rewrite make_Ok by lia. cbn [mbind result_bind].
    rewrite slice_Ok by lia. cbn [mbind result_bind].
    replace (start + samplesPerCycle - start) with samplesPerCycle by lia.
    set (segment := take (Z.to_nat samplesPerCycle) (drop (Z.to_nat start) data)).
    assert (Hseg : length segment = Z.to_nat samplesPerCycle).
    { unfold segment. rewrite length_take, length_drop. unfold len in *. lia. }
    assert (Hcopy : copy (replicate (Z.to_nat samplesPerCycle) 0%float) segment
                    = segment).
    { unfold copy. rewrite length_replicate.
      rewrite take_ge by lia. rewrite drop_ge by (rewrite length_replicate; lia).
      apply app_nil_r. }
    rewrite Hcopy.
    replace ((cycleAt data samplesPerCycle zeroCrossings <$> seqZ 0 k)
             ++ [segment])
      with (cycleAt data samplesPerCycle zeroCrossings <$> seqZ 0 (k + 1)).
    2:{ rewrite seqZ_snoc by lia. rewrite fmap_app. cbn [fmap list_fmap].
        rewrite Z.add_0_l. unfold cycleAt at 2. rewrite Hat. reflexivity. }
    replace (2 * k + 2) with (2 * (k + 1)) by lia.
    destruct (IH (k + 1)) as (m & Hm & Hloop & Hall & Hstop); [lia | lia | |].
    { intros j Hj. destruct (Z.eq_dec j k) as [->|Hne]; [lia|].
      apply Hdone. lia. }
    exists m. split_and!; [lia | lia | exact Hloop | exact Hall | exact Hstop].
Qed.

(** Folding over the indices of a list is folding over the list. *)
Lemma fold_left_indices {A St} (g : St -> A -> St) (get : Z -> A) (l : list A) :
  (forall j x, l !! j = Some x -> get (Z.of_nat j) = x) ->
  forall s, fold_left (fun s j => g s (get j)) (seqZ 0 (len l)) s
            = fold_left g l s.
Proof.
  induction l as [|x l IH] using rev_ind; intros Hget s; [reflexivity|].
  rewrite len_app. change (len [x]) with 1.
  rewrite seqZ_snoc by apply len_nonneg. rewrite !fold_left_app. cbn [fold_left].
  rewrite IH.
  2:{ intros j y Hj. apply Hget. rewrite lookup_app_l; [exact Hj|].
      apply lookup_lt_Some in Hj. exact Hj. }
  f_equal. unfold len. apply Hget.
  rewrite lookup_app_r by lia. rewrite Nat.sub_diag. reflexivity.
Qed.

(** The averaging loop over the stacked cycles. *)
Lemma average_spec (samplesPerCycle : Z) (cycles : list (list float)) :
  0 <= samplesPerCycle ->
  Forall (fun c => len c = samplesPerCycle) cycles ->
  forRange 0 samplesPerCycle
    (fun i avgCycle =>
       sum ← forRange 0 (len cycles)
         (fun j sum =>
            cycle ← index cycles j;
            v ← index cycle i;
            Ok (sum + v)%float)
         0%float;
       store avgCycle i (sum / float64_of_int (len cycles))%float)
    (replicate (Z.to_nat samplesPerCycle) 0%float)
  = Ok ((fun i =>
           (fold_left (fun sum c => (sum + elem c i)%float) cycles 0%float
            / float64_of_int (len cycles))%float)
          <$> seqZ 0 samplesPerCycle).
Proof.
  intros Hs Hcycles.
  apply forRange_tabulate; [apply len_replicate; exact Hs|].
  intros i r Hi Hr.
  rewrite (forRange_fold _
    (fun sum j => (sum + elem (default [] (cycles !! Z.to_nat j)) i)%float)).
  - cbn [mbind result_bind]. rewrite store_Ok by lia. rewrite Z.sub_0_r.
    rewrite (fold_left_indices (fun sum c => (sum + elem c i)%float)
               (fun j => default [] (cycles !! Z.to_nat j)) cycles).
    + reflexivity.
    + intros j x Hj. rewrite Nat2Z.id, Hj. reflexivity.
  - apply len_nonneg.
  - intros j acc Hj.
    destruct (index_in_range cycles j) as (c & -> & Hc); [lia|].
    cbn [mbind result_bind]. rewrite Hc.
    change (default [] (Some c)) with c.
    pose proof (proj1 (Forall_lookup _ _) Hcycles _ _ Hc) as Hlen.
    cbv beta in Hlen.
    destruct (index_in_range c i) as (v & -> & Hv); [lia|].
    cbn [mbind result_bind]. rewrite (elem_lookup Hv). reflexivity.
Qed.

(** [stackAndResample] is [resample] applied to a source that the buffer
    determines.  A buffer shorter than two cycles is resampled as it is.
    Otherwise the crossings of the mean are looked for in the first four
    cycles, and cycles are cut at the crossings 0, 2, 4, ...: [m] of them,
    where [m] counts the crossings of even rank, up to five and the last
    crossing left out, from which a whole cycle fits into the buffer,
    stopping at the first that does not.  With [m = 0] (fewer than two
    crossings, or no room after the first) the first cycle of the buffer is
    resampled; otherwise the point-wise average of the [m] cycles. *)
Theorem stackAndResample_sources (data : list float)
  (sampleRate waveFrequency : float) (nSamples : Z) :
  let samplesPerCycle := int_of_float64 (sampleRate / waveFrequency) in
  0 <= samplesPerCycle < 2 ^ 61 -> len data < 2 ^ 62 ->
  if len data <? 2 * samplesPerCycle then
    stackAndResample data sampleRate waveFrequency nSamples
    = resample data nSamples
  else
    exists (crossings : list Z) (m : Z),
      findZeroCrossings
        (take (Z.to_nat (Z.min (len data) (4 * samplesPerCycle))) data)
        (meanOf data) = Ok crossings
      /\ 0 <= m <= 5
      /\ (forall k, 0 <= k < m ->
            2 * k + 1 < len crossings
            /\ elemZ crossings (2 * k) + samplesPerCycle <= len data)
      /\ (m = 5 \/ len crossings <= 2 * m + 1
          \/ len data < elemZ crossings (2 * m) + samplesPerCycle)
      /\ stackAndResample data sampleRate waveFrequency nSamples
         = resample
             (if m =? 0 then take (Z.to_nat samplesPerCycle) data
              else average (cycleAt data samplesPerCycle crossings
                              <$> seqZ 0 m)
                     <$> seqZ 0 samplesPerCycle)
             nSamples.
Proof.
  intros spc Hspc Hfits. unfold stackAndResample. fold spc.
  rewrite !wrap64_small by lia.
  replace (len data <? 2 * spc) with (len data <? spc * 2)
    by (f_equal; lia).
  destruct (Z.ltb_spec (len data) (spc * 2)) as [Hshort|Hlong];
    [reflexivity|].
  replace (min (len data) (spc * 4)) with (Z.min (len data) (4 * spc))
    by (unfold min; destruct (Z.ltb_spec (len data) (spc * 4)); lia).
  pose proof (len_nonneg data) as Hdata.
  rewrite slice_Ok by lia. cbn [mbind result_bind].
  rewrite Z.sub_0_r. change (Z.to_nat 0) with 0%nat. rewrite drop_0.
  set (searched := take (Z.to_nat (Z.min (len data) (4 * spc))) data).
  change (calculateMean data) with (meanOf data).
  destruct (findZeroCrossings_spec searched (meanOf data))
    as (crossings & Hfind & _ & Hmem).
  rewrite Hfind. cbn [mbind result_bind].
  exists crossings.
  rewrite firstCycle_spec by lia. cbn [mbind result_bind].
  destruct (Z.ltb_spec (len crossings) 2) as [Hfew|Hmany].
  { exists 0. split_and!; [reflexivity | lia | lia | intros k Hk; lia | lia
                           | reflexivity]. }
  assert (Hzc : Forall (fun start => 0 <= start < len data) crossings).
  { apply Forall_forall. intros start Hstart%Hmem.
    assert (len searched <= len data); [|lia].
    unfold searched, len. rewrite length_take. lia. }
  destruct (stackLoop_exact data spc crossings ltac:(lia) ltac:(lia) Hzc
              (Z.to_nat 5) 0)
    as (m & Hm & Hloop & Hall & Hstop); [lia | lia | intros j Hj; lia |].
  change (cycleAt data spc crossings <$> seqZ 0 0)
    with (@nil (list float)) in Hloop.
  change (2 * 0) with 0 in Hloop. rewrite Hloop. cbn [mbind result_bind].
  exists m.
  split_and!; [reflexivity | lia | lia | exact Hall | exact Hstop |].
  set (cycles := cycleAt data spc crossings <$> seqZ 0 m).
  assert (Hcount : len cycles = m) by (apply len_tabulate; lia).
  destruct (Z.eqb_spec (len cycles) 0) as [Hnone|Hsome],
    (Z.eqb_spec m 0) as [Hm0|Hm0]; try lia; [reflexivity|].
  rewrite make_Ok by lia. cbn [mbind result_bind].
  rewrite average_spec.
  2: lia.
  2:{ apply Forall_fmap, Forall_forall. intros k Hk.
      apply elem_of_seqZ in Hk. unfold compose.
      destruct (Hall k ltac:(lia)) as [Hin Hroom].
      destruct (index_in_range crossings (2 * k)) as (start & _ & Hstart);
        [lia|].
      pose proof (proj1 (Forall_lookup _ _) Hzc _ _ Hstart) as Hrange.
      cbv beta in Hrange.
      assert (Hat : elemZ crossings (2 * k) = start)
        by (unfold elemZ; rewrite Hstart; reflexivity).
      unfold cycleAt, len. rewrite Hat, length_take, length_drop.
      unfold len in *. lia. }
  cbn [mbind result_bind]. reflexivity.
Qed.

(** [stackAndResample_sources] at a concrete input: a square wave of four
    samples a cycle. *)
Lemma stackAndResample_sources_witness :
  let data := [1; 1; -1; -1; 1; 1; -1; -1; 1; 1; -1; -1]%float in
  if len data <? 2 * 4 then
    stackAndResample data 4 1 8 = resample data 8
  else
    exists (crossings : list Z) (m : Z),
      findZeroCrossings (take (Z.to_nat (Z.min (len data) (4 * 4))) data)
        (meanOf data) = Ok crossings
      /\ 0 <= m <= 5
      /\ (forall k, 0 <= k < m ->
            2 * k + 1 < len crossings
            /\ elemZ crossings (2 * k) + 4 <= len data)
      /\ (m = 5 \/ len crossings <= 2 * m + 1
          \/ len data < elemZ crossings (2 * m) + 4)
      /\ stackAndResample data 4 1 8
         = resample
             (if m =? 0 then take (Z.to_nat 4) data
              else average (cycleAt data 4 crossings <$> seqZ 0 m)
                     <$> seqZ 0 4)
             8.
Proof.
  cbv zeta.
  apply (stackAndResample_sources
           [1; 1; -1; -1; 1; 1; -1; -1; 1; 1; -1; -1]%float 4 1 8).
  - split; [vm_compute; discriminate | vm_compute; reflexivity].
  - vm_compute. reflexivity.
Defined.
Lemma stackAndResample_len (data : list float)
  (sampleRate waveFrequency : float) (nSamples : Z) (r : list float) :
  stackAndResample data sampleRate waveFrequency nSamples = Ok r ->
  len r = nSamples.
Proof.
  unfold stackAndResample. intros H.
  assert (Hleaf : forall m : result (list float),
    (data' ← m; resample data' nSamples) = Ok r -> len r = nSamples).
  { intros m Hm. apply bind_Ok in Hm as (d & _ & Hm).
    exact (resample_len _ _ _ Hm). }
  destruct (_ <? _) in H; [exact (resample_len _ _ _ H)|].
  apply bind_Ok in H as (searched & _ & H).
  apply bind_Ok in H as (crossings & _ & H).
  destruct (_ <? _) in H; [exact (Hleaf _ H)|].
  apply bind_Ok in H as (cycles & _ & H).
  destruct (_ =? _) in H; [exact (Hleaf _ H)|].
  apply bind_Ok in H as (avg0 & _ & H).
  exact (Hleaf _ H).
Qed.

Lemma stackAndResample_nil (sampleRate waveFrequency : float) (nSamples : Z) :
  1 <= nSamples ->
  failed (stackAndResample [] sampleRate waveFrequency nSamples).
Proof.
  intros Hn. unfold stackAndResample.
  set (spc := int_of_float64 (sampleRate / waveFrequency)).
  change (len (@nil float)) with 0.
  destruct (0 <? wrap64 (spc * 2)).
  { rewrite resample_nil by exact Hn. exact I. }
  assert (Hrest : failed
    (searched ← slice (@nil float) 0 0;
     zeroCrossings ← findZeroCrossings searched (calculateMean []);
     if len zeroCrossings <? 2 then
       data ← firstCycle [] spc; resample data nSamples
     else
       stackedCycles ← stackLoop (Z.to_nat 5) [] spc zeroCrossings 5 0 [];
       if len stackedCycles =? 0 then
         data ← firstCycle [] spc; resample data nSamples
       else
         avgCycle ← make 0%float spc;
         avgCycle ← forRange 0 spc
           (fun i avgCycle =>
              sum ← forRange 0 (len stackedCycles)
                (fun j sum =>
                   cycle ← index stackedCycles j;
                   v ← index cycle i;
                   Ok (sum + v)%float)
                0%float;
              store avgCycle i (sum / float64_of_int (len stackedCycles))%float)
           avgCycle;
         resample avgCycle nSamples)).
  { change (slice (@nil float) 0 0) with (Ok (@nil float)).
    cbn [mbind result_bind].
    change (findZeroCrossings [] (calculateMean [])) with (@Ok (list Z) []).
    cbn [mbind result_bind]. change (len (@nil Z) <? 2) with true. cbv iota.
    unfold firstCycle, slice. change (len (@nil float)) with 0.
    change (0 <? 0) with false. cbn [orb].
    destruct (Z.ltb_spec spc 0) as [Hs|Hs].
    - cbn [mbind result_bind]. exact I.
    - cbn [mbind result_bind]. rewrite resample_nil by exact Hn. exact I. }
  unfold min.
  destruct (Z.ltb_spec 0 (wrap64 (spc * 4))) as [Hpos|Hneg]; [exact Hrest|].
  destruct (Z.ltb_spec (wrap64 (spc * 4)) 0) as [Hlt|Hge].
  - unfold slice. change (0 <? 0) with false.
    destruct (Z.ltb_spec (wrap64 (spc * 4)) 0); [|lia].
    cbn [orb mbind result_bind]. exact I.
  - replace (wrap64 (spc * 4)) with 0 by lia. exact Hrest.
Qed.

(** An empty buffer stops [stackAndResample], whatever the sample rate
    and the frequency are, as soon as one output point is asked for. *)
Theorem stackAndResample_empty_buffer_stops
  (sampleRate waveFrequency : float) (nSamples : Z) :
  1 <= nSamples ->
  failed (stackAndResample [] sampleRate waveFrequency nSamples).
Proof. exact (stackAndResample_nil sampleRate waveFrequency nSamples). Qed.

(** [stackAndResample_empty_buffer_stops] at a concrete input. *)
Lemma stackAndResample_empty_buffer_stops_witness :
  failed (stackAndResample [] 51200 1000 2048).
Proof. apply (stackAndResample_empty_buffer_stops 51200 1000 2048). lia. Defined.

End Stacking.

(** ** [fir]: circular shifts and the filter on unequal lengths *)

Section Rolls.
Import Go fir Spec.

Lemma tabulate_ext {A} (h g : Z -> A) (n : Z) :
  (forall i, 0 <= i < n -> h i = g i) -> h <$> seqZ 0 n = g <$> seqZ 0 n.
Proof.
  intros H. apply list_fmap_ext. intros k i Hi.
  apply lookup_seqZ in Hi as [-> Hk]. apply H. lia.
Qed.

Lemma tabulate_elem (l : list float) : elem l <$> seqZ 0 (len l) = l.
Proof.
  apply list_eq. intros k. rewrite list_lookup_fmap.
  destruct (decide (k < length l)%nat) as [Hk|Hk].
  - rewrite lookup_seqZ_lt by (unfold len; lia). cbn [fmap option_fmap option_map].
    destruct (lookup_lt_is_Some_2 l k Hk) as [x Hx]. rewrite Hx. f_equal.
    apply elem_lookup. rewrite Z.add_0_l, Nat2Z.id. exact Hx.
  - rewrite lookup_seqZ_ge by (unfold len; lia).
    rewrite lookup_ge_None_2 by lia. reflexivity.
Qed.

Lemma index_beyond {A} (l : list A) (i : Z) :
  len l <= i -> index l i = Fail IndexOutOfRange.
Proof.
  intros Hi. unfold index. destruct (i <? 0); [reflexivity|].
  rewrite lookup_ge_None_2 by (unfold len in Hi; lia). reflexivity.
Qed.

Lemma forN_add {St} (body : Z -> St -> result St) :
  forall (n m : nat) (i : Z) (s : St),
    forN (n + m) i body s
    = s' ← forN n i body s; forN m (i + Z.of_nat n) body s'.
Proof.
  induction n as [|n IH]; intros m i s.
  - cbn [forN Nat.add mbind result_bind]. rewrite Z.add_0_r. reflexivity.
  - cbn [forN Nat.add]. destruct (body i s) as [t|f]; cbn [mbind result_bind];
      [|reflexivity].
    rewrite IH. replace (i + 1 + Z.of_nat n) with (i + Z.of_nat (S n)) by lia.
    reflexivity.
Qed.

Lemma forRange_split {St} (body : Z -> St -> result St) (lo mid hi : Z) (s : St) :
  lo <= mid <= hi ->
  forRange lo hi body s = s' ← forRange lo mid body s; forRange mid hi body s'.
Proof.
  intros H. unfold forRange.
  replace (Z.to_nat (hi - lo)) with (Z.to_nat (mid - lo) + Z.to_nat (hi - mid))%nat
    by lia.
  rewrite forN_add. replace (lo + Z.of_nat (Z.to_nat (mid - lo))) with mid by lia.
  reflexivity.
Qed.

(** Circular shifts by amounts that are not negative compose, as long as
    no index sum leaves the range of [int] (the shifts and the length add
    up to [2^63] at most): shifting by [a] and then by [b] is shifting by
    [a + b]; a shift returns, cell for cell, the data read from [a] on and
    around the end, so it keeps the length and only counts modulo the
    length; the shift by 0, and below [2^62] samples the shift by the
    length, leave the data as they are. *)
Theorem roll_composes (data : list float) (a b : Z) :
  0 <= a -> 0 <= b -> a + b + len data <= 2 ^ 63 ->
  (r ← roll data a; roll r b) = roll data (a + b)
  /\ (exists r, roll data a = Ok r /\ len r = len data
                /\ forall i, 0 <= i < len data ->
                             elem r i = elem data ((i + a) `mod` len data))
  /\ roll data a = roll data (a `mod` len data)
  /\ roll data 0 = Ok data
  /\ (len data <= 2 ^ 62 -> roll data (len data) = Ok data).
Proof.
  intros Ha Hb Hfit. pose proof (len_nonneg data) as Hn.
  rewrite (roll_spec data a), (roll_spec data (a + b)), (roll_spec data 0)
    by lia.
  cbn [mbind result_bind].
  rewrite roll_spec by (rewrite ?len_tabulate by lia; lia).
  rewrite len_tabulate by lia.
  split_and!.
  - f_equal. apply tabulate_ext. intros i Hi.
    rewrite elem_tabulate by (apply Z.mod_pos_bound; lia).
    f_equal. rewrite Z.add_mod_idemp_l by lia. f_equal. lia.
  - eexists. split; [reflexivity|]. split; [apply len_tabulate; lia|].
    intros i Hi. rewrite elem_tabulate by lia. reflexivity.
  - destruct (Z.eq_dec (len data) 0) as [Hz|Hnz].
    + rewrite Hz, Z.mod_0_r. rewrite roll_spec by lia. rewrite Hz. reflexivity.
    + pose proof (Z.mod_pos_bound a (len data) ltac:(lia)) as Hm.
      rewrite roll_spec by lia.
      f_equal. apply tabulate_ext. intros i Hi.
      rewrite Z.add_mod_idemp_r by lia. reflexivity.
  - f_equal. etransitivity; [|apply tabulate_elem]. apply tabulate_ext.
    intros i Hi. rewrite Z.add_0_r, Z.mod_small by lia. reflexivity.
  - intros Hsmall. rewrite roll_spec by lia.
    f_equal. etransitivity; [|apply tabulate_elem]. apply tabulate_ext.
    intros i Hi. rewrite <- (Z.mul_1_l (len data)) at 1.
    rewrite Z.mod_add, Z.mod_small by lia. reflexivity.
Qed.

(** [roll_composes] at a concrete input. *)
Lemma roll_composes_witness :
  let data := [1; 2; 3; 4; 5]%float in
  (r ← roll data 2; roll r 4) = roll data (2 + 4)
  /\ (exists r, roll data 2 = Ok r /\ len r = len data
                /\ forall i, 0 <= i < len data ->
                             elem r i = elem data ((i + 2) `mod` len data))
  /\ roll data 2 = roll data (2 `mod` len data)
  /\ roll data 0 = Ok data
  /\ (len data <= 2 ^ 62 -> roll data (len data) = Ok data).
Proof.
  cbv zeta.
  apply (roll_composes [1; 2; 3; 4; 5]%float 2 4);
    [lia | lia | vm_compute; discriminate].
Defined.

(** Past that bound the index sum wraps: with the largest shift an [int]
    can hold, the second cell of three is read at index [-2]. *)
Example roll_largest_shift_stops :
  roll [1; 2; 3]%float (2 ^ 63 - 1) = Fail IndexOutOfRange.
Proof. vm_compute. reflexivity. Qed.

(** A shift to the other side stops [roll] at its first cell: the
    remainder of Go keeps the sign of [i + shift], and a negative index is
    out of range. *)
Theorem roll_negative_shift_stops (data : list float) (shift : Z) :
  - len data < shift < 0 ->
  roll data shift = Fail IndexOutOfRange.
Proof.
  intros Hs. unfold roll. rewrite make_Ok by lia. cbn [mbind result_bind].
  unfold forRange. destruct (Z.to_nat (len data - 0)) as [|k] eqn:Ek; [lia|].
  cbn [forN]. cbv zeta. change (0 + shift) with shift.
  destruct (Z.ltb_spec shift (len data)); [|lia].
  replace (Z.rem shift (len data)) with shift.
  - unfold index. destruct (Z.ltb_spec shift 0); [reflexivity | lia].
  - replace shift with (- - shift) at 2 by lia.
    rewrite Z.rem_opp_l by lia. rewrite Z.rem_small by lia. lia.
Qed.

(** [roll_negative_shift_stops] at a concrete input. *)
Lemma roll_negative_shift_stops_witness :
  roll [1; 2; 3]%float (-1) = Fail IndexOutOfRange.
Proof.
  apply (roll_negative_shift_stops [1; 2; 3]%float (-1)).
  split; [vm_compute; reflexivity | lia].
Defined.

Lemma dotProduct_short (a b : list float) :
  len b < len a -> dotProduct a b = Fail IndexOutOfRange.
Proof.
  intros Hab. unfold dotProduct. pose proof (len_nonneg b) as Hb.
  rewrite (forRange_split _ 0 (len b) (len a)) by lia.
  rewrite (forRange_fold _ (fun sum j => (sum + elem a j * elem b j)%float))
    by first [ lia
             | intros i acc Hi;
               destruct (index_in_range a i) as (ai & -> & Ha); [lia|];
               destruct (index_in_range b i) as (bi & -> & Hbi); [lia|];
               simpl; rewrite (elem_lookup Ha), (elem_lookup Hbi); reflexivity ].
  cbn [mbind result_bind]. unfold forRange.
  destruct (Z.to_nat (len a - len b)) as [|k] eqn:Ek; [lia|].
  cbn [forN].
  destruct (index_in_range a (len b)) as (x & -> & _); [lia|].
  cbn [mbind result_bind]. rewrite index_beyond by lia. reflexivity.
Qed.

(** What [applyFIRFilter] returns when it has a signal sample for every
    coefficient. *)
Lemma applyFIRFilter_spec (signal coeffs : list float) :
  len coeffs <= len signal ->
  applyFIRFilter signal coeffs
  = Ok ((fun i =>
           fold_left
             (fun sum j =>
                (sum + elem coeffs j * elem signal ((j + i) `mod` len signal))%float)
             (seqZ 0 (len coeffs)) 0%float)
          <$> seqZ 0 (len signal)).
Proof.
  intros Hlen. pose proof (len_nonneg signal) as HN.
  pose proof (len_nonneg coeffs) as HM.
  unfold applyFIRFilter. rewrite make_Ok by lia. cbn [mbind result_bind].
  apply forRange_tabulate; [apply len_replicate; lia|].
  intros i r Hi Hr. rewrite roll_spec by lia. cbn [mbind result_bind].
  rewrite dotProduct_spec by (rewrite len_tabulate; lia).
  cbn [mbind result_bind]. rewrite store_Ok by lia. do 2 f_equal.
  apply fold_left_ext_in.
  intros acc j Hj. apply list_elem_of_lookup in Hj as [k Hk].
  apply lookup_seqZ in Hk as [-> Hk].
  rewrite elem_tabulate by lia. reflexivity.
Qed.

(** With fewer coefficients than signal samples [applyFIRFilter] does not
    fail: every output point is the circular sum over the coefficients
    there are, as if the missing ones were left out of the sum. *)
Theorem applyFIRFilter_fewer_coefficients (signal coeffs : list float) :
  len coeffs <= len signal ->
  exists out,
    applyFIRFilter signal coeffs = Ok out
    /\ len out = len signal
    /\ forall i, 0 <= i < len signal ->
         elem out i
         = fold_left
             (fun sum j =>
                (sum + elem coeffs j * elem signal ((j + i) `mod` len signal))%float)
             (seqZ 0 (len coeffs)) 0%float.
Proof.
  intros Hlen. rewrite applyFIRFilter_spec by exact Hlen.
  eexists. split_and!; [reflexivity | |].
  - apply len_tabulate. apply len_nonneg.
  - intros i Hi. rewrite elem_tabulate by exact Hi. reflexivity.
Qed.

(** [applyFIRFilter_fewer_coefficients] at a concrete input. *)
Lemma applyFIRFilter_fewer_coefficients_witness :
  let signal := [1; 2; 3; 4]%float in
  let coeffs := [0.5; 0.5]%float in
  exists out,
    applyFIRFilter signal coeffs = Ok out
    /\ len out = len signal
    /\ forall i, 0 <= i < len signal ->
         elem out i
         = fold_left
             (fun sum j =>
                (sum + elem coeffs j * elem signal ((j + i) `mod` len signal))%float)
             (seqZ 0 (len coeffs)) 0%float.
Proof.
  cbv zeta.
  apply (applyFIRFilter_fewer_coefficients [1; 2; 3; 4]%float [0.5; 0.5]%float).
  vm_compute. discriminate.
Defined.

(** With more coefficients than signal samples [applyFIRFilter] stops at
    its first output point, unless the signal is empty: then it returns
    the empty signal whatever the coefficients are. *)
Theorem applyFIRFilter_more_coefficients_stop (signal coeffs : list float) :
  len signal < len coeffs ->
  applyFIRFilter signal coeffs
  = if len signal =? 0 then Ok [] else Fail IndexOutOfRange.
Proof.
  intros Hlen. pose proof (len_nonneg signal) as HN.
  unfold applyFIRFilter. rewrite make_Ok by lia. cbn [mbind result_bind].
  destruct (Z.eqb_spec (len signal) 0) as [Hzero|Hsome].
  - rewrite Hzero. reflexivity.
  - unfold forRange.
    destruct (Z.to_nat (len signal - 0)) as [|k] eqn:Ek; [lia|].
    cbn [forN]. rewrite roll_spec by lia. cbn [mbind result_bind].
    rewrite dotProduct_short by (rewrite len_tabulate; lia). reflexivity.
Qed.

(** [applyFIRFilter_more_coefficients_stop] at a concrete input. *)
Lemma applyFIRFilter_more_coefficients_stop_witness :
  applyFIRFilter [1; 2]%float [1; 1; 1]%float = Fail IndexOutOfRange.
Proof.
  apply (applyFIRFilter_more_coefficients_stop [1; 2]%float [1; 1; 1]%float).
  vm_compute. reflexivity.
Defined.

End Rolls.

(** ** [fir]: the pipeline of [ProcessFIR] *)

Section Pipeline.
Import Go fir Spec.

Variable resultsDir : string -> string.
Variable MkdirAll : string -> bool.

Lemma generatePerfectSquareWave_total (signal : list float) :
  exists perfect,
    generatePerfectSquareWave signal = Ok perfect /\ len perfect = len signal.
Proof.
  pose proof (generatePerfectSquareWave_levels signal) as H. cbv zeta in H.
  destruct (partitionLevels signal (calculateMean signal)) as [[[hv hc] lv] lc].
  destruct H as (first & second & -> & _).
  eexists. split; [reflexivity|].
  pose proof (len_nonneg signal) as Hn.
  assert (0 <= Z.quot (len signal) 2 <= len signal).
  { rewrite Z.quot_div_nonneg by lia. split; [apply Z.div_pos; lia|].
    apply Z.div_le_upper_bound; lia. }
  rewrite len_app, !len_replicate by lia. lia.
Qed.

Lemma regularizedLeastSquares_total (imperfect perfect : list float)
  (regParam : float) :
  len imperfect = len perfect -> 1 <= len imperfect ->
  exists x,
    regularizedLeastSquares imperfect perfect regParam = Ok x
    /\ len x = len imperfect.
Proof.
  intros Hlen HN.
  destruct (normalEquations_shaped imperfect perfect regParam Hlen HN)
    as (ATA & ATb & Hne & HATA & HATb).
  destruct (solveLinearSystem_spec _ ATA ATb HATA HATb)
    as (ps & x & _ & _ & Hx & Hlx & _).
  exists x. split; [|exact Hlx].
  unfold regularizedLeastSquares. rewrite Hne. exact Hx.
Qed.

(** The course of [ProcessFIR].  A file that cannot be read ends it
    before any progress is reported.  If the stacking stops, 20 has been
    reported and nothing else.  Once the stacking has returned, nothing can
    stop the three stages that follow: the reference wave, the coefficients
    and the filtered signal are computed, each of 2048 points as the
    stacked waveform, the progress runs through 20, 40, 60, 80, 100, and
    only the creation of the results directory decides between the result
    and an error. *)
Theorem ProcessFIR_stages (fs : filesystem) (config : FIRConfig) :
  let samplesToRead :=
    wrap64 (int_of_float64 (SampleRate config / BaseFrequency config) * 10) in
  match readPartialBinaryFile fs (FilePath config) samplesToRead with
  | Fail f => ProcessFIR resultsDir MkdirAll fs config = ([], Fail f)
  | Ok data =>
      match stackAndResample data (SampleRate config) (BaseFrequency config)
              2048 with
      | Fail f => ProcessFIR resultsDir MkdirAll fs config = ([20], Fail f)
      | Ok stacked =>
          len stacked = 2048
          /\ exists perfect coefficients filtered,
               generatePerfectSquareWave stacked = Ok perfect
               /\ len perfect = 2048
               /\ regularizedLeastSquares stacked perfect (Stabilization config)
                  = Ok coefficients
               /\ len coefficients = 2048
               /\ applyFIRFilter stacked coefficients = Ok filtered
               /\ len filtered = 2048
               /\ ProcessFIR resultsDir MkdirAll fs config
                  = ([20; 40; 60; 80; 100],
                     if MkdirAll (resultsDir (FilePath config))
                     then Ok (mkProcessFIRResult coefficients filtered stacked
                                perfect)
                     else Fail (Error "error creating results directory"))
      end
  end.
Proof.
  cbv zeta. unfold ProcessFIR.
  destruct (readPartialBinaryFile fs (FilePath config) _) as [data|f];
    [|reflexivity].
  destruct (stackAndResample data _ _ 2048) as [stacked|f] eqn:Hstack;
    [|reflexivity].
  pose proof (stackAndResample_len _ _ _ _ _ Hstack) as Hlen.
  split; [exact Hlen|].
  destruct (generatePerfectSquareWave_total stacked) as (perfect & Hp & Hlp).
  destruct (regularizedLeastSquares_total stacked perfect (Stabilization config))
    as (coefficients & Hc & Hlc); [lia | lia |].
  pose proof (applyFIRFilter_spec stacked coefficients ltac:(lia)) as Hf.
  exists perfect, coefficients. eexists.
  split_and!; [exact Hp | lia | exact Hc | lia | exact Hf | |].
  - rewrite len_tabulate by lia. exact Hlen.
  - rewrite Hp, Hc, Hf. cbn [app].
    destruct (MkdirAll (resultsDir (FilePath config))); reflexivity.
Qed.

(** A recording without a single complete sample.  [ProcessFIR] asks for
    ten cycles, that is for [cycle * 10 * 4] bytes, both products wrapped
    to an [int].  If that byte count is negative the read stops at the
    allocation of its buffer and no progress is reported; otherwise the
    read returns no sample, 20 is reported and the stacking stops.  For a
    cycle length from 0 up to [2^57 - 1] nothing wraps and the second case
    applies. *)
Theorem ProcessFIR_empty_recording_stops (fs : filesystem) (config : FIRConfig)
  (content : list Byte.byte) :
  fs (FilePath config) = Some content -> len content < 4 ->
  let samplesPerCycle :=
    int_of_float64 (SampleRate config / BaseFrequency config) in
  let bytesToRead := wrap64 (wrap64 (samplesPerCycle * 10) * 4) in
  (exists f,
     ProcessFIR resultsDir MkdirAll fs config
     = (if bytesToRead <? 0 then [] else [20], Fail f))
  /\ (0 <= samplesPerCycle < 2 ^ 57 ->
      0 <= bytesToRead
      /\ exists f, ProcessFIR resultsDir MkdirAll fs config = ([20], Fail f)).
Proof.
  intros Hfs Hsize spc bytes.
  assert (Hrun : exists f,
             ProcessFIR resultsDir MkdirAll fs config
             = (if bytes <? 0 then [] else [20], Fail f)).
  { unfold ProcessFIR. fold spc.
    rewrite (readPartialBinaryFile_wrapped fs _ content _ Hfs).
    cbv zeta. fold bytes.
    destruct (Z.ltb_spec bytes 0) as [Hneg|Hpos]; [eexists; reflexivity|].
    pose proof (len_nonneg content) as Hn.
    pose proof (quot4_bounds bytes Hpos) as Hb.
    replace (Z.quot (len content) 4) with 0
      by (symmetry; apply Z.quot_small; lia).
    rewrite Z.min_r by lia. change (seqZ 0 0) with (@nil Z).
    cbn [fmap list_fmap].
    pose proof (stackAndResample_nil (SampleRate config) (BaseFrequency config)
                  2048 ltac:(lia)) as Hstop.
    destruct (stackAndResample [] _ _ 2048) as [r|f]; [destruct Hstop|].
    exists f. reflexivity. }
  split; [exact Hrun|].
  intros Hspc.
  assert (Hbytes : bytes = spc * 40).
  { unfold bytes. rewrite (wrap64_small (spc * 10)) by lia.
    rewrite wrap64_small by lia. lia. }
  split; [lia|].
  destruct Hrun as [f Hf]. exists f. rewrite Hf.
  destruct (Z.ltb_spec bytes 0); [lia | reflexivity].
Qed.

End Pipeline.

Section PipelineWitness.
Import Go fir Spec.

(** [ProcessFIR_empty_recording_stops] at a concrete input. *)
Lemma ProcessFIR_empty_recording_stops_witness :
  let config := mkFIRConfig "rec.bin" "coil" 51200 1000 0.01 in
  let fs : filesystem := fun _ => Some [Byte.x00; Byte.x01] in
  let samplesPerCycle :=
    int_of_float64 (SampleRate config / BaseFrequency config) in
  let bytesToRead := wrap64 (wrap64 (samplesPerCycle * 10) * 4) in
  (exists f,
     ProcessFIR (fun path => path) (fun _ => true) fs config
     = (if bytesToRead <? 0 then [] else [20], Fail f))
  /\ (0 <= samplesPerCycle < 2 ^ 57 ->
      0 <= bytesToRead
      /\ exists f,
           ProcessFIR (fun path => path) (fun _ => true) fs config
           = ([20], Fail f)).
Proof.
  cbv zeta.
  apply (ProcessFIR_empty_recording_stops (fun path => path) (fun _ => true)
           (fun _ => Some [Byte.x00; Byte.x01])
           (mkFIRConfig "rec.bin" "coil" 51200 1000 0.01)
           [Byte.x00; Byte.x01]).
  - reflexivity.
  - vm_compute. reflexivity.
Defined.

End PipelineWitness.

(** ** [fft]: the magnitudes of the spectrum *)

Section Magnitudes.
Import Go fft Spec.

Variable Cos : float -> float.
Variable Log10 : float -> float.
Variable cmplxAbs : float * float -> float.
Variable Coefficients : list float -> Z -> float * float.

Lemma mul_zero_not_positive (x : float) : gtb (x * 0) 0 = false.
Proof.
  unfold gtb. rewrite FloatAxioms.ltb_spec, FloatAxioms.mul_spec.
  change (Prim2SF 0) with (S754_zero false).
  destruct (Prim2SF x) as [[]|[]| |[] m e]; reflexivity.
Qed.

Lemma zero_has_no_magnitude (v : float) :
  PrimFloat.eqb v 0 = true -> gtb (PrimFloat.abs v) 0 = false.
Proof.
  unfold gtb. rewrite FloatAxioms.eqb_spec, FloatAxioms.ltb_spec, FloatAxioms.abs_spec.
  change (Prim2SF 0) with (S754_zero false).
  destruct (Prim2SF v) as [[]|[]| |[] m e]; simpl; intros H;
    first [discriminate | reflexivity].
Qed.

Lemma meanAndMaxAbs_silent (data : list float) :
  Forall (fun v => PrimFloat.eqb v 0 = true) data ->
  (meanAndMaxAbs data).2 = 0%float.
Proof.
  intros Hsilent. unfold meanAndMaxAbs. generalize 0%float at 1 as mean.
  induction Hsilent as [|v l Hv _ IH]; intros mean; [reflexivity|].
  cbn [fold_left]. rewrite (zero_has_no_magnitude v Hv). apply IH.
Qed.

(** The run of [ComputeFFT] on a buffer that is not empty, with the
    magnitude of every bin. *)
Lemma ComputeFFT_magnitudes (x : float) (xs : list float) (sampleRate : float) :
  exists (input : list float) (windowSum : float),
    ComputeFFT Cos Log10 cmplxAbs Coefficients (x :: xs) sampleRate
    = Ok (mkFFTResult
            ((fun i => (relFreq i * (sampleRate / 2))%float)
               <$> seqZ 0 (Z.quot fftSize 2 + 1))
            ((fun i =>
                let magnitude := cmplxAbs (Coefficients input i) in
                let magnitude :=
                  (magnitude
                   * (float64_of_int fftSize / windowSum
                      / float64_of_int fftSize))%float in
                let magnitude :=
                  if (0 <? i) && (i <? Z.quot fftSize 2 + 1 - 1)
                  then (magnitude * 2)%float else magnitude in
                let power := (magnitude * (meanAndMaxAbs (x :: xs)).2)%float in
                if gtb power 0%float then (20 * Log10 power)%float
                else MinMagnitude)
               <$> seqZ 0 (Z.quot fftSize 2 + 1))
            [] sampleRate).
Proof.
  unfold ComputeFFT.
  assert (Hdata : 1 <= len (x :: xs)).
  { unfold len. simpl length. lia. }
  destruct (Z.eqb_spec (len (x :: xs)) 0) as [E|_]; [lia|].
  destruct (meanAndMaxAbs (x :: xs)) as [mean maxAbs]. cbn [snd].
  set (data := x :: xs) in *.
  assert (Hsize : fftSize = 65536) by reflexivity.
  set (numFreqs := Z.quot fftSize 2 + 1).
  assert (HnumFreqs : numFreqs = 32769) by reflexivity.
  clearbody numFreqs.
  rewrite (make_Ok 0%float fftSize) by lia. cbn [mbind result_bind].
  loop_pres (fun input : list float => len input = fftSize) as input Hinput.
  { apply len_replicate. lia. }
  { intros i input Hi Hinput. unfold fir.min in Hi.
    destruct (index_in_range data i) as (d & -> & _).
    { destruct (Z.ltb_spec fftSize (len data)); lia. }
    cbn [mbind result_bind]. rewrite store_Ok.
    2:{ destruct (Z.ltb_spec fftSize (len data)); lia. }
    eexists. split; [reflexivity | rewrite len_insert; exact Hinput]. }
  rewrite Hinput.
  match goal with
  | |- context [mbind _ (forRange ?lo ?hi ?body ?init)] =>
      destruct (forRange_pres
        (fun s : list float * float => len s.1 = fftSize) body lo hi init)
        as ([windowed windowSum] & -> & Hwindowed);
      [ | | cbn [mbind result_bind] ]
  end.
  { exact Hinput. }
  { intros i [t w] Hi Ht. simpl in Ht.
    destruct (index_in_range t i) as (y & -> & _); [lia|].
    cbn [mbind result_bind]. rewrite store_Ok by lia.
    cbn [mbind result_bind]. eexists. split; [reflexivity|].
    simpl. rewrite len_insert. exact Ht. }
  rewrite !make_Ok by lia. cbn [mbind result_bind].
  exists windowed, windowSum.
  rewrite (forRange_tabulate_pair numFreqs _
             (fun i => (relFreq i * (sampleRate / 2))%float)
             (fun i =>
                let magnitude := cmplxAbs (Coefficients windowed i) in
                let magnitude :=
                  (magnitude
                   * (float64_of_int fftSize / windowSum
                      / float64_of_int fftSize))%float in
                let magnitude :=
                  if (0 <? i) && (i <? numFreqs - 1)
                  then (magnitude * 2)%float else magnitude in
                let power := (magnitude * maxAbs)%float in
                if gtb power 0%float then (20 * Log10 power)%float
                else MinMagnitude)).
  - reflexivity.
  - apply len_replicate. lia.
  - apply len_replicate. lia.
  - intros i frequencies magnitudes Hi Hf Hm. unfold binStep, Freq.
    destruct (Z.ltb_spec i 0); [lia|].
    destruct (Z.leb_spec fftSize i); [lia|].
    cbn [orb mbind result_bind]. cbv zeta.
    match goal with
    | |- context [if gtb ?p 0 then _ else _] => destruct (gtb p 0)
    end; rewrite !store_Ok by lia; reflexivity.
Qed.

(** [ComputeFFT] fails on the empty buffer and on no other.  On every
    other buffer and at every sample rate it returns 32769 frequencies and
    32769 magnitudes and hands the sample rate back; a magnitude is either
    the floor of -120 dB or 20 log10 of a power that is positive, so no
    logarithm of zero or of a negative number is ever taken. *)
Theorem ComputeFFT_result_shape (data : list float) (sampleRate : float) :
  match data with
  | [] =>
      ComputeFFT Cos Log10 cmplxAbs Coefficients data sampleRate
      = Fail (Error "empty input data")
  | _ :: _ =>
      exists r,
        ComputeFFT Cos Log10 cmplxAbs Coefficients data sampleRate = Ok r
        /\ len (Frequencies r) = 32769
        /\ len (Magnitudes r) = 32769
        /\ SampleRate r = sampleRate
        /\ Forall
             (fun m => m = MinMagnitude
                       \/ exists power, gtb power 0 = true
                                        /\ m = (20 * Log10 power)%float)
             (Magnitudes r)
  end.
Proof.
  destruct data as [|x xs]; [reflexivity|].
  destruct (ComputeFFT_magnitudes x xs sampleRate) as (input & windowSum & ->).
  eexists. split; [reflexivity|]. cbn [Frequencies Magnitudes SampleRate].
  change (Z.quot fftSize 2 + 1) with 32769.
  split_and!; [apply len_tabulate; lia | apply len_tabulate; lia | reflexivity |].
  apply Forall_fmap, Forall_forall. intros i _. unfold compose. cbv beta zeta.
  match goal with
  | |- context [if gtb ?p 0 then _ else _] => destruct (gtb p 0) eqn:Hp
  end; [right; eexists; split; [exact Hp | reflexivity] | left; reflexivity].
Qed.

(** A buffer of zeros has no spectrum: whatever the transform returns,
    every one of the 32769 magnitudes is the floor of -120 dB. *)
Theorem ComputeFFT_silence_is_the_floor
  (x : float) (xs : list float) (sampleRate : float) :
  Forall (fun v => PrimFloat.eqb v 0 = true) (x :: xs) ->
  exists r,
    ComputeFFT Cos Log10 cmplxAbs Coefficients (x :: xs) sampleRate = Ok r
    /\ Magnitudes r = replicate (Z.to_nat 32769) MinMagnitude.
Proof.
  intros Hsilent.
  destruct (ComputeFFT_magnitudes x xs sampleRate) as (input & windowSum & ->).
  eexists. split; [reflexivity|]. cbn [Magnitudes].
  rewrite (meanAndMaxAbs_silent _ Hsilent).
  change (Z.quot fftSize 2 + 1) with 32769.
  rewrite <- (tabulate_const MinMagnitude 32769).
  apply tabulate_ext. intros i Hi. cbv beta zeta.
  rewrite mul_zero_not_positive. reflexivity.
Qed.

End Magnitudes.

Section MagnitudesWitness.
Import Go fft Spec.

(** [ComputeFFT_silence_is_the_floor] at a concrete input, with transform
    routines that return 1 everywhere. *)
Lemma ComputeFFT_silence_is_the_floor_witness :
  exists r,
    ComputeFFT (fun _ => 1%float) (fun _ => 1%float) (fun _ => 1%float)
      (fun _ _ => (1%float, 1%float)) [0; -0; 0]%float 51200
    = Ok r
    /\ Magnitudes r = replicate (Z.to_nat 32769) MinMagnitude.
Proof.
  apply (ComputeFFT_silence_is_the_floor (fun _ => 1%float) (fun _ => 1%float)
           (fun _ => 1%float) (fun _ _ => (1%float, 1%float))
           0%float [(-0)%float; 0%float] 51200).
  repeat constructor.
Defined.

End MagnitudesWitness.

(** ** [fft]: the peaks of a spectrum *)

Section Peaks.
Import Go fft Spec.

Lemma ltb_asym (a b : float) :
  PrimFloat.ltb a b = true -> PrimFloat.ltb b a = false.
Proof.
  intros Hab. destruct (PrimFloat.ltb b a) eqn:Hba; [|reflexivity].
  pose proof (ltb_trans _ _ _ Hab Hba) as H. rewrite ltb_irrefl in H.
  discriminate.
Qed.

Lemma sorted_take {A} (R : A -> A -> Prop) (n : nat) (l : list A) :
  StronglySorted R l -> StronglySorted R (take n l).
Proof.
  intros H. revert n. induction H as [|x l Hl IH Hx]; intros [|n]; simpl;
    try constructor.
  - apply IH.
  - apply Forall_take. exact Hx.
Qed.

(** Inserting a peak into a list sorted by falling magnitude. *)
Lemma insertPeak_spec (p : list float) (l : list (list float)) :
  len p = 2 -> Forall (fun q => len q = 2) l ->
  exists l',
    insertPeak p l = Ok l' /\ l' ≡ₚ p :: l
    /\ (StronglySorted
          (fun a b => PrimFloat.ltb (elem a 1) (elem b 1) = false) l ->
        StronglySorted
          (fun a b => PrimFloat.ltb (elem a 1) (elem b 1) = false) l').
Proof.
  intros Hp. induction 1 as [|q l Hq Hl IH]; cbn [insertPeak].
  - eexists. split_and!; [reflexivity | reflexivity |].
    intros _. repeat constructor.
  - unfold peakBefore.
    destruct (index_in_range p 1) as (a & -> & Ha); [lia|].
    destruct (index_in_range q 1) as (b & -> & Hb); [lia|].
    cbn [mbind result_bind]. unfold gtb.
    rewrite <- (elem_lookup Ha), <- (elem_lookup Hb).
    destruct (PrimFloat.ltb (elem q 1) (elem p 1)) eqn:Hbefore.
    + eexists. split_and!; [reflexivity | reflexivity |].
      intros Hsorted. constructor; [exact Hsorted|].
      apply StronglySorted_inv in Hsorted as [_ Hrest].
      constructor; [apply ltb_asym; exact Hbefore|].
      eapply Forall_impl; [exact Hrest|]. cbv beta. intros r Hr.
      destruct (PrimFloat.ltb (elem p 1) (elem r 1)) eqn:Hpr; [|reflexivity].
      rewrite (ltb_trans _ _ _ Hbefore Hpr) in Hr. discriminate.
    + destruct IH as (l' & -> & Hperm & Hsorted'). cbn [mbind result_bind].
      eexists. split_and!; [reflexivity | |].
      * rewrite Hperm. apply Permutation_swap.
      * intros Hsorted. apply StronglySorted_inv in Hsorted as [Htail Hrest].
        constructor; [apply Hsorted'; exact Htail|].
        rewrite Hperm. constructor; [exact Hbefore | exact Hrest].
Qed.

Lemma sortPeaks_spec (l : list (list float)) :
  Forall (fun q => len q = 2) l ->
  exists sorted,
    sortPeaks l = Ok sorted /\ sorted ≡ₚ l
    /\ StronglySorted
         (fun a b => PrimFloat.ltb (elem a 1) (elem b 1) = false) sorted.
Proof.
  intros Hl. unfold sortPeaks.
  assert (G : forall acc,
    Forall (fun q => len q = 2) acc ->
    StronglySorted (fun a b => PrimFloat.ltb (elem a 1) (elem b 1) = false) acc ->
    exists sorted,
      forEach l (fun p sorted => insertPeak p sorted) acc = Ok sorted
      /\ sorted ≡ₚ l ++ acc
      /\ StronglySorted
           (fun a b => PrimFloat.ltb (elem a 1) (elem b 1) = false) sorted).
  { induction Hl as [|p l Hp Hl IH]; intros acc Hacc Hsorted; cbn [forEach].
    - eexists. split_and!; [reflexivity | reflexivity | exact Hsorted].
    - destruct (insertPeak_spec p acc Hp Hacc) as (acc' & -> & Hperm & Hs).
      cbn [mbind result_bind].
      destruct (IH acc') as (sorted & -> & Hperm' & Hs').
      + rewrite Hperm. constructor; assumption.
      + apply Hs. exact Hsorted.
      + exists sorted. split_and!; [reflexivity | | exact Hs'].
        rewrite Hperm', Hperm. symmetry. apply Permutation_middle. }
  destruct (G [] ltac:(constructor) ltac:(constructor))
    as (sorted & -> & Hperm & Hs).
  rewrite app_nil_r in Hperm. eauto.
Qed.

(** On a spectrum with a frequency for every magnitude,
    [findPeaksWithFundamental] never stops.  It reports at most ten peaks,
    by falling magnitude; each is a pair of frequency and magnitude of one
    bin, away from the two ends of the spectrum, whose frequency lies
    strictly between 500 Hz and 25000 Hz and whose magnitude exceeds those
    of its two neighbours on either side.  A spectrum of fewer than five
    bins has no peak. *)
Theorem findPeaksWithFundamental_reports_at_most_ten
  (frequencies magnitudes : list float) :
  len magnitudes <= len frequencies ->
  exists peaks,
    findPeaksWithFundamental frequencies magnitudes = Ok peaks
    /\ len peaks <= 10
    /\ StronglySorted
         (fun p q => PrimFloat.ltb (elem p 1) (elem q 1) = false) peaks
    /\ Forall
         (fun p => exists i,
            2 <= i < len magnitudes - 2
            /\ p = [elem frequencies i; elem magnitudes i]
            /\ gtb (elem frequencies i) 500 = true
            /\ PrimFloat.ltb (elem frequencies i) 25000 = true
            /\ gtb (elem magnitudes i) (elem magnitudes (i - 2)) = true
            /\ gtb (elem magnitudes i) (elem magnitudes (i - 1)) = true
            /\ gtb (elem magnitudes i) (elem magnitudes (i + 1)) = true
            /\ gtb (elem magnitudes i) (elem magnitudes (i + 2)) = true)
         peaks
    /\ (len magnitudes < 5 -> peaks = []).
Proof.
  intros Hlen. unfold findPeaksWithFundamental.
  set (threshold := (_ - 60)%float).
  set (peak := fun p : list float => exists i,
     2 <= i < len magnitudes - 2
     /\ p = [elem frequencies i; elem magnitudes i]
     /\ gtb (elem frequencies i) 500 = true
     /\ PrimFloat.ltb (elem frequencies i) 25000 = true
     /\ gtb (elem magnitudes i) (elem magnitudes (i - 2)) = true
     /\ gtb (elem magnitudes i) (elem magnitudes (i - 1)) = true
     /\ gtb (elem magnitudes i) (elem magnitudes (i + 1)) = true
     /\ gtb (elem magnitudes i) (elem magnitudes (i + 2)) = true).
  loop_pres (fun peaks : list (list float) =>
               Forall peak peaks /\ (len magnitudes < 5 -> peaks = []))
    as found Hfound.
  { split; [constructor | reflexivity]. }
  { intros i peaks Hi [Hpeaks _].
    destruct (index_in_range frequencies i) as (fi & -> & Hfi); [lia|].
    cbn [mbind result_bind].
    destruct (PrimFloat.ltb fi 50).
    { eexists. split; [reflexivity|]. split; [exact Hpeaks | lia]. }
    destruct (index_in_range magnitudes i) as (m & -> & Hm); [lia|].
    destruct (index_in_range magnitudes (i - 2)) as (m2 & -> & Hm2); [lia|].
    destruct (index_in_range magnitudes (i - 1)) as (m1 & -> & Hm1); [lia|].
    destruct (index_in_range magnitudes (i + 1)) as (p1 & -> & Hp1); [lia|].
    destruct (index_in_range magnitudes (i + 2)) as (p2 & -> & Hp2); [lia|].
    cbn [mbind result_bind].
    destruct (gtb m threshold); cbn [andb];
      [|eexists; split; [reflexivity|]; split; [exact Hpeaks | lia]].
    destruct (gtb m m2) eqn:G2; cbn [andb];
      [|eexists; split; [reflexivity|]; split; [exact Hpeaks | lia]].
    destruct (gtb m m1) eqn:G1; cbn [andb];
      [|eexists; split; [reflexivity|]; split; [exact Hpeaks | lia]].
    destruct (gtb m p1) eqn:G3; cbn [andb];
      [|eexists; split; [reflexivity|]; split; [exact Hpeaks | lia]].
    destruct (gtb m p2) eqn:G4;
      [|eexists; split; [reflexivity|]; split; [exact Hpeaks | lia]].
    destruct (gtb fi 500) eqn:Glow; cbn [andb];
      [|eexists; split; [reflexivity|]; split; [exact Hpeaks | lia]].
    destruct (PrimFloat.ltb fi 25000) eqn:Ghigh;
      [|eexists; split; [reflexivity|]; split; [exact Hpeaks | lia]].
    eexists. split; [reflexivity|]. split; [|lia].
    apply Forall_app. split; [exact Hpeaks|]. repeat constructor.
    exists i. rewrite (elem_lookup Hfi), (elem_lookup Hm), (elem_lookup Hm2),
      (elem_lookup Hm1), (elem_lookup Hp1), (elem_lookup Hp2).
    split_and!; first [lia | reflexivity | assumption]. }
  destruct Hfound as [Hpeaks Hnone].
  destruct (sortPeaks_spec found) as (sorted & -> & Hperm & Hsorted).
  { eapply Forall_impl; [exact Hpeaks|]. cbv beta.
    intros p (i & _ & -> & _). reflexivity. }
  cbn [mbind result_bind].
  assert (Hall : Forall peak sorted) by (rewrite Hperm; exact Hpeaks).
  assert (Hshort : len magnitudes < 5 -> sorted = []).
  { intros H5. rewrite (Hnone H5) in Hperm.
    apply Permutation_nil_r in Hperm. exact Hperm. }
  destruct (Z.ltb_spec 10 (len sorted)) as [Hmany|Hfew].
  - rewrite slice_Ok by lia. change (Z.to_nat (10 - 0)) with 10%nat.
    change (Z.to_nat 0) with 0%nat. rewrite drop_0.
    eexists. split_and!; [reflexivity | | | |].
    + unfold len. rewrite length_take. lia.
    + apply sorted_take. exact Hsorted.
    + apply Forall_take. exact Hall.
    + intros H5. rewrite (Hshort H5). reflexivity.
  - exists sorted. split_and!; [reflexivity | lia | exact Hsorted | exact Hall
                               | exact Hshort].
Qed.

(** [findPeaksWithFundamental_reports_at_most_ten] at a concrete input. *)
Lemma findPeaksWithFundamental_reports_at_most_ten_witness :
  let frequencies := [0; 300; 600; 900; 1200; 1500; 1800; 2100; 2400]%float in
  let magnitudes := [-100; -90; -20; -90; -95; -80; -10; -70; -100]%float in
  exists peaks,
    findPeaksWithFundamental frequencies magnitudes = Ok peaks
    /\ len peaks <= 10
    /\ StronglySorted
         (fun p q => PrimFloat.ltb (elem p 1) (elem q 1) = false) peaks
    /\ Forall
         (fun p => exists i,
            2 <= i < len magnitudes - 2
            /\ p = [elem frequencies i; elem magnitudes i]
            /\ gtb (elem frequencies i) 500 = true
            /\ PrimFloat.ltb (elem frequencies i) 25000 = true
            /\ gtb (elem magnitudes i) (elem magnitudes (i - 2)) = true
            /\ gtb (elem magnitudes i) (elem magnitudes (i - 1)) = true
            /\ gtb (elem magnitudes i) (elem magnitudes (i + 1)) = true
            /\ gtb (elem magnitudes i) (elem magnitudes (i + 2)) = true)
         peaks
    /\ (len magnitudes < 5 -> peaks = []).
Proof.
  cbv zeta.
  apply (findPeaksWithFundamental_reports_at_most_ten
           [0; 300; 600; 900; 1200; 1500; 1800; 2100; 2400]%float
           [-100; -90; -20; -90; -95; -80; -10; -70; -100]%float).
  vm_compute. discriminate.
Defined.

End Peaks.

(** ** [fir]: the matrices of the least-squares problem *)

Section MatrixContent.
Import Go fir Spec.

(** A loop whose turn [j] stores [g j] into cell [j], when the turn may
    depend on the cells not yet stored. *)
Lemma forRange_tabulate_fresh {A} (n : Z) (body : Z -> list A -> result (list A))
  (g : Z -> A) (r0 : list A) :
  len r0 = n ->
  (forall j, 0 <= j < n ->
     body j ((g <$> seqZ 0 j) ++ drop (Z.to_nat j) r0)
     = Ok (<[Z.to_nat j := g j]> ((g <$> seqZ 0 j) ++ drop (Z.to_nat j) r0))) ->
  forRange 0 n body r0 = Ok (g <$> seqZ 0 n).
Proof.
  intros Hlen Hbody.
  assert (Hn : 0 <= n) by (rewrite <- Hlen; apply len_nonneg).
  destruct (forRange_inv
    (fun j r => r = (g <$> seqZ 0 j) ++ drop (Z.to_nat j) r0)
    body 0 n r0 Hn) as (r & Hr & Hfinal).
  - cbv beta. rewrite seqZ_nil by lia. reflexivity.
  - intros j t Hj ->.
    assert (Hpre : length (g <$> seqZ 0 j) = Z.to_nat j).
    { rewrite length_fmap, length_seqZ. reflexivity. }
    destruct (lookup_lt_is_Some_2 r0 (Z.to_nat j)) as [x Hx].
    { unfold len in Hlen. lia. }
    eexists. split; [apply Hbody; lia|].
    rewrite insert_app_r_alt by lia. rewrite Hpre, Nat.sub_diag.
    rewrite (drop_S _ _ _ Hx). simpl.
    rewrite seqZ_snoc by lia. rewrite fmap_app. simpl.
    rewrite <- app_assoc. simpl.
    replace (Z.to_nat (j + 1)) with (S (Z.to_nat j)) by lia. reflexivity.
  - rewrite Hr. f_equal. rewrite Hfinal.
    rewrite drop_ge by (unfold len in Hlen; lia). apply app_nil_r.
Qed.

Lemma index_tabulate {A} (h : Z -> A) (n i : Z) :
  0 <= i < n -> index (h <$> seqZ 0 n) i = Ok (h i).
Proof.
  intros Hi. apply index_Ok. split; [lia|].
  rewrite list_lookup_fmap, lookup_seqZ_lt by lia.
  cbn [fmap option_fmap option_map]. do 2 f_equal. lia.
Qed.

Lemma index_fresh {A} (g : Z -> A) (r0 : list A) (n j : Z) :
  len r0 = n -> 0 <= j < n ->
  index ((g <$> seqZ 0 j) ++ drop (Z.to_nat j) r0) j = index r0 j.
Proof.
  intros Hlen Hj. unfold index. destruct (j <? 0); [reflexivity|].
  rewrite lookup_app_r by (rewrite length_fmap, length_seqZ; lia).
  rewrite length_fmap, length_seqZ, Nat.sub_diag, lookup_drop, Nat.add_0_r.
  reflexivity.
Qed.

Lemma len_fresh {A} (g : Z -> A) (r0 : list A) (n j : Z) :
  len r0 = n -> 0 <= j < n ->
  len ((g <$> seqZ 0 j) ++ drop (Z.to_nat j) r0) = n.
Proof.
  intros Hlen Hj. unfold len in *.
  rewrite length_app, length_fmap, length_seqZ, length_drop. lia.
Qed.

Lemma cell_tabulate (f : Z -> Z -> float) (p q i j : Z) :
  0 <= i < p -> 0 <= j < q ->
  cell ((fun i => (fun j => f i j) <$> seqZ 0 q) <$> seqZ 0 p) i j = f i j.
Proof.
  intros Hi Hj. unfold cell.
  rewrite list_lookup_fmap, lookup_seqZ_lt by lia.
  cbn [fmap option_fmap option_map default from_option id].
  replace (0 + Z.of_nat (Z.to_nat i)) with i by lia.
  apply (elem_tabulate (f i)). exact Hj.
Qed.

Lemma cell_index (p q : Z) (m : list (list float)) (i j : Z) :
  shaped p q m -> 0 <= i < p -> 0 <= j < q ->
  exists row, index m i = Ok row /\ len row = q
              /\ index row j = Ok (cell m i j).
Proof.
  intros [Hlen Hall] Hi Hj.
  destruct (index_in_range m i) as (row & Hrow & Hrow'); [lia|].
  pose proof (proj1 (Forall_lookup _ _) Hall _ _ Hrow') as Hq. cbv beta in Hq.
  destruct (index_in_range row j) as (x & Hx & Hx'); [lia|].
  exists row. split_and!; [exact Hrow | exact Hq |].
  rewrite Hx. unfold cell. rewrite Hrow'. cbn [default from_option id].
  rewrite (elem_lookup Hx'). reflexivity.
Qed.

Ltac cell_at Hm i j :=
  let row := fresh "row" in
  let H1 := fresh "Hrow" in
  let H2 := fresh "Hcell" in
  destruct (cell_index _ _ _ i j Hm ltac:(lia) ltac:(lia))
    as (row & H1 & _ & H2);
  rewrite H1; cbn [mbind Go.result_bind]; rewrite H2;
  cbn [mbind Go.result_bind].

Lemma shaped_tabulate (f : Z -> Z -> float) (p q : Z) :
  0 <= p -> 0 <= q ->
  shaped p q ((fun i => (fun j => f i j) <$> seqZ 0 q) <$> seqZ 0 p).
Proof.
  intros Hp Hq. split; [apply len_tabulate; exact Hp|].
  apply Forall_fmap, Forall_forall. intros i _. apply len_tabulate. exact Hq.
Qed.

(** A matrix is the table of its cells. *)
Lemma shaped_cells (p q : Z) (m : list (list float)) :
  shaped p q m ->
  m = (fun i => (fun j => cell m i j) <$> seqZ 0 q) <$> seqZ 0 p.
Proof.
  intros [Hlen Hall]. apply list_eq. intros k.
  rewrite list_lookup_fmap.
  destruct (decide (k < length m)%nat) as [Hk|Hk].
  - rewrite lookup_seqZ_lt by (unfold len in Hlen; lia).
    cbn [fmap option_fmap option_map].
    destruct (lookup_lt_is_Some_2 m k Hk) as [row Hrow]. rewrite Hrow. f_equal.
    pose proof (proj1 (Forall_lookup _ _) Hall _ _ Hrow) as Hq. cbv beta in Hq.
    rewrite <- (tabulate_elem row) at 1. rewrite Hq.
    apply tabulate_ext. intros j Hj. unfold cell.
    rewrite Z.add_0_l, Nat2Z.id, Hrow. reflexivity.
  - rewrite lookup_seqZ_ge by (unfold len in Hlen; lia).
    rewrite lookup_ge_None_2 by lia. reflexivity.
Qed.

Lemma insert_fill (pre : list float) (i : Z) (k : nat) (v z : float) :
  len pre = i -> (1 <= k)%nat ->
  <[Z.to_nat i := v]> (pre ++ replicate k z)
  = (pre ++ [v]) ++ replicate (k - 1) z.
Proof.
  intros Hpre Hk. unfold len in Hpre.
  rewrite insert_app_r_alt by lia.
  replace (Z.to_nat i - length pre)%nat with 0%nat by lia.
  destruct k as [|k]; [lia|]. replace (S k - 1)%nat with k by lia.
  cbn [replicate insert list_insert]. rewrite <- app_assoc. reflexivity.
Qed.

(** What [transposeMatrix] returns on a matrix with at least one row. *)
Lemma transposeMatrix_spec (rows cols : Z) (m : list (list float)) :
  shaped rows cols m -> 1 <= rows ->
  transposeMatrix m
  = Ok ((fun j => (fun i => cell m i j) <$> seqZ 0 rows) <$> seqZ 0 cols).
Proof.
  intros Hm Hrows. unfold transposeMatrix.
  destruct (shaped_row rows cols m 0 Hm) as (m0 & -> & Hm0); [lia|].
  cbn [mbind result_bind]. rewrite Hm0.
  pose proof (len_nonneg m0) as Hcols. rewrite Hm0 in Hcols.
  destruct Hm as [Hlen Hall]. rewrite Hlen.
  rewrite (make_Ok (@nil float) cols) by lia. cbn [mbind result_bind].
  rewrite len_replicate by lia.
  rewrite (forRange_tabulate cols _
             (fun _ => replicate (Z.to_nat rows) 0%float)).
  2: apply len_replicate; lia.
  2:{ intros i r Hi Hr. rewrite make_Ok by lia. cbn [mbind result_bind].
      apply store_Ok. lia. }
  cbn [mbind result_bind].
  set (upto := fun (i j : Z) =>
    ((fun i' => cell m i' j) <$> seqZ 0 i)
    ++ replicate (Z.to_nat (rows - i)) 0%float).
  destruct (forRange_inv
    (fun i result => result = (fun j => upto i j) <$> seqZ 0 cols)
    (fun i result =>
       forRange 0 cols
         (fun j result =>
            mi ← index m i;
            v ← index mi j;
            rj ← index result j;
            rj ← store rj i v;
            store result j rj)
         result)
    0 rows ((fun _ => replicate (Z.to_nat rows) 0%float) <$> seqZ 0 cols)
    ltac:(lia)) as (result & -> & ->).
  - apply tabulate_ext. intros j Hj. unfold upto.
    rewrite Z.sub_0_r. reflexivity.
  - intros i t Hi ->. eexists. split; [|reflexivity].
    apply forRange_tabulate_fresh; [apply len_tabulate; lia|].
    intros j Hj.
    pose proof (conj Hlen Hall : shaped rows cols m) as Hm.
    cell_at Hm i j.
    rewrite (index_fresh _ _ cols) by (rewrite ?len_tabulate; lia).
    rewrite index_tabulate by lia. cbn [mbind result_bind].
    assert (Hpre : len ((fun i' => cell m i' j) <$> seqZ 0 i) = i)
      by (apply len_tabulate; lia).
    unfold upto. rewrite store_Ok.
    2:{ rewrite len_app, Hpre, len_replicate by lia. lia. }
    cbn [mbind result_bind].
    rewrite insert_fill by first [exact Hpre | lia].
    rewrite store_Ok
      by (rewrite (len_fresh _ _ cols) by (rewrite ?len_tabulate; lia); lia).
    do 2 f_equal.
    rewrite (seqZ_snoc 0 i) by lia. rewrite fmap_app. cbn [fmap list_fmap].
    rewrite Z.add_0_l. f_equal. f_equal. lia.
  - f_equal. apply tabulate_ext. intros j Hj. unfold upto.
    rewrite Z.sub_diag. apply app_nil_r.
Qed.

(** Transposing twice gives the matrix back, cell for cell, when it has
    at least one row and one column; the transpose has the cells of the
    matrix with the indices exchanged. *)
Theorem transposeMatrix_involutive (rows cols : Z) (m : list (list float)) :
  shaped rows cols m -> 1 <= rows -> 1 <= cols ->
  exists t,
    transposeMatrix m = Ok t
    /\ shaped cols rows t
    /\ (forall i j, 0 <= i < rows -> 0 <= j < cols -> cell t j i = cell m i j)
    /\ transposeMatrix t = Ok m.
Proof.
  intros Hm Hrows Hcols.
  rewrite (transposeMatrix_spec rows cols m Hm Hrows).
  eexists. split; [reflexivity|].
  assert (Ht : shaped cols rows
    ((fun j => (fun i => cell m i j) <$> seqZ 0 rows) <$> seqZ 0 cols))
    by (apply (shaped_tabulate (fun j i => cell m i j)); lia).
  assert (Hcell : forall i j, 0 <= i < rows -> 0 <= j < cols ->
    cell ((fun j => (fun i => cell m i j) <$> seqZ 0 rows) <$> seqZ 0 cols) j i
    = cell m i j).
  { intros i j Hi Hj. apply (cell_tabulate (fun j i => cell m i j)); assumption. }
  split_and!; [exact Ht | exact Hcell |].
  rewrite (transposeMatrix_spec cols rows _ Ht Hcols). f_equal.
  etransitivity; [|symmetry; apply (shaped_cells rows cols m Hm)].
  apply tabulate_ext. intros i Hi. apply tabulate_ext. intros j Hj.
  apply Hcell; assumption.
Qed.

(** [transposeMatrix_involutive] at a concrete input. *)
Lemma transposeMatrix_involutive_witness :
  let m := [[1; 2; 3]; [4; 5; 6]]%float in
  exists t,
    transposeMatrix m = Ok t
    /\ shaped 3 2 t
    /\ (forall i j, 0 <= i < 2 -> 0 <= j < 3 -> cell t j i = cell m i j)
    /\ transposeMatrix t = Ok m.
Proof.
  cbv zeta.
  apply (transposeMatrix_involutive 2 3 [[1; 2; 3]; [4; 5; 6]]%float).
  - split; [reflexivity | repeat constructor].
  - lia.
  - lia.
Defined.

(** What [matrixMultiply] returns on matrices that fit. *)
Lemma matrixMultiply_spec (p q r : Z) (a b : list (list float)) :
  shaped p q a -> shaped q r b -> 1 <= q ->
  matrixMultiply a b
  = Ok ((fun i =>
           (fun j =>
              fold_left (fun sum k => (sum + cell a i k * cell b k j)%float)
                (seqZ 0 q) 0%float)
             <$> seqZ 0 r)
          <$> seqZ 0 p).
Proof.
  intros Ha Hb Hq. unfold matrixMultiply.
  destruct (shaped_row q r b 0 Hb) as (b0 & -> & Hb0); [lia|].
  cbn [mbind result_bind]. rewrite Hb0.
  pose proof (len_nonneg b0) as Hr. rewrite Hb0 in Hr.
  pose proof (proj1 Ha) as Hlena. pose proof (proj1 Hb) as Hlenb.
  rewrite Hlena, Hlenb.
  pose proof (len_nonneg a) as Hp. rewrite Hlena in Hp.
  rewrite (make_Ok (@nil float) p) by lia. cbn [mbind result_bind].
  rewrite len_replicate by lia.
  apply forRange_tabulate; [apply len_replicate; lia|].
  intros i result Hi Hresult.
  rewrite make_Ok by lia. cbn [mbind result_bind].
  rewrite (forRange_tabulate r _
    (fun j =>
       fold_left (fun sum k => (sum + cell a i k * cell b k j)%float)
         (seqZ 0 q) 0%float)).
  - cbn [mbind result_bind]. apply store_Ok. lia.
  - apply len_replicate. lia.
  - intros j row Hj Hrow.
    rewrite (forRange_fold _
      (fun sum k => (sum + cell a i k * cell b k j)%float)).
    + cbn [mbind result_bind]. rewrite Z.sub_0_r. apply store_Ok. lia.
    + lia.
    + intros k acc Hk.
      cell_at Ha i k. cell_at Hb k j. reflexivity.
Qed.

(** What [matrixVectorMultiply] returns on operands that fit. *)
Lemma matrixVectorMultiply_spec (p q : Z) (m : list (list float))
  (v : list float) :
  shaped p q m -> q <= len v ->
  matrixVectorMultiply m v
  = Ok ((fun i =>
           fold_left (fun sum j => (sum + cell m i j * elem v j)%float)
             (seqZ 0 q) 0%float)
          <$> seqZ 0 p).
Proof.
  intros Hm Hv. unfold matrixVectorMultiply.
  pose proof (proj1 Hm) as Hlen. rewrite Hlen.
  pose proof (len_nonneg m) as Hp. rewrite Hlen in Hp.
  rewrite make_Ok by lia. cbn [mbind result_bind].
  apply forRange_tabulate; [apply len_replicate; lia|].
  intros i result Hi Hresult.
  destruct (shaped_row p q m i Hm Hi) as (mi & Hmi & Hq). rewrite Hmi.
  cbn [mbind result_bind]. rewrite Hq.
  pose proof (len_nonneg mi) as Hq0. rewrite Hq in Hq0.
  rewrite (forRange_fold _
    (fun sum j => (sum + cell m i j * elem v j)%float)).
  - cbn [mbind result_bind]. rewrite Z.sub_0_r. apply store_Ok. lia.
  - lia.
  - intros j acc Hj.
    destruct (cell_index p q m i j Hm) as (row & Hrow & _ & Hcell); [lia | lia |].
    rewrite Hmi in Hrow. injection Hrow as <-. rewrite Hcell.
    cbn [mbind result_bind].
    destruct (index_in_range v j) as (vj & -> & Hvj); [lia|].
    cbn [mbind result_bind]. rewrite (elem_lookup Hvj). reflexivity.
Qed.

(** The product of two matrices that fit is the table of the sums, taken
    from 0 in the order of the inner index, of the products of their
    cells; the product of a matrix and a vector likewise. *)
Theorem matrixMultiply_cells (p q r : Z) (a b : list (list float))
  (v : list float) :
  shaped p q a -> shaped q r b -> 1 <= q -> q <= len v ->
  (exists c,
     matrixMultiply a b = Ok c /\ shaped p r c
     /\ forall i j, 0 <= i < p -> 0 <= j < r ->
          cell c i j
          = fold_left (fun sum k => (sum + cell a i k * cell b k j)%float)
              (seqZ 0 q) 0%float)
  /\ (exists w,
        matrixVectorMultiply a v = Ok w /\ len w = p
        /\ forall i, 0 <= i < p ->
             elem w i
             = fold_left (fun sum k => (sum + cell a i k * elem v k)%float)
                 (seqZ 0 q) 0%float).
Proof.
  intros Ha Hb Hq Hv.
  pose proof (len_nonneg a) as Hp. rewrite (proj1 Ha) in Hp.
  assert (Hr : 0 <= r).
  { destruct (shaped_row q r b 0 Hb) as (b0 & _ & <-); [lia|]. apply len_nonneg. }
  split.
  - rewrite (matrixMultiply_spec p q r a b Ha Hb Hq).
    eexists. split_and!; [reflexivity | |].
    + apply (shaped_tabulate
               (fun i j =>
                  fold_left (fun sum k => (sum + cell a i k * cell b k j)%float)
                    (seqZ 0 q) 0%float)); lia.
    + intros i j Hi Hj.
      apply (cell_tabulate
               (fun i j =>
                  fold_left (fun sum k => (sum + cell a i k * cell b k j)%float)
                    (seqZ 0 q) 0%float)); assumption.
  - rewrite (matrixVectorMultiply_spec p q a v Ha Hv).
    eexists. split_and!; [reflexivity | apply len_tabulate; lia |].
    intros i Hi. rewrite elem_tabulate by exact Hi. reflexivity.
Qed.

(** [matrixMultiply_cells] at a concrete input. *)
Lemma matrixMultiply_cells_witness :
  let a := [[1; 2]; [3; 4]; [5; 6]]%float in
  let b := [[1; 0; 2; 0]; [0; 1; 0; 2]]%float in
  let v := [10; 20]%float in
  (exists c,
     matrixMultiply a b = Ok c /\ shaped 3 4 c
     /\ forall i j, 0 <= i < 3 -> 0 <= j < 4 ->
          cell c i j
          = fold_left (fun sum k => (sum + cell a i k * cell b k j)%float)
              (seqZ 0 2) 0%float)
  /\ (exists w,
        matrixVectorMultiply a v = Ok w /\ len w = 3
        /\ forall i, 0 <= i < 3 ->
             elem w i
             = fold_left (fun sum k => (sum + cell a i k * elem v k)%float)
                 (seqZ 0 2) 0%float).
Proof.
  cbv zeta.
  apply (matrixMultiply_cells 3 2 4 [[1; 2]; [3; 4]; [5; 6]]%float
           [[1; 0; 2; 0]; [0; 1; 0; 2]]%float [10; 20]%float).
  - split; [reflexivity | repeat constructor].
  - split; [reflexivity | repeat constructor].
  - lia.
  - vm_compute. discriminate.
Defined.

Lemma float_mul_comm (x y : float) : (x * y = y * x)%float.
Proof.
  apply Prim2SF_inj. rewrite !FloatAxioms.mul_spec. unfold SF64mul, SFmul.
  destruct (Prim2SF x) as [sx|sx| |sx mx ex], (Prim2SF y) as [sy|sy| |sy my ey];
    try reflexivity; rewrite (xorb_comm sx sy); try reflexivity.
  rewrite (Pos.mul_comm mx my), (Z.add_comm ex ey). reflexivity.
Qed.

Lemma cell_insert (row : Z -> list float) (c : Z -> float) (n i j : Z) :
  0 <= i < n -> 0 <= j -> len (row i) = n ->
  cell ((fun i => <[Z.to_nat i := c i]> (row i)) <$> seqZ 0 n) i j
  = if i =? j then c i else elem (row i) j.
Proof.
  intros Hi Hj Hrow. unfold cell.
  rewrite list_lookup_fmap, lookup_seqZ_lt by lia.
  cbn [fmap option_fmap option_map default from_option id].
  replace (0 + Z.of_nat (Z.to_nat i)) with i by lia. unfold elem.
  destruct (Z.eqb_spec i j) as [->|Hne].
  - rewrite list_lookup_insert_eq by (unfold len in Hrow; lia). reflexivity.
  - rewrite list_lookup_insert_ne by lia. reflexivity.
Qed.

(** The system [regularizedLeastSquares] solves.  For a waveform [x] of
    [n] samples and a reference [b], the matrix is the circular
    autocorrelation of [x], cell [(i, j)] being the sum over [k] of
    [x[(i+k) mod n] * x[(j+k) mod n]], with the mean of its diagonal times
    the regularization added on the diagonal; the right-hand side is the
    circular cross-correlation, entry [i] being the sum over [k] of
    [x[(i+k) mod n] * b[k]].  The matrix is symmetric, as binary64 numbers
    and not only in exact arithmetic. *)
Theorem normalEquations_correlations (imperfect perfect : list float)
  (regParam : float) :
  len imperfect = len perfect -> 1 <= len imperfect ->
  let n := len imperfect in
  let auto (i j : Z) :=
    fold_left
      (fun sum k =>
         (sum + elem imperfect ((i + k) `mod` n)
                * elem imperfect ((j + k) `mod` n))%float)
      (seqZ 0 n) 0%float in
  let diagMean :=
    (fold_left (fun sum i => (sum + auto i i)%float) (seqZ 0 n) 0%float
     / float64_of_int n)%float in
  exists ATA ATb,
    normalEquations imperfect perfect regParam = Ok (ATA, ATb)
    /\ regularizedLeastSquares imperfect perfect regParam
       = solveLinearSystem ATA ATb
    /\ (forall i j, 0 <= i < n -> 0 <= j < n ->
          cell ATA i j
          = if i =? j then (auto i i + diagMean * regParam)%float
            else auto i j)
    /\ (forall i j, 0 <= i < n -> 0 <= j < n -> cell ATA i j = cell ATA j i)
    /\ (forall i, 0 <= i < n ->
          elem ATb i
          = fold_left
              (fun sum k =>
                 (sum + elem imperfect ((i + k) `mod` n) * elem perfect k)%float)
              (seqZ 0 n) 0%float).
Proof.
  intros Hlen HN n auto diagMean.
  assert (Hsym : forall i j, auto i j = auto j i).
  { intros i j. unfold auto. apply fold_left_ext_in. intros acc k _.
    f_equal. apply float_mul_comm. }
  set (A := (fun k => (fun j => elem imperfect ((j + k) `mod` n)) <$> seqZ 0 n)
              <$> seqZ 0 n).
  assert (HA : shaped n n A)
    by (apply (shaped_tabulate (fun k j => elem imperfect ((j + k) `mod` n)));
        lia).
  assert (HcellA : forall k j, 0 <= k < n -> 0 <= j < n ->
            cell A k j = elem imperfect ((j + k) `mod` n)).
  { intros k j Hk Hj.
    apply (cell_tabulate (fun k j => elem imperfect ((j + k) `mod` n)));
      assumption. }
  set (At := (fun i => (fun k => cell A k i) <$> seqZ 0 n) <$> seqZ 0 n).
  assert (HAt : shaped n n At)
    by (apply (shaped_tabulate (fun i k => cell A k i)); lia).
  assert (HcellAt : forall i k, 0 <= i < n -> 0 <= k < n ->
            cell At i k = elem imperfect ((i + k) `mod` n)).
  { intros i k Hi Hk. unfold At.
    rewrite (cell_tabulate (fun i k => cell A k i)) by assumption.
    apply HcellA; assumption. }
  set (ATA0 := (fun i => (fun j => auto i j) <$> seqZ 0 n) <$> seqZ 0 n).
  assert (HATA0 : shaped n n ATA0)
    by (apply (shaped_tabulate auto); lia).
  set (ATb := (fun i =>
                 fold_left
                   (fun sum k =>
                      (sum + elem imperfect ((i + k) `mod` n)
                             * elem perfect k)%float)
                   (seqZ 0 n) 0%float) <$> seqZ 0 n).
  set (ATA := (fun i =>
                 <[Z.to_nat i := (auto i i + diagMean * regParam)%float]>
                   ((fun j => auto i j) <$> seqZ 0 n)) <$> seqZ 0 n).
  assert (Hrun : normalEquations imperfect perfect regParam = Ok (ATA, ATb)).
  { unfold normalEquations. fold n.
    rewrite (make_Ok (@nil float) n) by lia. cbn [mbind result_bind].
    rewrite len_replicate by lia.
    rewrite (forRange_tabulate n _
      (fun k => (fun j => elem imperfect ((j + k) `mod` n)) <$> seqZ 0 n)).
    2: apply len_replicate; lia.
    2:{ intros k r Hk Hr. rewrite roll_spec by lia. cbn [mbind result_bind].
        apply store_Ok. lia. }
    cbn [mbind result_bind]. fold A.
    rewrite (transposeMatrix_spec n n A HA) by lia. cbn [mbind result_bind].
    fold At.
    rewrite (matrixMultiply_spec n n n At A HAt HA) by lia.
    cbn [mbind result_bind].
    rewrite (matrixVectorMultiply_spec n n At perfect HAt) by lia.
    cbn [mbind result_bind].
    replace ((fun i =>
                (fun j =>
                   fold_left
                     (fun sum k => (sum + cell At i k * cell A k j)%float)
                     (seqZ 0 n) 0%float) <$> seqZ 0 n) <$> seqZ 0 n)
      with ATA0.
    2:{ apply tabulate_ext. intros i Hi. apply tabulate_ext. intros j Hj.
        unfold auto. apply fold_left_ext_in. intros acc k Hk.
        apply list_elem_of_lookup in Hk as [k' Hk].
        apply lookup_seqZ in Hk as [-> Hk].
        rewrite HcellAt, HcellA by lia. reflexivity. }
    replace ((fun i =>
                fold_left
                  (fun sum j => (sum + cell At i j * elem perfect j)%float)
                  (seqZ 0 n) 0%float) <$> seqZ 0 n)
      with ATb.
    2:{ apply tabulate_ext. intros i Hi. apply fold_left_ext_in.
        intros acc k Hk. apply list_elem_of_lookup in Hk as [k' Hk].
        apply lookup_seqZ in Hk as [-> Hk].
        rewrite HcellAt by lia. reflexivity. }
    rewrite (forRange_fold _ (fun sum i => (sum + auto i i)%float)).
    2: lia.
    2:{ intros i acc Hi. cell_at HATA0 i i.
        unfold ATA0. rewrite (cell_tabulate auto) by lia. reflexivity. }
    cbn [mbind result_bind]. rewrite Z.sub_0_r. fold diagMean.
    rewrite (forRange_tabulate_fresh n _
      (fun i => <[Z.to_nat i := (auto i i + diagMean * regParam)%float]>
                  ((fun j => auto i j) <$> seqZ 0 n))).
    - reflexivity.
    - apply len_tabulate. lia.
    - intros i Hi. unfold updateCell.
      rewrite (index_fresh _ _ n) by first [exact (proj1 HATA0) | lia].
      unfold ATA0. rewrite index_tabulate by lia.
      cbn [mbind result_bind]. rewrite index_tabulate by lia.
      cbn [mbind result_bind]. rewrite store_Ok by (rewrite len_tabulate; lia).
      cbn [mbind result_bind]. apply store_Ok.
      rewrite (len_fresh _ _ n) by first [exact (proj1 HATA0) | lia]. lia. }
  assert (Hcells : forall i j, 0 <= i < n -> 0 <= j < n ->
            cell ATA i j
            = if i =? j then (auto i i + diagMean * regParam)%float
              else auto i j).
  { intros i j Hi Hj. unfold ATA.
    rewrite (cell_insert (fun i => (fun j => auto i j) <$> seqZ 0 n)
               (fun i => (auto i i + diagMean * regParam)%float) n)
      by first [lia | apply len_tabulate; lia].
    rewrite elem_tabulate by lia. reflexivity. }
  exists ATA, ATb. split_and!.
  - exact Hrun.
  - unfold regularizedLeastSquares. rewrite Hrun. reflexivity.
  - exact Hcells.
  - intros i j Hi Hj. rewrite !Hcells by lia.
    rewrite (Z.eqb_sym j i). destruct (Z.eqb_spec i j) as [->|_];
      [reflexivity | apply Hsym].
  - intros i Hi. unfold ATb. rewrite elem_tabulate by lia. reflexivity.
Qed.

(** [normalEquations_correlations] at a concrete input. *)
Lemma normalEquations_correlations_witness :
  let imperfect := [1; 2; 4]%float in
  let perfect := [1; 1; -1]%float in
  let n := len imperfect in
  let auto (i j : Z) :=
    fold_left
      (fun sum k =>
         (sum + elem imperfect ((i + k) `mod` n)
                * elem imperfect ((j + k) `mod` n))%float)
      (seqZ 0 n) 0%float in
  let diagMean :=
    (fold_left (fun sum i => (sum + auto i i)%float) (seqZ 0 n) 0%float
     / float64_of_int n)%float in
  exists ATA ATb,
    normalEquations imperfect perfect 0.5 = Ok (ATA, ATb)
    /\ regularizedLeastSquares imperfect perfect 0.5
       = solveLinearSystem ATA ATb
    /\ (forall i j, 0 <= i < n -> 0 <= j < n ->
          cell ATA i j
          = if i =? j then (auto i i + diagMean * 0.5)%float
            else auto i j)
    /\ (forall i j, 0 <= i < n -> 0 <= j < n -> cell ATA i j = cell ATA j i)
    /\ (forall i, 0 <= i < n ->
          elem ATb i
          = fold_left
              (fun sum k =>
                 (sum + elem imperfect ((i + k) `mod` n) * elem perfect k)%float)
              (seqZ 0 n) 0%float).
Proof.
  apply (normalEquations_correlations [1; 2; 4]%float [1; 1; -1]%float 0.5).
  - reflexivity.
  - vm_compute. discriminate.
Defined.

End MatrixContent.

(** ** [fir]: the reference square wave on every input *)

Section SquareWaveLevels.
Import Go fir Spec.

Lemma partitionLevels_filter (mean : float) (signal : list float) :
  forall hv hc lv lc,
    fold_left (fun acc v => partitionStep mean v acc) signal (hv, hc, lv, lc)
    = (fold_left (fun sum v => (sum + v)%float)
         (List.filter (fun v => gtb v mean) signal) hv,
       hc + len (List.filter (fun v => gtb v mean) signal),
       fold_left (fun sum v => (sum + v)%float)
         (List.filter (fun v => negb (gtb v mean)) signal) lv,
       lc + len (List.filter (fun v => negb (gtb v mean)) signal)).
Proof.
  induction signal as [|v l IH]; intros hv hc lv lc.
  - cbn. rewrite !Z.add_0_r. reflexivity.
  - cbn [fold_left List.filter]. unfold partitionStep at 2.
    destruct (gtb v mean); cbn [negb fold_left]; rewrite IH;
      unfold len; cbn [length];
      repeat match goal with |- (_, _) = (_, _) => f_equal end;
      first [reflexivity | lia].
Qed.

Lemma filter_split_len (p : float -> bool) (l : list float) :
  len (List.filter p l) + len (List.filter (fun v => negb (p v)) l) = len l.
Proof.
  unfold len. induction l as [|v l IH]; [reflexivity|].
  cbn [List.filter]. destruct (p v); cbn [negb length]; lia.
Qed.

(** [generatePerfectSquareWave] never fails.  The high samples are the
    samples of the signal above its mean, the low samples all the others
    (those not above it, a NaN among them).  The result has the length of
    the signal and two levels, the mean of the high samples and the mean of
    the low samples, each sum taken in the order of the signal: the first
    [n/2] points are at the high level and the others at the low level when
    the mean of the first [n/2] samples is above the mean of the signal, and
    the other way round when it is not. *)
Theorem generatePerfectSquareWave_two_levels (signal : list float) :
  let n := len signal in
  let mean := meanOf signal in
  let highs := List.filter (fun v => gtb v mean) signal in
  let lows := List.filter (fun v => negb (gtb v mean)) signal in
  let high := meanOf highs in
  let low := meanOf lows in
  let firstHalfHigh :=
    gtb (meanOf (take (Z.to_nat (Z.quot n 2)) signal)) mean in
  let wave :=
    replicate (Z.to_nat (Z.quot n 2)) (if firstHalfHigh then high else low)
    ++ replicate (Z.to_nat (n - Z.quot n 2))
         (if firstHalfHigh then low else high) in
  generatePerfectSquareWave signal = Ok wave
  /\ len wave = n
  /\ len highs + len lows = n.
Proof.
  intros n mean highs lows high low firstHalfHigh wave.
  pose proof (len_nonneg signal) as Hn. fold n in Hn.
  assert (Hhalf : 0 <= Z.quot n 2 <= n).
  { rewrite Z.quot_div_nonneg by lia. split; [apply Z.div_pos; lia|].
    apply Z.div_le_upper_bound; lia. }
  assert (Hfill : forall a b,
    (r ← forRange 0 (Z.quot n 2) (fun i r => store r i a)
           (replicate (Z.to_nat n) 0%float);
     forRange (Z.quot n 2) n (fun i r => store r i b) r)
    = Ok (replicate (Z.to_nat (Z.quot n 2)) a
          ++ replicate (Z.to_nat (n - Z.quot n 2)) b)).
  { intros a b. rewrite forRange_fill by (rewrite ?len_replicate; lia).
    simpl. rewrite Z.sub_0_r.
    rewrite forRange_fill.
    2: lia.
    2:{ rewrite len_app, !len_replicate by lia. unfold len.
        rewrite length_drop, length_replicate. lia. }
    rewrite take_app_length' by (rewrite length_replicate; reflexivity).
    rewrite drop_ge.
    2:{ rewrite length_app, length_replicate, length_drop, length_replicate. lia. }
    rewrite app_nil_r. reflexivity. }
  split_and!.
  - unfold generatePerfectSquareWave. fold n.
    change (calculateMean signal) with mean.
    rewrite slice_Ok by lia. cbn [mbind result_bind].
    rewrite Z.sub_0_r. change (Z.to_nat 0) with 0%nat. rewrite drop_0.
    change (gtb (calculateMean (take (Z.to_nat (Z.quot n 2)) signal)) mean)
      with firstHalfHigh.
    unfold partitionLevels. rewrite partitionLevels_filter.
    fold highs. fold lows. rewrite !Z.add_0_l.
    change (fold_left (fun sum v => (sum + v)%float) highs 0%float
            / float64_of_int (len highs))%float with high.
    change (fold_left (fun sum v => (sum + v)%float) lows 0%float
            / float64_of_int (len lows))%float with low.
    rewrite make_Ok by lia. cbn [mbind result_bind].
    unfold wave. destruct firstHalfHigh; apply Hfill.
  - unfold wave. rewrite len_app, !len_replicate by lia. lia.
  - apply filter_split_len.
Qed.

End SquareWaveLevels.

(** ** [fft]: the Bessel series *)

Section Bessel.
Import Go fft Spec.

Lemma square_opp (x : float) : ((- x) * (- x) = x * x)%float.
Proof.
  apply Prim2SF_inj. rewrite !FloatAxioms.mul_spec, FloatAxioms.opp_spec.
  unfold SF64mul, SFmul, SFopp.
  destruct (Prim2SF x) as [[]|[]| |[] m e]; reflexivity.
Qed.

(** [bessel0] is an even function, bit for bit: its argument enters the
    series only through its square, and the square of a binary64 number is
    the square of its opposite. *)
Theorem bessel0_even (x : float) : bessel0 (- x) = bessel0 x.
Proof. unfold bessel0. rewrite square_opp. reflexivity. Qed.

End Bessel.
